(** * Gnuastro: the generic data container, the NoiseChisel segmentation
    entry point and the Statistics option parser

  A shallow embedding of

  - [lib/data.c]                      (module [Data]),
  - [src/noisechisel/segmentation.c]  (module [Segmentation]),
  - [bin/statistics/ui.c], the function [ui_parse_numbers]
                                      (module [StatUI]),
    and the option callbacks, the checks and the release
                                      (module [StatUIChecks]),

  followed by the properties proved about them.

  Conventions of the embedding.

  - A C integer is a [Z]; where the code computes in [size_t] the
    reduction modulo [2^(8 * sizeof (size_t))] is written out.
  - A [float] or [double] is a [spec_float] of the Standard Library:
    zeros, infinities, one NaN and the finite numbers [m * 2^e].
  - A buffer ([void *array]) is a list of elements, read with [l !! i]
    and written with [<[i:=x]> l]; a read or a write outside the list
    is the result [Undefined].
  - [error (EXIT_FAILURE, ...)] ends the process: it is the result
    [Exit e], with [e] the class of the message.
  - A [do ... while] loop is run by [do_while], with fuel: [None] means
    that the loop is still running when the fuel is used up. *)

From Stdlib Require Import ZArith Lia String Ascii.
From Stdlib Require Import Floats.SpecFloat.
From stdpp Require Import base list strings.

Local Open Scope Z_scope.

(* ===================================================================== *)
(** * Part I: the programs                                                *)
(* ===================================================================== *)

(** ** Floating point values and the C operators on them *)

Module Flt.

(** [isnan (x)] of <math.h>. *)
Definition isnan (x : spec_float) : bool :=
  match x with
  | S754_nan => true
  | _ => false
  end.

(** [NAN] of <math.h>. *)
Definition NAN : spec_float := S754_nan.

(** The literals [0], [0.0f]. *)
Definition zero : spec_float := S754_zero false.

(** The literals [1], [1.0f] and [0.5] once converted to [double]
    (53 bits of mantissa). *)
Definition one : spec_float := S754_finite false 4503599627370496 (-52).
Definition half : spec_float := S754_finite false 4503599627370496 (-53).

(** [FLT_MAX] of <float.h>: [(2^24 - 1) * 2^104]. *)
Definition FLT_MAX : spec_float := S754_finite false 16777215 104.

(** [x == y], [x != y], [x < y], [x > y], [x <= y], [x >= y]: every
    comparison with a NaN is false, but [!=], which is true. *)
Definition eq (x y : spec_float) : bool := SFeqb x y.
Definition ne (x y : spec_float) : bool := negb (SFeqb x y).
Definition lt (x y : spec_float) : bool := SFltb x y.
Definition gt (x y : spec_float) : bool := SFltb y x.
Definition le (x y : spec_float) : bool := SFleb x y.
Definition ge (x y : spec_float) : bool := SFleb y x.

End Flt.

(** ** Results of a call *)

(** The classes of fatal errors.  Every [error (EXIT_FAILURE, ...)] of
  [lib/data.c] is one of them:

  - "the size of a dimension cannot be zero"            [InvalidShape]
  - "doesn't support bit types", "type value of %d not
     recognized", "type %d not recognized"              [UnsupportedKind]
  - a changetype routine refusing a pair of types       [UnsupportedConversion]
  - "do not have the same dimensionality", "do not have
     the same size along each dimension"                [ShapeMismatch]
  - "`float` is not 32 bits", "`double` is not 64 bits" [PlatformAssumptionViolated]
  - "array of %zu bytes in gal_data_malloc_array" (and
     calloc), "bytes for gal_data_t in gal_data_alloc"  [OutOfMemory]
  - "couldn't be created", "unable to change file
     position", "unable to write one byte", "couldn't
     be closed"                                         [StorageBackendFailure]
  - "Control has reached the end"                       [BugReached] *)
Inductive error : Type :=
  | InvalidShape
  | UnsupportedKind
  | UnsupportedConversion
  | ShapeMismatch
  | PlatformAssumptionViolated
  | OutOfMemory
  | StorageBackendFailure
  | BugReached.

Inductive res (A : Type) : Type :=
  | Ok (a : A)
  | Exit (e : error)
  | Undefined.

Arguments Ok {A} a.
Arguments Exit {A} e.
Arguments Undefined {A}.

#[global] Instance res_ret : MRet res := fun A a => Ok a.

#[global] Instance res_bind : MBind res := fun A B f m =>
  match m with
  | Ok a => f a
  | Exit e => Exit e
  | Undefined => Undefined
  end.

(** [do body while (cond)]: the body runs, then the condition is tested on
  the state the body leaves.  An increment written in the condition
  ([while (++p < pf)]) is counted with the body: it always runs between
  the body and the comparison. *)
Fixpoint do_while {S : Type} (fuel : nat) (body : S -> res S)
    (cond : S -> bool) (s : S) : option (res S) :=
  match fuel with
  | O => None
  | Datatypes.S fuel' =>
      match body s with
      | Ok s' => if cond s' then do_while fuel' body cond s' else Some (Ok s')
      | Exit e => Some (Exit e)
      | Undefined => Some Undefined
      end
  end.

(** Reading and writing one element of a buffer. *)
Definition load {A : Type} (l : list A) (i : nat) : res A :=
  match l !! i with
  | Some x => Ok x
  | None => Undefined
  end.

Definition store {A : Type} (l : list A) (i : nat) (x : A) : res (list A) :=
  if decide (i < length l)%nat then Ok (<[i:=x]> l) else Undefined.

(** [p < pf] where [p] is [i] elements and [pf] is [n] elements after the
  start of the same buffer; the state of the loop is the index and what
  the loop works on. *)
Definition before {A : Type} (n : Z) (s : nat * A) : bool :=
  bool_decide (Z.of_nat s.1 < n).

(** ** lib/data.c *)

Module Data.

(** *** What <gnuastro/data.h> declares *)

(** The values of [int type]: the named constants [GAL_DATA_TYPE_*] (the
    case labels of one switch, hence pairwise different) and every other
    value of an [int]. *)
Inductive gal_type : Type :=
  | GAL_DATA_TYPE_BIT
  | GAL_DATA_TYPE_UCHAR
  | GAL_DATA_TYPE_CHAR
  | GAL_DATA_TYPE_LOGICAL
  | GAL_DATA_TYPE_STRING
  | GAL_DATA_TYPE_USHORT
  | GAL_DATA_TYPE_SHORT
  | GAL_DATA_TYPE_UINT
  | GAL_DATA_TYPE_INT
  | GAL_DATA_TYPE_ULONG
  | GAL_DATA_TYPE_LONG
  | GAL_DATA_TYPE_LONGLONG
  | GAL_DATA_TYPE_FLOAT
  | GAL_DATA_TYPE_DOUBLE
  | GAL_DATA_TYPE_COMPLEX
  | GAL_DATA_TYPE_DCOMPLEX
  | GAL_DATA_TYPE_OTHER (code : Z).

#[global] Instance gal_type_eq_dec : EqDecision gal_type.
Proof. solve_decision. Defined.

(** The widths the compiler gives to the C types, in bytes.
    [sizeof (char)] and [sizeof (unsigned char)] are 1 in every C
    implementation and are not listed. *)
Record platform : Type := {
  sizeof_short : Z;
  sizeof_int : Z;
  sizeof_long : Z;
  sizeof_LONGLONG : Z;
  sizeof_pointer : Z;
  sizeof_float : Z;
  sizeof_double : Z;
  sizeof_size_t : Z
}.

(** The usual 64-bit Unix. *)
Definition lp64 : platform := {|
  sizeof_short := 2;
  sizeof_int := 4;
  sizeof_long := 8;
  sizeof_LONGLONG := 8;
  sizeof_pointer := 8;
  sizeof_float := 4;
  sizeof_double := 8;
  sizeof_size_t := 8
|}.

(** [gsl_complex_float] is [struct { float dat[2]; }] and [gsl_complex]
    is [struct { double dat[2]; }]. *)
Definition sizeof_gsl_complex_float (p : platform) : Z := 2 * sizeof_float p.
Definition sizeof_gsl_complex (p : platform) : Z := 2 * sizeof_double p.

(** Arithmetic in [size_t]. *)
Definition size_t_modulus (p : platform) : Z := 2 ^ (8 * sizeof_size_t p).
Definition to_size_t (p : platform) (z : Z) : Z := z mod size_t_modulus p.

(** One element of a buffer: an integer of any of the integer types (a
    [char *] of the string type is its address), a [float] or [double],
    or a pair of them for the two complex types. *)
Inductive elem : Type :=
  | Eint (n : Z)
  | Eflt (x : spec_float)
  | Ecpx (re im : spec_float).

(** The blank values [GAL_DATA_BLANK_*] of the integer and string
    types, whose definitions are in the header. *)
Record blank_values : Type := {
  GAL_DATA_BLANK_UCHAR : Z;
  GAL_DATA_BLANK_CHAR : Z;
  GAL_DATA_BLANK_STRING : Z;
  GAL_DATA_BLANK_USHORT : Z;
  GAL_DATA_BLANK_SHORT : Z;
  GAL_DATA_BLANK_UINT : Z;
  GAL_DATA_BLANK_INT : Z;
  GAL_DATA_BLANK_ULONG : Z;
  GAL_DATA_BLANK_LONG : Z;
  GAL_DATA_BLANK_LONGLONG : Z
}.

(** Modelled from the spec: the macros [GAL_DATA_BLANK_FLOAT] and
    [GAL_DATA_BLANK_DOUBLE] of <gnuastro/data.h>, which is not among the
    sources; "for floating-point kinds, the sentinel is NaN". *)
Definition GAL_DATA_BLANK_FLOAT : spec_float := Flt.NAN.
Definition GAL_DATA_BLANK_DOUBLE : spec_float := Flt.NAN.

(** [gal_data_t], with the fields that [data.c] uses. *)
Record gal_data_t : Type := {
  array : list elem;
  type : gal_type;
  ndim : nat;
  dsize : list Z;
  size : Z;
  mmapped : bool;
  mmapname : option string;
  anyblank : bool;
  wcs : option Z
}.

Definition set_array (d : gal_data_t) (a : list elem) : gal_data_t :=
  {| array := a; type := type d; ndim := ndim d; dsize := dsize d;
     size := size d; mmapped := mmapped d; mmapname := mmapname d;
     anyblank := anyblank d; wcs := wcs d |}.

Definition set_anyblank (d : gal_data_t) (b : bool) : gal_data_t :=
  {| array := array d; type := type d; ndim := ndim d; dsize := dsize d;
     size := size d; mmapped := mmapped d; mmapname := mmapname d;
     anyblank := b; wcs := wcs d |}.

(** *** gal_data_dsize_is_different *)

(** The [for] loop, with [n] iterations left from index [i]. *)
Fixpoint dsize_scan (first second : list Z) (i n : nat) : res Z :=
  match n with
  | O => Ok 0
  | S n' =>
      a ← load first i;
      b ← load second i;
      if decide (a ≠ b) then Ok 1 else dsize_scan first second (S i) n'
  end.

Definition gal_data_dsize_is_different (first second : gal_data_t) : res Z :=
  if decide (ndim first ≠ ndim second) then Ok 1
  else dsize_scan (dsize first) (dsize second) 0 (ndim first).

(** *** gal_data_sizeof *)

Definition gal_data_sizeof (p : platform) (t : gal_type) : res Z :=
  match t with
  | GAL_DATA_TYPE_BIT => Exit UnsupportedKind
  | GAL_DATA_TYPE_UCHAR => Ok 1
  | GAL_DATA_TYPE_LOGICAL | GAL_DATA_TYPE_CHAR => Ok 1
  | GAL_DATA_TYPE_STRING => Ok (sizeof_pointer p)
  | GAL_DATA_TYPE_USHORT => Ok (sizeof_short p)
  | GAL_DATA_TYPE_SHORT => Ok (sizeof_short p)
  | GAL_DATA_TYPE_UINT => Ok (sizeof_int p)
  | GAL_DATA_TYPE_INT => Ok (sizeof_int p)
  | GAL_DATA_TYPE_ULONG => Ok (sizeof_long p)
  | GAL_DATA_TYPE_LONG => Ok (sizeof_long p)
  | GAL_DATA_TYPE_LONGLONG => Ok (sizeof_LONGLONG p)
  | GAL_DATA_TYPE_FLOAT =>
      if decide (sizeof_float p ≠ 4) then Exit PlatformAssumptionViolated
      else Ok (sizeof_float p)
  | GAL_DATA_TYPE_DOUBLE =>
      if decide (sizeof_double p ≠ 8) then Exit PlatformAssumptionViolated
      else Ok (sizeof_double p)
  | GAL_DATA_TYPE_COMPLEX =>
      if decide (sizeof_float p ≠ 4) then Exit PlatformAssumptionViolated
      else Ok (sizeof_gsl_complex_float p)
  | GAL_DATA_TYPE_DCOMPLEX =>
      if decide (sizeof_double p ≠ 8) then Exit PlatformAssumptionViolated
      else Ok (sizeof_gsl_complex p)
  | GAL_DATA_TYPE_OTHER _ => Exit UnsupportedKind
  end.

(** *** The host: what the C library and the kernel answer *)

(** [heap_malloc n] and [heap_calloc n w]: the call that makes a buffer
    does not return [NULL]; [heap_garbage t n]: what is found in a block
    that [malloc] returns; [heap_record]: the [malloc] of the record of a
    [gal_data_t] does not return [NULL]; [heap_dsize n]: neither does the
    [malloc] of the [n] bytes of its list of extents; the other fields
    are the outcomes of the calls that [gal_data_mmap] makes. *)
Record host : Type := {
  plat : platform;
  heap_record : bool;
  heap_dsize : Z -> bool;
  heap_malloc : Z -> bool;
  heap_calloc : Z -> Z -> bool;
  heap_garbage : gal_type -> Z -> list elem;
  fs_mkdir : string -> bool;
  fs_mkstemp : string -> option string;
  fs_lseek : string -> Z -> bool;
  fs_write : string -> bool;
  fs_close : string -> bool
}.

(** An element whose bytes are all zero. *)
Definition zero_elem (t : gal_type) : elem :=
  match t with
  | GAL_DATA_TYPE_FLOAT | GAL_DATA_TYPE_DOUBLE => Eflt Flt.zero
  | GAL_DATA_TYPE_COMPLEX | GAL_DATA_TYPE_DCOMPLEX => Ecpx Flt.zero Flt.zero
  | _ => Eint 0
  end.

Definition zeros (t : gal_type) (n : Z) : list elem :=
  replicate (Z.to_nat n) (zero_elem t).

(** *** gal_data_malloc_array, gal_data_calloc_array *)

Definition gal_data_malloc_array (h : host) (t : gal_type) (n : Z)
    : res (list elem) :=
  w ← gal_data_sizeof (plat h) t;
  if heap_malloc h (to_size_t (plat h) (n * w))
  then Ok (heap_garbage h t n)
  else Exit OutOfMemory.

Definition gal_data_calloc_array (h : host) (t : gal_type) (n : Z)
    : res (list elem) :=
  w ← gal_data_sizeof (plat h) t;
  if heap_calloc h n w then Ok (zeros t n) else Exit OutOfMemory.

(** *** gal_data_mmap *)

(** Modelled from the spec: [gal_checkset_mkdir] of checkset.c, which is
    not among the sources; the scratch directory is "created if absent"
    and a failure of the storage backend is fatal. *)
Definition gal_checkset_mkdir (h : host) (dir : string) : res unit :=
  if fs_mkdir h dir then Ok tt else Exit StorageBackendFailure.

Definition gal_data_mmap (h : host) (data : gal_data_t) : res gal_data_t :=
  w ← gal_data_sizeof (plat h) (type data);
  let bsize := to_size_t (plat h) (size data * w) in
  _ ← gal_checkset_mkdir h ".gnuastro";
  match fs_mkstemp h "./.gnuastro/mmap_XXXXXX" with
  | None => Exit StorageBackendFailure
  | Some filename =>
      if negb (fs_lseek h filename bsize) then Exit StorageBackendFailure
      else if negb (fs_write h filename) then Exit StorageBackendFailure
      else
        let a := zeros (type data) (size data) in
        if negb (fs_close h filename) then Exit StorageBackendFailure
        else Ok {| array := a; type := type data; ndim := ndim data;
                   dsize := dsize data; size := size data;
                   mmapped := true; mmapname := Some filename;
                   anyblank := anyblank data; wcs := wcs data |}
  end.

(** *** gal_data_alloc *)

(** The loop that fills [out->dsize] and multiplies [out->size], with
    [n] iterations left from index [i]; [acc] is [out->size] and the
    part of [out->dsize] written so far.  [block] tells whether
    [out->dsize] is a block of memory: the write of an extent through a
    null pointer is outside every buffer. *)
Fixpoint dsize_fill (p : platform) (block : bool) (dsize : list Z)
    (i n : nat) (acc : Z * list Z) : res (Z * list Z) :=
  match n with
  | O => Ok acc
  | S n' =>
      d ← load dsize i;
      if decide (d = 0) then Exit InvalidShape
      else if block
           then dsize_fill p block dsize (S i) n'
                  (to_size_t p (acc.1 * d), acc.2 ++ [d])
           else Undefined
  end.

(** [gal_data_alloc].  The record is allocated first, and the process
    ends if it is not; the block of the extents is allocated next, of
    [ndim * sizeof (long)] bytes, and the test that follows looks at the
    record again, not at the block: a null block is found by the loop
    only, at its first write. *)
Definition gal_data_alloc (h : host) (type : gal_type) (ndim : nat)
    (dsize : list Z) (clear map : bool) : res gal_data_t :=
  _ ← (if heap_record h then Ok tt else Exit OutOfMemory);
  let block :=
    heap_dsize h (to_size_t (plat h) (Z.of_nat ndim * sizeof_long (plat h))) in
  '(sz, ds) ← dsize_fill (plat h) block dsize 0 ndim (1, []);
  let out := {| array := []; type := type; ndim := ndim; dsize := ds;
                size := sz; mmapped := false; mmapname := None;
                anyblank := false; wcs := None |} in
  if map then gal_data_mmap h out
  else
    a ← (if clear then gal_data_calloc_array h type sz
         else gal_data_malloc_array h type sz);
    Ok {| array := a; type := type; ndim := ndim; dsize := ds;
          size := sz; mmapped := false; mmapname := None;
          anyblank := false; wcs := None |}.

(** *** gal_data_free *)

(** The pointers of a [gal_data_t] and the calls that release
    something. *)
Inductive pointer : Type := P_dsize | P_mmapname | P_array | P_data.

#[global] Instance pointer_eq_dec : EqDecision pointer.
Proof. solve_decision. Defined.

Inductive call : Type :=
  | wcsfree (w : Z)
  | free (p : pointer)
  | remove (name : option string)
  | munmap (p : pointer).

#[global] Instance call_eq_dec : EqDecision call.
Proof. solve_decision. Defined.

(** The calls that [gal_data_free] makes, in order. *)
Definition gal_data_free (data : gal_data_t) : list call :=
  (match wcs data with
   | Some w => [wcsfree w]
   | None => []
   end)
  ++ [free P_dsize]
  ++ (if mmapped data
      then [remove (mmapname data); free P_mmapname]
      else [free P_array])
  ++ [free P_data].

(** *** gal_data_alloc_blank *)

(** [gal_data_alloc_blank]: the element that the pointer it returns
    points to, in the block of one element that
    [gal_data_malloc_array] gives. *)
Definition gal_data_alloc_blank (B : blank_values) (h : host) (t : gal_type)
    : res elem :=
  allocated ← gal_data_malloc_array h t 1;
  match t with
  | GAL_DATA_TYPE_BIT => Exit UnsupportedKind
  | GAL_DATA_TYPE_UCHAR => Ok (Eint (GAL_DATA_BLANK_UCHAR B))
  | GAL_DATA_TYPE_CHAR | GAL_DATA_TYPE_LOGICAL =>
      Ok (Eint (GAL_DATA_BLANK_CHAR B))
  | GAL_DATA_TYPE_STRING => Ok (Eint (GAL_DATA_BLANK_STRING B))
  | GAL_DATA_TYPE_USHORT => Ok (Eint (GAL_DATA_BLANK_USHORT B))
  | GAL_DATA_TYPE_SHORT => Ok (Eint (GAL_DATA_BLANK_SHORT B))
  | GAL_DATA_TYPE_UINT => Ok (Eint (GAL_DATA_BLANK_UINT B))
  | GAL_DATA_TYPE_INT => Ok (Eint (GAL_DATA_BLANK_INT B))
  | GAL_DATA_TYPE_ULONG => Ok (Eint (GAL_DATA_BLANK_ULONG B))
  | GAL_DATA_TYPE_LONG => Ok (Eint (GAL_DATA_BLANK_LONG B))
  | GAL_DATA_TYPE_LONGLONG => Ok (Eint (GAL_DATA_BLANK_LONGLONG B))
  | GAL_DATA_TYPE_FLOAT => Ok (Eflt GAL_DATA_BLANK_FLOAT)
  | GAL_DATA_TYPE_DOUBLE => Ok (Eflt GAL_DATA_BLANK_DOUBLE)
  | GAL_DATA_TYPE_COMPLEX =>
      Ok (Ecpx GAL_DATA_BLANK_FLOAT GAL_DATA_BLANK_FLOAT)
  | GAL_DATA_TYPE_DCOMPLEX =>
      Ok (Ecpx GAL_DATA_BLANK_DOUBLE GAL_DATA_BLANK_DOUBLE)
  | GAL_DATA_TYPE_OTHER _ => Exit UnsupportedKind
  end.

(** *** gal_data_copy_to_new_type *)

(** Modelled from the spec: the routines [gal_changetype_out_is_*] of
    changetype.c, which is not among the sources.  [changetype_out_is X
    t input out] is the routine of the destination type [t]; it returns
    the two records as the call leaves them, or ends the process
    ([UnsupportedConversion]). *)
Record externals : Type := {
  changetype_out_is :
    gal_type -> gal_data_t -> gal_data_t -> res (gal_data_t * gal_data_t)
}.

Definition gal_data_copy_to_new_type (X : externals) (h : host)
    (input : gal_data_t) (newtype : gal_type)
    : res (gal_data_t * gal_data_t) :=
  out ← gal_data_alloc h newtype (ndim input) (dsize input) false
          (mmapped input);
  match newtype with
  | GAL_DATA_TYPE_UCHAR => changetype_out_is X GAL_DATA_TYPE_UCHAR input out
  | GAL_DATA_TYPE_CHAR => changetype_out_is X GAL_DATA_TYPE_CHAR input out
  | GAL_DATA_TYPE_USHORT => changetype_out_is X GAL_DATA_TYPE_USHORT input out
  | GAL_DATA_TYPE_SHORT => changetype_out_is X GAL_DATA_TYPE_SHORT input out
  | GAL_DATA_TYPE_UINT => changetype_out_is X GAL_DATA_TYPE_UINT input out
  | GAL_DATA_TYPE_INT => changetype_out_is X GAL_DATA_TYPE_INT input out
  | GAL_DATA_TYPE_ULONG => changetype_out_is X GAL_DATA_TYPE_ULONG input out
  | GAL_DATA_TYPE_LONG => changetype_out_is X GAL_DATA_TYPE_LONG input out
  | GAL_DATA_TYPE_LONGLONG =>
      changetype_out_is X GAL_DATA_TYPE_LONGLONG input out
  | GAL_DATA_TYPE_FLOAT => changetype_out_is X GAL_DATA_TYPE_FLOAT input out
  | GAL_DATA_TYPE_DOUBLE => changetype_out_is X GAL_DATA_TYPE_DOUBLE input out
  | _ => Exit UnsupportedKind
  end.

(** *** gal_data_apply_mask *)

(** The end of a call that works on a record in place: the call returns,
    the process ends with an error, or an access leaves a buffer; the
    record is given as the call leaves it. *)
Inductive outcome : Type :=
  | Returned (d : gal_data_t)
  | Exited (e : error) (d : gal_data_t)
  | Crashed.

(** Reading through a [float *]. *)
Definition load_float (l : list elem) (i : nat) : res spec_float :=
  x ← load l i;
  match x with
  | Eflt f => Ok f
  | _ => Undefined
  end.

(** The body of the first loop, [hasblank = 1] when the element that [m]
    points to differs from [0.0f], then [m++]; the state is
    [(m, hasblank)]. *)
Definition mask_scan (mpt : list elem) (s : nat * bool) : res (nat * bool) :=
  m ← load_float mpt s.1;
  Ok (S s.1, if Flt.ne m Flt.zero then true else s.2).

(** The body of the loop of an integer or floating point case: the
    element that [uc] points to is written again when the element of the
    mask equals [0.0f] and is [BLANK] otherwise, then [mpt++] and [++uc].
    The state is [(uc, in->array)]; [mpt] and [uc] advance together and
    one index stands for both. *)
Definition mask_write (blank : elem) (mpt : list elem)
    (s : nat * list elem) : res (nat * list elem) :=
  m ← load_float mpt s.1;
  x ← (if Flt.eq m Flt.zero then load s.2 s.1 else Ok blank);
  a ← store s.2 s.1 x;
  Ok (S s.1, a).

(** The body of the loop of a complex case: [GSL_SET_COMPLEX (cx, BLANK,
    BLANK)] when the element of the mask equals [0.0f], then [mpt++] and
    [++cx]. *)
Definition mask_write_complex (blank : spec_float) (mpt : list elem)
    (s : nat * list elem) : res (nat * list elem) :=
  m ← load_float mpt s.1;
  a ← (if Flt.eq m Flt.zero then store s.2 s.1 (Ecpx blank blank)
       else Ok s.2);
  Ok (S s.1, a).

(** The switch on [in->type]: the body of the loop of each case. *)
Definition mask_switch (B : blank_values) (t : gal_type) (mpt : list elem)
    : res (nat * list elem -> res (nat * list elem)) :=
  match t with
  | GAL_DATA_TYPE_BIT => Exit UnsupportedKind
  | GAL_DATA_TYPE_UCHAR =>
      Ok (mask_write (Eint (GAL_DATA_BLANK_UCHAR B)) mpt)
  | GAL_DATA_TYPE_CHAR | GAL_DATA_TYPE_LOGICAL =>
      Ok (mask_write (Eint (GAL_DATA_BLANK_CHAR B)) mpt)
  | GAL_DATA_TYPE_STRING =>
      Ok (mask_write (Eint (GAL_DATA_BLANK_STRING B)) mpt)
  | GAL_DATA_TYPE_USHORT =>
      Ok (mask_write (Eint (GAL_DATA_BLANK_USHORT B)) mpt)
  | GAL_DATA_TYPE_SHORT =>
      Ok (mask_write (Eint (GAL_DATA_BLANK_SHORT B)) mpt)
  | GAL_DATA_TYPE_UINT =>
      Ok (mask_write (Eint (GAL_DATA_BLANK_UINT B)) mpt)
  | GAL_DATA_TYPE_INT =>
      Ok (mask_write (Eint (GAL_DATA_BLANK_INT B)) mpt)
  | GAL_DATA_TYPE_ULONG =>
      Ok (mask_write (Eint (GAL_DATA_BLANK_ULONG B)) mpt)
  | GAL_DATA_TYPE_LONG =>
      Ok (mask_write (Eint (GAL_DATA_BLANK_LONG B)) mpt)
  | GAL_DATA_TYPE_LONGLONG =>
      Ok (mask_write (Eint (GAL_DATA_BLANK_LONGLONG B)) mpt)
  | GAL_DATA_TYPE_FLOAT =>
      Ok (mask_write (Eflt GAL_DATA_BLANK_FLOAT) mpt)
  | GAL_DATA_TYPE_DOUBLE =>
      Ok (mask_write (Eflt GAL_DATA_BLANK_DOUBLE) mpt)
  | GAL_DATA_TYPE_COMPLEX =>
      Ok (mask_write_complex GAL_DATA_BLANK_FLOAT mpt)
  | GAL_DATA_TYPE_DCOMPLEX =>
      Ok (mask_write_complex GAL_DATA_BLANK_DOUBLE mpt)
  | GAL_DATA_TYPE_OTHER _ => Exit UnsupportedKind
  end.

(** [converted]: the mask itself when its type is [float], a copy of
    that type otherwise. *)
Definition mask_as_float (X : externals) (h : host) (mask : gal_data_t)
    : res gal_data_t :=
  if decide (type mask = GAL_DATA_TYPE_FLOAT) then Ok mask
  else r ← gal_data_copy_to_new_type X h mask GAL_DATA_TYPE_FLOAT; Ok r.2.

(** [gal_data_apply_mask]: the two checks, the conversion of the mask, the
    loop that looks for an element of the mask that is not zero and, when
    there is one, the loop of the case of [in->type].  The call of [free]
    that ends the function releases the record of the converted mask and
    changes nothing of the target. *)
Definition gal_data_apply_mask (B : blank_values) (X : externals) (h : host)
    (fuel : nat) (input mask : gal_data_t) : option outcome :=
  if decide (ndim input ≠ ndim mask)
  then Some (Exited ShapeMismatch input)
  else
    match gal_data_dsize_is_different input mask with
    | Undefined => Some Crashed
    | Exit e => Some (Exited e input)
    | Ok different =>
      if decide (different ≠ 0) then Some (Exited ShapeMismatch input)
      else
        match mask_as_float X h mask with
        | Undefined => Some Crashed
        | Exit e => Some (Exited e input)
        | Ok converted =>
          let mpt := array converted in
          match do_while fuel (mask_scan mpt) (before (size input))
                  (O, false) with
          | None => None
          | Some Undefined => Some Crashed
          | Some (Exit e) => Some (Exited e input)
          | Some (Ok (_, false)) => Some (Returned input)
          | Some (Ok (_, true)) =>
            let input1 := set_anyblank input true in
            match mask_switch B (type input) mpt with
            | Undefined => Some Crashed
            | Exit e => Some (Exited e input1)
            | Ok body =>
              match do_while fuel body (before (size input))
                      (O, array input) with
              | None => None
              | Some Undefined => Some Crashed
              | Some (Exit e) => Some (Exited e input1)
              | Some (Ok (_, a)) => Some (Returned (set_array input1 a))
              end
            end
          end
        end
    end.

(** *** gal_data_blank_to_value *)

(** [value] read through an [int32_t] pointer: the low 32 bits of the
    object, as a signed integer (the bytes of an integer are stored
    lowest first). *)
Definition read_int32 (value : elem) : elem :=
  match value with
  | Eint n => Eint ((n + 2 ^ 31) mod 2 ^ 32 - 2 ^ 31)
  | _ => value
  end.

(** The tests of the loops. *)
Definition is_int_blank (blank : Z) (x : elem) : res bool :=
  match x with
  | Eint n => Ok (bool_decide (n = blank))
  | _ => Undefined
  end.

(** [isnan (BLANK)] chooses between the loop that tests the element
    with [isnan] and the loop that compares it with [other], the constant
    that the second loop of the case names. *)
Definition is_float_blank (blank other : spec_float) (x : elem) : res bool :=
  match x with
  | Eflt f => Ok (if Flt.isnan blank then Flt.isnan f else Flt.eq f other)
  | _ => Undefined
  end.

Definition is_complex_blank (blank other : spec_float) (x : elem)
    : res bool :=
  match x with
  | Ecpx re im =>
      Ok (if Flt.isnan blank then Flt.isnan re && Flt.isnan im
          else Flt.eq re other && Flt.eq im other)
  | _ => Undefined
  end.

(** The body of the loop of an integer or floating point case: when the
    test holds of the element that [uc] points to, [ucv] is written there
    and [uc++]; the increment is part of the assignment and the pointer
    stays otherwise.  The state is [(uc, data->array)]. *)
Definition replace_step (test : elem -> res bool) (v : elem)
    (s : nat * list elem) : res (nat * list elem) :=
  x ← load s.2 s.1;
  b ← test x;
  if b : bool then a ← store s.2 s.1 v; Ok (S s.1, a) else Ok s.

(** The body of the loop of a complex case: [GSL_SET_COMPLEX (cx, ...)]
    when the test holds, then [++cx] in the condition of the loop. *)
Definition replace_step_complex (test : elem -> res bool) (v : elem)
    (s : nat * list elem) : res (nat * list elem) :=
  x ← load s.2 s.1;
  b ← test x;
  a ← (if b : bool then store s.2 s.1 v else Ok s.2);
  Ok (S s.1, a).

(** [uc < ucf] with [ucf = A + S] and [A] a [void *]: [A + S] is [S]
    bytes after [A], and [uc] is [i] elements of [w] bytes after [A]. *)
Definition before_byte {A : Type} (w S : Z) (s : nat * A) : bool :=
  bool_decide (Z.of_nat s.1 * w < S).

(** [gal_data_blank_to_value]: [value] points to one element of the type
    of [data]; of the fourteen initialisers that read it, one for each
    pointer type, only the one of the case that runs is modelled.  [run]
    is a loop of the switch, with the width of the elements that its
    pointer steps over. *)
Definition gal_data_blank_to_value (B : blank_values) (p : platform)
    (fuel : nat) (data : gal_data_t) (value : elem)
    : option (res gal_data_t) :=
  let A := array data in
  let S := size data in
  let run body w :=
    r ← do_while fuel body (before_byte w S) (O, A);
    Some (s ← r; Ok (set_array data s.2)) in
  match type data with
  | GAL_DATA_TYPE_BIT => Some (Exit UnsupportedKind)
  | GAL_DATA_TYPE_UCHAR =>
      run (replace_step (is_int_blank (GAL_DATA_BLANK_UCHAR B)) value) 1
  | GAL_DATA_TYPE_CHAR | GAL_DATA_TYPE_LOGICAL =>
      run (replace_step (is_int_blank (GAL_DATA_BLANK_CHAR B)) value) 1
  | GAL_DATA_TYPE_STRING =>
      run (replace_step (is_int_blank (GAL_DATA_BLANK_STRING B)) value)
          (sizeof_pointer p)
  | GAL_DATA_TYPE_USHORT =>
      run (replace_step (is_int_blank (GAL_DATA_BLANK_USHORT B)) value)
          (sizeof_short p)
  | GAL_DATA_TYPE_SHORT =>
      run (replace_step (is_int_blank (GAL_DATA_BLANK_SHORT B)) value)
          (sizeof_short p)
  | GAL_DATA_TYPE_UINT =>
      run (replace_step (is_int_blank (GAL_DATA_BLANK_UINT B)) value)
          (sizeof_int p)
  | GAL_DATA_TYPE_INT =>
      run (replace_step (is_int_blank (GAL_DATA_BLANK_INT B)) value)
          (sizeof_int p)
  | GAL_DATA_TYPE_ULONG =>
      run (replace_step (is_int_blank (GAL_DATA_BLANK_ULONG B)) value)
          (sizeof_long p)
  | GAL_DATA_TYPE_LONG =>
      run (replace_step (is_int_blank (GAL_DATA_BLANK_LONG B))
             (read_int32 value))
          (sizeof_long p)
  | GAL_DATA_TYPE_LONGLONG =>
      run (replace_step (is_int_blank (GAL_DATA_BLANK_LONGLONG B)) value)
          (sizeof_LONGLONG p)
  | GAL_DATA_TYPE_FLOAT =>
      run (replace_step
             (is_float_blank GAL_DATA_BLANK_FLOAT GAL_DATA_BLANK_FLOAT)
             value)
          (sizeof_float p)
  | GAL_DATA_TYPE_DOUBLE =>
      run (replace_step
             (is_float_blank GAL_DATA_BLANK_DOUBLE GAL_DATA_BLANK_FLOAT)
             value)
          (sizeof_double p)
  | GAL_DATA_TYPE_COMPLEX =>
      run (replace_step_complex
             (is_complex_blank GAL_DATA_BLANK_FLOAT GAL_DATA_BLANK_FLOAT)
             value)
          (sizeof_gsl_complex_float p)
  | GAL_DATA_TYPE_DCOMPLEX =>
      run (replace_step_complex
             (is_complex_blank GAL_DATA_BLANK_DOUBLE GAL_DATA_BLANK_FLOAT)
             value)
          (sizeof_gsl_complex p)
  | GAL_DATA_TYPE_OTHER _ => Some (Exit UnsupportedKind)
  end.

End Data.

(** ** src/noisechisel/segmentation.c *)

Module Segmentation.

(** The fields of [struct noisechiselparams] that [segmentation] uses;
    [s0] and [s1] are [p->smp.s0] and [p->smp.s1]. *)
Record noisechiselparams : Type := {
  s0 : Z;
  s1 : Z;
  img : list spec_float;
  conv : list spec_float;
  olab : list Z;
  numblank : Z;
  wcs : option Z;
  segmentationname : option string;
  numclumps : Z;
  b0f1 : Z
}.

Definition set_conv (p : noisechiselparams) (a : list spec_float)
    : noisechiselparams :=
  {| s0 := s0 p; s1 := s1 p; img := img p; conv := a; olab := olab p;
     numblank := numblank p; wcs := wcs p;
     segmentationname := segmentationname p; numclumps := numclumps p;
     b0f1 := b0f1 p |}.

Definition set_numclumps (p : noisechiselparams) (n : Z)
    : noisechiselparams :=
  {| s0 := s0 p; s1 := s1 p; img := img p; conv := conv p; olab := olab p;
     numblank := numblank p; wcs := wcs p;
     segmentationname := segmentationname p; numclumps := n;
     b0f1 := b0f1 p |}.

Definition set_b0f1 (p : noisechiselparams) (n : Z) : noisechiselparams :=
  {| s0 := s0 p; s1 := s1 p; img := img p; conv := conv p; olab := olab p;
     numblank := numblank p; wcs := wcs p;
     segmentationname := segmentationname p; numclumps := numclumps p;
     b0f1 := n |}.

(** One call of [arraytofitsimg] (fitsarrayvv.h): the file, the name of
    the extension, the pixels as they are when the call is made, and the
    number of blank pixels that is passed. *)
Inductive pixels : Type :=
  | FLOAT_IMG (a : list spec_float)
  | LONG_IMG (a : list Z).

Record fits_extension : Type := {
  fits_file : string;
  fits_extname : string;
  fits_pixels : pixels;
  fits_numblank : Z
}.

(** The body of the loop: [FLT_MAX] is written over the element that
    [f] points to when it is a NaN, then [++f]. *)
Definition nan_to_max (s : nat * list spec_float)
    : res (nat * list spec_float) :=
  x ← load s.2 s.1;
  a ← (if Flt.isnan x then store s.2 s.1 Flt.FLT_MAX else Ok s.2);
  Ok (S s.1, a).

(** [segmentation]: the extensions written to the steps image and what
    [clumpsngrid (p)], the last statement, makes of the record it is
    given.  [clumpsngrid] (clumps.c) is not among the sources and is a
    parameter. *)
Definition segmentation (pl : Data.platform) (fuel : nat)
    (clumpsngrid : noisechiselparams -> noisechiselparams)
    (p : noisechiselparams)
    : option (res (list fits_extension * noisechiselparams)) :=
  let p := set_numclumps p 1 in
  let steps :=
    match segmentationname p with
    | Some name =>
        [ {| fits_file := name; fits_extname := "Input-SkySubtracted";
             fits_pixels := FLOAT_IMG (img p);
             fits_numblank := numblank p |};
          {| fits_file := name; fits_extname := "Convolved-SkySubtracted";
             fits_pixels := FLOAT_IMG (conv p);
             fits_numblank := numblank p |};
          {| fits_file := name; fits_extname := "InitialLabels";
             fits_pixels := LONG_IMG (olab p); fits_numblank := 0 |} ]
    | None => []
    end in
  r ← (if decide (numblank p ≠ 0)
       then do_while fuel nan_to_max
              (before (Data.to_size_t pl (s0 p * s1 p))) (O, conv p)
       else Some (Ok (O, conv p)));
  Some (s ← r;
        let p := set_conv p s.2 in
        let p := set_b0f1 p 0 in
        Ok (steps, clumpsngrid p)).

End Segmentation.

(** ** bin/statistics/ui.c: ui_parse_numbers *)

Module StatUI.

Inductive option_key : Type :=
  | ARGS_OPTION_KEY_SIGMACLIP
  | ARGS_OPTION_KEY_QRANGE
  | ARGS_OPTION_KEY_OTHER (key : Z).

(** The fields of [struct statisticsparams] that the function uses. *)
Record statisticsparams : Type := {
  sigclipmultip : spec_float;
  sigclipparam : spec_float;
  quantmin : spec_float;
  quantmax : spec_float
}.

(** The fatal messages of the function, by their first words. *)
Inductive ui_error : Type :=
  | SigclipTakesTwoValues
  | SigclipMultipleNotPositive
  | SigclipParamNotPositive
  | SigclipParamNotInteger
  | QrangeTakesOneOrTwoValues
  | QrangeNotBetween0And1
  | QrangeOneValueOverHalf
  | OptionNotRecognized.

(** The statements of a [case]: the next statement runs on the record
    ([Next]), a [break] has left the switch ([Break]), or the process
    has ended ([Fail]). *)
Inductive ctl (A : Type) : Type :=
  | Next (a : A)
  | Break (p : statisticsparams)
  | Fail (e : ui_error).

Arguments Next {A} a.
Arguments Break {A} p.
Arguments Fail {A} e.

#[global] Instance ctl_bind : MBind ctl := fun A B f c =>
  match c with
  | Next a => f a
  | Break p => Break p
  | Fail e => Fail e
  end.

(** [if (b) error_at_line (EXIT_FAILURE, ...)]. *)
Definition fatal_if (b : bool) (e : ui_error) (p : statisticsparams)
    : ctl statisticsparams :=
  if b then Fail e else Next p.

(** What the function returns: [NULL], or the string that [asprintf]
    makes of a format and its arguments. *)
Inductive returned : Type :=
  | NULL
  | Str (format : string) (args : list spec_float).

Inductive ui_result : Type :=
  | Done (p : statisticsparams) (r : returned)
  | Failed (e : ui_error).

(** [((double * )(in->array))[i]]; every read follows the test of
    [in->size] and is inside the list. *)
Definition number (nums : list spec_float) (i : nat) : spec_float :=
  default Flt.NAN (nums !! i).

Definition set_sigclip (p : statisticsparams) (multip param : spec_float)
    : statisticsparams :=
  {| sigclipmultip := multip; sigclipparam := param;
     quantmin := quantmin p; quantmax := quantmax p |}.

Definition set_quantmin (p : statisticsparams) (q : spec_float)
    : statisticsparams :=
  {| sigclipmultip := sigclipmultip p; sigclipparam := sigclipparam p;
     quantmin := q; quantmax := quantmax p |}.

Definition set_quantmax (p : statisticsparams) (q : spec_float)
    : statisticsparams :=
  {| sigclipmultip := sigclipmultip p; sigclipparam := sigclipparam p;
     quantmin := quantmin p; quantmax := q |}.

(** The statements after [default:]. *)
Definition case_default (p : statisticsparams) : ctl statisticsparams :=
  Fail OptionNotRecognized.

(** The statements after [case ARGS_OPTION_KEY_SIGMACLIP:]; [ceil] is
    the function of <math.h>. *)
Definition case_sigmaclip (ceil : spec_float -> spec_float)
    (nums : list spec_float) (p : statisticsparams)
    : ctl statisticsparams :=
  p ← fatal_if (bool_decide (length nums ≠ 2%nat)) SigclipTakesTwoValues p;
  p ← Next (set_sigclip p (number nums 0) (number nums 1));
  p ← fatal_if (Flt.le (sigclipmultip p) Flt.zero)
        SigclipMultipleNotPositive p;
  p ← fatal_if (Flt.le (sigclipparam p) Flt.zero)
        SigclipParamNotPositive p;
  p ← fatal_if (Flt.ge (sigclipparam p) Flt.one
                && Flt.ne (ceil (sigclipparam p)) (sigclipparam p))
        SigclipParamNotInteger p;
  Break p.

(** The statements after [case ARGS_OPTION_KEY_QRANGE:], up to the next
    label, and then those of [default:], into which the end of the case
    falls. *)
Definition case_qrange (nums : list spec_float) (p : statisticsparams)
    : ctl statisticsparams :=
  p ← fatal_if (bool_decide (length nums ≠ 1%nat)
                && bool_decide (length nums ≠ 2%nat))
        QrangeTakesOneOrTwoValues p;
  p ← Next (set_quantmin p (number nums 0));
  p ← Next (if decide (length nums = 2%nat)
            then set_quantmax p (number nums 1) else p);
  p ← fatal_if ((Flt.lt (quantmin p) Flt.zero
                 || Flt.gt (quantmin p) Flt.one)
                || (negb (Flt.isnan (quantmax p))
                    && (Flt.lt (quantmax p) Flt.zero
                        || Flt.gt (quantmax p) Flt.one)))
        QrangeNotBetween0And1 p;
  p ← Break p;
  p ← fatal_if (negb (Flt.isnan (quantmax p))
                && Flt.gt (quantmin p) Flt.half)
        QrangeOneValueOverHalf p;
  case_default p.

(** [ui_parse_numbers]: [key] is [option->key], [minus1] tells whether
    [lineno == -1], [nums] is the list that
    [gal_options_parse_list_of_numbers] (not among the sources) reads in
    [arg]. *)
Definition ui_parse_numbers (ceil : spec_float -> spec_float)
    (key : option_key) (minus1 : bool) (nums : list spec_float)
    (p : statisticsparams) : ui_result :=
  if minus1 then
    match key with
    | ARGS_OPTION_KEY_SIGMACLIP =>
        Done p (Str "%g,%g" [sigclipmultip p; sigclipparam p])
    | ARGS_OPTION_KEY_QRANGE =>
        if Flt.isnan (quantmax p) then Done p (Str "%g" [quantmin p])
        else Done p (Str "%g,%g" [quantmin p; quantmax p])
    | ARGS_OPTION_KEY_OTHER _ => Failed OptionNotRecognized
    end
  else
    match
      match key with
      | ARGS_OPTION_KEY_SIGMACLIP => case_sigmaclip ceil nums p
      | ARGS_OPTION_KEY_QRANGE => case_qrange nums p
      | ARGS_OPTION_KEY_OTHER _ => case_default p
      end
    with
    | Next p | Break p => Done p NULL
    | Fail e => Failed e
    end.

End StatUI.

(** ** bin/statistics/ui.c: the option callbacks, the checks and the
    release *)

Module StatUIChecks.

(** [IMAGE_HDU] of <fitsio.h> and every other value that
    [gal_fits_hdu_type] returns. *)
Inductive hdu_kind : Type :=
  | IMAGE_HDU
  | OTHER_HDU (code : Z).

#[global] Instance hdu_kind_eq_dec : EqDecision hdu_kind.
Proof. solve_decision. Defined.

(** The keys of the one-row outputs that the loop of
    [ui_make_sorted_if_necessary] names, and every other key. *)
Inductive print_key : Type :=
  | ARGS_OPTION_KEY_MEDIAN
  | ARGS_OPTION_KEY_MODE
  | ARGS_OPTION_KEY_ROW (key : Z).

(** The address of a [gal_data_t]. *)
Definition address : Type := Z.

(** The fields of [struct statisticsparams] that these functions use;
    [numbers] holds the four fields that [ui_parse_numbers] writes, [hdu]
    is [p->cp.hdu]. *)
Record statisticsparams : Type := {
  numbers : StatUI.statisticsparams;
  inputname : option string;
  column : option string;
  hdu : option string;
  lessthan : spec_float;
  greaterequal : spec_float;
  histogram : bool;
  cumulative : bool;
  asciihist : bool;
  asciicfp : bool;
  numbins : Z;
  numasciibins : Z;
  asciiheight : Z;
  toprint : list print_key;
  isfits : bool;
  hdu_type : hdu_kind;
  input : address;
  sorted : address
}.

Definition set_toprint (p : statisticsparams) (l : list print_key)
    : statisticsparams :=
  {| numbers := numbers p; inputname := inputname p; column := column p;
     hdu := hdu p; lessthan := lessthan p; greaterequal := greaterequal p;
     histogram := histogram p; cumulative := cumulative p;
     asciihist := asciihist p; asciicfp := asciicfp p;
     numbins := numbins p; numasciibins := numasciibins p;
     asciiheight := asciiheight p; toprint := l; isfits := isfits p;
     hdu_type := hdu_type p; input := input p; sorted := sorted p |}.

Definition set_inputname (p : statisticsparams) (name : option string)
    : statisticsparams :=
  {| numbers := numbers p; inputname := name; column := column p;
     hdu := hdu p; lessthan := lessthan p; greaterequal := greaterequal p;
     histogram := histogram p; cumulative := cumulative p;
     asciihist := asciihist p; asciicfp := asciicfp p;
     numbins := numbins p; numasciibins := numasciibins p;
     asciiheight := asciiheight p; toprint := toprint p; isfits := isfits p;
     hdu_type := hdu_type p; input := input p; sorted := sorted p |}.

Definition set_isfits (p : statisticsparams) (b : bool) : statisticsparams :=
  {| numbers := numbers p; inputname := inputname p; column := column p;
     hdu := hdu p; lessthan := lessthan p; greaterequal := greaterequal p;
     histogram := histogram p; cumulative := cumulative p;
     asciihist := asciihist p; asciicfp := asciicfp p;
     numbins := numbins p; numasciibins := numasciibins p;
     asciiheight := asciiheight p; toprint := toprint p; isfits := b;
     hdu_type := hdu_type p; input := input p; sorted := sorted p |}.

Definition set_hdu_type (p : statisticsparams) (k : hdu_kind)
    : statisticsparams :=
  {| numbers := numbers p; inputname := inputname p; column := column p;
     hdu := hdu p; lessthan := lessthan p; greaterequal := greaterequal p;
     histogram := histogram p; cumulative := cumulative p;
     asciihist := asciihist p; asciicfp := asciicfp p;
     numbins := numbins p; numasciibins := numasciibins p;
     asciiheight := asciiheight p; toprint := toprint p; isfits := isfits p;
     hdu_type := k; input := input p; sorted := sorted p |}.

Definition set_sorted (p : statisticsparams) (a : address)
    : statisticsparams :=
  {| numbers := numbers p; inputname := inputname p; column := column p;
     hdu := hdu p; lessthan := lessthan p; greaterequal := greaterequal p;
     histogram := histogram p; cumulative := cumulative p;
     asciihist := asciihist p; asciicfp := asciicfp p;
     numbins := numbins p; numasciibins := numasciibins p;
     asciiheight := asciiheight p; toprint := toprint p; isfits := isfits p;
     hdu_type := hdu_type p; input := input p; sorted := a |}.

(** The fatal messages, by what they say. *)
Inductive check_error : Type :=
  | EqualSignMisused
  | OnlyOneArgument
  | PrintingInOneRowUnsupported
  | OptionTakesNoArgument
  | LessThanBelowGreaterEqual
  | RangeWithQuantileRange
  | NumbinsNotSet
  | AsciiPlotNeedsBinsAndHeight
  | NoHduSpecified
  | ColumnGivenForImage
  | TableWithoutColumn (name : string)
  | NoInputFile
  | TableFormatRefused.

(** The end of a call: it returns, the process ends with a message, or a
    read leaves the string it is made in. *)
Inductive ended (A : Type) : Type :=
  | Returns (a : A)
  | Exits (e : check_error)
  | ReadsOutside.

Arguments Returns {A} a.
Arguments Exits {A} e.
Arguments ReadsOutside {A}.

#[global] Instance ended_bind : MBind ended := fun A B f m =>
  match m with
  | Returns a => f a
  | Exits e => Exits e
  | ReadsOutside => ReadsOutside
  end.

(** [arg[i]]: a character of the string, or the null that ends it; there
    is nothing to read after the null. *)
Definition char_at (arg : string) (i : nat) : ended Ascii.ascii :=
  match String.get i arg with
  | Some c => Returns c
  | None => if decide (i = String.length arg) then Returns Ascii.zero
            else ReadsOutside
  end.

Definition fatal_when (b : bool) (e : check_error) : ended unit :=
  if b then Exits e else Returns tt.

(** *** parse_opt *)

Inductive argp_key : Type :=
  | ARGP_KEY_ARG
  | ARGP_KEY_OPTION (key : Z).

(** [gal_options_set_from_key] (options.c) is not among the sources and
    is a parameter.  [argp_error] ends the process: [argp_parse] is
    called without [ARGP_NO_EXIT]. *)
Definition parse_opt
    (gal_options_set_from_key :
       Z → option string → statisticsparams → ended statisticsparams)
    (key : argp_key) (arg : option string) (p : statisticsparams)
    : ended statisticsparams :=
  _ ← match arg with
      | Some s =>
          c ← char_at s 0;
          fatal_when (bool_decide (c = "="%char)) EqualSignMisused
      | None => Returns tt
      end;
  match key with
  | ARGP_KEY_ARG =>
      match inputname p with
      | Some _ => Exits OnlyOneArgument
      | None => Returns (set_inputname p arg)
      end
  | ARGP_KEY_OPTION k => gal_options_set_from_key k arg p
  end.

(** *** ui_add_to_print_in_row *)

(** [arg && arg[1]!='\0' && *arg!='0' && *arg!='1'], read from left to
    right. *)
Definition not_a_switch (arg : option string) : ended bool :=
  match arg with
  | None => Returns false
  | Some s =>
      c1 ← char_at s 1;
      if bool_decide (c1 = Ascii.zero) then Returns false
      else
        c0 ← char_at s 0;
        Returns (bool_decide (c0 ≠ "0"%char) && bool_decide (c0 ≠ "1"%char))
  end.

(** [arg && *arg=='0']. *)
Definition switched_off (arg : option string) : ended bool :=
  match arg with
  | None => Returns false
  | Some s => c0 ← char_at s 0; Returns (bool_decide (c0 = "0"%char))
  end.

(** [gal_linkedlist_add_to_ill] (linkedlist.c) is not among the sources
    and is a parameter; [minus1] tells whether [lineno == -1]. *)
Definition ui_add_to_print_in_row
    (gal_linkedlist_add_to_ill : list print_key → print_key → list print_key)
    (key : print_key) (arg : option string) (minus1 : bool)
    (p : statisticsparams) : ended statisticsparams :=
  _ ← fatal_when minus1 PrintingInOneRowUnsupported;
  b ← not_a_switch arg;
  _ ← fatal_when b OptionTakesNoArgument;
  off ← switched_off arg;
  if off : bool then Returns p
  else Returns (set_toprint p (gal_linkedlist_add_to_ill (toprint p) key)).

(** *** ui_read_check_only_options *)

(** [gal_table_check_fits_format] (table.c) and
    [gal_linkedlist_reverse_ill] (linkedlist.c) are not among the sources
    and are parameters: whether the first returns, and the list that the
    second leaves. *)
Definition ui_read_check_only_options (format_accepted : bool)
    (gal_linkedlist_reverse_ill : list print_key → list print_key)
    (p : statisticsparams) : ended statisticsparams :=
  _ ← fatal_when (negb format_accepted) TableFormatRefused;
  _ ← fatal_when (negb (Flt.isnan (lessthan p))
                  && negb (Flt.isnan (greaterequal p))
                  && Flt.lt (lessthan p) (greaterequal p))
        LessThanBelowGreaterEqual;
  _ ← fatal_when ((negb (Flt.isnan (lessthan p))
                   || negb (Flt.isnan (greaterequal p)))
                  && negb (Flt.isnan (StatUI.quantmin (numbers p))))
        RangeWithQuantileRange;
  _ ← fatal_when ((histogram p || cumulative p)
                  && bool_decide (numbins p = 0))
        NumbinsNotSet;
  _ ← fatal_when ((asciihist p || asciicfp p)
                  && (bool_decide (numasciibins p = 0)
                      || bool_decide (asciiheight p = 0)))
        AsciiPlotNeedsBinsAndHeight;
  Returns (set_toprint p (gal_linkedlist_reverse_ill (toprint p))).

(** *** ui_check_options_and_arguments *)

(** [gal_fits_name_is_fits] and [gal_fits_hdu_type] (fits.c) are not
    among the sources and are parameters.  [name] is the local variable:
    what the message about a missing column calls the input. *)
Definition ui_check_options_and_arguments
    (gal_fits_name_is_fits : string → bool)
    (gal_fits_hdu_type : string → string → hdu_kind)
    (p : statisticsparams) : ended statisticsparams :=
  match inputname p with
  | Some file =>
      let p := set_isfits p (gal_fits_name_is_fits file) in
      '(p, name) ←
        (if isfits p then
           match hdu p with
           | None => Exits NoHduSpecified
           | Some h =>
               let p := set_hdu_type p (gal_fits_hdu_type file h) in
               if decide (hdu_type p = IMAGE_HDU) then
                 match column p with
                 | Some _ => Exits ColumnGivenForImage
                 | None => Returns (p, None)
                 end
               else
                 match column p with
                 | None =>
                     Returns (p, Some (file ++ " (hdu: " ++ h ++ ")")%string)
                 | Some _ => Returns (p, None)
                 end
           end
         else
           match column p with
           | None => Returns (p, Some file)
           | Some _ => Returns (p, None)
           end);
      match name with
      | Some n => Exits (TableWithoutColumn n)
      | None => Returns p
      end
  | None => Exits NoInputFile
  end.

(** *** ui_make_sorted_if_necessary *)

(** The loop over [p->toprint]: [is_necessary] after it. *)
Fixpoint sorted_wanted (l : list print_key) (is_necessary : Z) : Z :=
  match l with
  | [] => is_necessary
  | ARGS_OPTION_KEY_MEDIAN :: l' | ARGS_OPTION_KEY_MODE :: l' =>
      sorted_wanted l' 1
  | ARGS_OPTION_KEY_ROW _ :: l' => sorted_wanted l' is_necessary
  end.

(** [gal_statistics_is_sorted] (statistics.c) and [gal_data_copy]
    (data.c of a later version) are not among the sources and are
    parameters: what the first answers for the input, and the address of
    the copy, which [gal_statistics_sort_increasing] then sorts in
    place.  The function returns nothing: the pair holds [is_necessary]
    as the function leaves it and the record. *)
Definition ui_make_sorted_if_necessary
    (gal_statistics_is_sorted : address → bool)
    (gal_data_copy : address → address)
    (p : statisticsparams) : Z * statisticsparams :=
  let is_necessary := sorted_wanted (toprint p) 0 in
  let is_necessary :=
    if bool_decide (is_necessary = 0)
       && negb (Flt.isnan (StatUI.sigclipmultip (numbers p)))
    then 1 else is_necessary in
  (is_necessary,
   if gal_statistics_is_sorted (input p) then set_sorted p (input p)
   else set_sorted p (gal_data_copy (input p))).

(** *** ui_free_report *)

Inductive release : Type :=
  | free_hdu
  | free_output
  | gal_data_free (a : address).

#[global] Instance release_eq_dec : EqDecision release.
Proof. solve_decision. Defined.

(** The calls that [ui_free_report] makes, in order. *)
Definition ui_free_report (p : statisticsparams) : list release :=
  [free_hdu; free_output]
  ++ (if decide (sorted p ≠ input p) then [gal_data_free (sorted p)] else [])
  ++ [gal_data_free (input p)].

End StatUIChecks.


(** ** The words of the specification *)

(** The invariant of a loop that rewrites a buffer from its start: [a] is
  [l] where the elements before [i] have been replaced by their images
  under [g]. *)
Definition partly {A : Type} (g : nat → A → A) (l : list A) (i : nat)
    (a : list A) : Prop :=
  length a = length l
  ∧ ∀ j, a !! j = if decide (j < i)%nat then g j <$> l !! j else l !! j.

Module Spec.
Import Data.

(** The closed catalog of supported kinds: every named type but the bit
    type, which [data.c] names only to refuse it. *)
Definition in_catalog (t : gal_type) : bool :=
  match t with
  | GAL_DATA_TYPE_BIT | GAL_DATA_TYPE_OTHER _ => false
  | _ => true
  end.

(** The kinds made of [float]s and those made of [double]s. *)
Definition of_floats (t : gal_type) : bool :=
  bool_decide (t = GAL_DATA_TYPE_FLOAT ∨ t = GAL_DATA_TYPE_COMPLEX).

Definition of_doubles (t : gal_type) : bool :=
  bool_decide (t = GAL_DATA_TYPE_DOUBLE ∨ t = GAL_DATA_TYPE_DCOMPLEX).

(** The host's [float] or [double] does not have the width that the
    kind assumes. *)
Definition width_assumption_broken (p : platform) (t : gal_type) : Prop :=
  (of_floats t = true ∧ sizeof_float p ≠ 4)
  ∨ (of_doubles t = true ∧ sizeof_double p ≠ 8).

(** The byte width of each kind: that of the C type that holds one
    element; 4 and 8 for the floating point types and twice as much for
    the complex ones. *)
Definition width (p : platform) (t : gal_type) : Z :=
  match t with
  | GAL_DATA_TYPE_UCHAR | GAL_DATA_TYPE_CHAR | GAL_DATA_TYPE_LOGICAL => 1
  | GAL_DATA_TYPE_STRING => sizeof_pointer p
  | GAL_DATA_TYPE_USHORT | GAL_DATA_TYPE_SHORT => sizeof_short p
  | GAL_DATA_TYPE_UINT | GAL_DATA_TYPE_INT => sizeof_int p
  | GAL_DATA_TYPE_ULONG | GAL_DATA_TYPE_LONG => sizeof_long p
  | GAL_DATA_TYPE_LONGLONG => sizeof_LONGLONG p
  | GAL_DATA_TYPE_FLOAT => 4
  | GAL_DATA_TYPE_DOUBLE => 8
  | GAL_DATA_TYPE_COMPLEX => 8
  | GAL_DATA_TYPE_DCOMPLEX => 16
  | _ => 0
  end.

(** [shapesMatch]: the negation of [gal_data_dsize_is_different]. *)
Definition shapesMatch (a b : gal_data_t) : Prop :=
  gal_data_dsize_is_different a b = Ok 0.

(** A record whose [dsize] has [ndim] entries. *)
Definition shaped (a : gal_data_t) : Prop := length (dsize a) = ndim a.

(** The product of the extents, in the integers. *)
Definition product (ds : list Z) : Z := foldr Z.mul 1 ds.

(** The destination kinds of [convert]: the cases of the switch of
    [gal_data_copy_to_new_type]. *)
Definition numeric_target (t : gal_type) : bool :=
  match t with
  | GAL_DATA_TYPE_UCHAR | GAL_DATA_TYPE_CHAR | GAL_DATA_TYPE_USHORT
  | GAL_DATA_TYPE_SHORT | GAL_DATA_TYPE_UINT | GAL_DATA_TYPE_INT
  | GAL_DATA_TYPE_ULONG | GAL_DATA_TYPE_LONG | GAL_DATA_TYPE_LONGLONG
  | GAL_DATA_TYPE_FLOAT | GAL_DATA_TYPE_DOUBLE => true
  | _ => false
  end.

(** The blank of each kind, as [gal_data_alloc_blank] writes it. *)
Definition sentinel (B : blank_values) (t : gal_type) : elem :=
  match t with
  | GAL_DATA_TYPE_UCHAR => Eint (GAL_DATA_BLANK_UCHAR B)
  | GAL_DATA_TYPE_CHAR | GAL_DATA_TYPE_LOGICAL => Eint (GAL_DATA_BLANK_CHAR B)
  | GAL_DATA_TYPE_STRING => Eint (GAL_DATA_BLANK_STRING B)
  | GAL_DATA_TYPE_USHORT => Eint (GAL_DATA_BLANK_USHORT B)
  | GAL_DATA_TYPE_SHORT => Eint (GAL_DATA_BLANK_SHORT B)
  | GAL_DATA_TYPE_UINT => Eint (GAL_DATA_BLANK_UINT B)
  | GAL_DATA_TYPE_INT => Eint (GAL_DATA_BLANK_INT B)
  | GAL_DATA_TYPE_ULONG => Eint (GAL_DATA_BLANK_ULONG B)
  | GAL_DATA_TYPE_LONG => Eint (GAL_DATA_BLANK_LONG B)
  | GAL_DATA_TYPE_LONGLONG => Eint (GAL_DATA_BLANK_LONGLONG B)
  | GAL_DATA_TYPE_FLOAT => Eflt GAL_DATA_BLANK_FLOAT
  | GAL_DATA_TYPE_DOUBLE => Eflt GAL_DATA_BLANK_DOUBLE
  | GAL_DATA_TYPE_COMPLEX => Ecpx GAL_DATA_BLANK_FLOAT GAL_DATA_BLANK_FLOAT
  | GAL_DATA_TYPE_DCOMPLEX =>
      Ecpx GAL_DATA_BLANK_DOUBLE GAL_DATA_BLANK_DOUBLE
  | _ => Eint 0
  end.

(** The element of the mask at [i] is not zero. *)
Definition masked (mpt : list elem) (i : nat) : bool :=
  match mpt !! i with
  | Some (Eflt m) => Flt.ne m Flt.zero
  | _ => false
  end.

(** Some element of the mask among the first [n] is not zero. *)
Definition any_masked (mpt : list elem) (n : nat) : bool :=
  existsb (masked mpt) (seq 0 n).

(** A buffer of [float]s. *)
Definition floats (l : list elem) : Prop :=
  Forall (λ x, ∃ m, x = Eflt m) l.

(** The kinds whose elements are single numbers or addresses: those of
    the catalog but the two complex ones. *)
Definition scalar (t : gal_type) : bool :=
  in_catalog t
  && negb (bool_decide (t = GAL_DATA_TYPE_COMPLEX
                        ∨ t = GAL_DATA_TYPE_DCOMPLEX)).

(** The element that the loop that [gal_data_apply_mask] runs for the
    type [t] leaves at the index [i], where it found [x]: the blank where
    the mask is not zero for a scalar type, the blank where the mask is
    zero for a complex type. *)
Definition left_by (B : blank_values) (t : gal_type) (mpt : list elem)
    (i : nat) (x : elem) : elem :=
  if scalar t
  then (if masked mpt i then sentinel B t else x)
  else (if masked mpt i then x else sentinel B t).

(** [out->size] as the loop of [gal_data_alloc] leaves it: 1 when there is
    no dimension, the product of the extents reduced to a [size_t]
    otherwise. *)
Definition count (p : platform) (ds : list Z) : Z :=
  match ds with
  | [] => 1
  | _ => to_size_t p (product ds)
  end.

(** The host grants the buffer of [n] elements of the type [t]: the type
    has a width, and the calls that make the buffer succeed. *)
Definition grants (h : host) (t : gal_type) (n : Z) (clear map : bool)
    : Prop :=
  in_catalog t = true ∧ ¬ width_assumption_broken (plat h) t
  ∧ if map then
      fs_mkdir h ".gnuastro" = true
      ∧ ∃ f, fs_mkstemp h "./.gnuastro/mmap_XXXXXX" = Some f
             ∧ fs_lseek h f (to_size_t (plat h) (n * width (plat h) t)) = true
             ∧ fs_write h f = true ∧ fs_close h f = true
    else if clear then heap_calloc h n (width (plat h) t) = true
    else heap_malloc h (to_size_t (plat h) (n * width (plat h) t)) = true.

(** The host grants the record of an array of [n] dimensions and, when
    there is a dimension, the block of its extents. *)
Definition holds_record (h : host) (n : nat) : Prop :=
  heap_record h = true
  ∧ (n = 0%nat
     ∨ heap_dsize h (to_size_t (plat h) (Z.of_nat n * sizeof_long (plat h)))
       = true).

(** What the specification says of the conversion routines: they fill the
    buffer of the output and touch nothing else. *)
Definition fills_out_only (X : externals) : Prop :=
  ∀ t input out input' out',
    changetype_out_is X t input out = Ok (input', out') →
    input' = input ∧ out' = set_array out (array out').

(** The routine of the destination type [t] accepts the input. *)
Definition accepts (X : externals) (t : gal_type) (input : gal_data_t)
    : Prop :=
  ∀ out, ∃ r, changetype_out_is X t input out = Ok r.

(** A NaN becomes [FLT_MAX], any other value stays. *)
Definition unblanked (x : spec_float) : spec_float :=
  if Flt.isnan x then Flt.FLT_MAX else x.

(** [0 <= x <= 1] on [double]s. *)
Definition between_0_and_1 (x : spec_float) : Prop :=
  Flt.le Flt.zero x = true ∧ Flt.le x Flt.one = true.

(** [x < 0 || x > 1], the test that the parser of Statistics applies to a
    quantile; a NaN, which is the value of a quantile that was not given,
    does not satisfy it. *)
Definition outside_0_1 (x : spec_float) : bool :=
  Flt.lt x Flt.zero || Flt.gt x Flt.one.

End Spec.

(** ** Sample hosts and values, for the examples *)

Module Sample.
Import Data.

(** A host that grants every request. *)
Definition generous (p : platform) : host := {|
  plat := p;
  heap_record := true;
  heap_dsize := fun _ => true;
  heap_malloc := fun _ => true;
  heap_calloc := fun _ _ => true;
  heap_garbage := fun t n => zeros t n;
  fs_mkdir := fun _ => true;
  fs_mkstemp := fun _ => Some "./.gnuastro/mmap_a1B2c3";
  fs_lseek := fun _ _ => true;
  fs_write := fun _ => true;
  fs_close := fun _ => true
|}.

(** Blank values: the largest value of an unsigned type, the smallest of
    a signed one, and the null pointer. *)
Definition blanks : blank_values := {|
  GAL_DATA_BLANK_UCHAR := 255;
  GAL_DATA_BLANK_CHAR := -128;
  GAL_DATA_BLANK_STRING := 0;
  GAL_DATA_BLANK_USHORT := 65535;
  GAL_DATA_BLANK_SHORT := -32768;
  GAL_DATA_BLANK_UINT := 4294967295;
  GAL_DATA_BLANK_INT := -2147483648;
  GAL_DATA_BLANK_ULONG := 18446744073709551615;
  GAL_DATA_BLANK_LONG := -2147483648;
  GAL_DATA_BLANK_LONGLONG := -9223372036854775808
|}.

(** Conversion routines to the floating point types: they accept the
    integer and floating point sources and write one element for each
    element of the input, an integer becoming the floating point number
    of the same value. *)
Definition float_of_Z (n : Z) : spec_float :=
  match n with
  | Z0 => S754_zero false
  | Zpos m => S754_finite false m 0
  | Zneg m => S754_finite true m 0
  end.

Definition to_float (x : elem) : res elem :=
  match x with
  | Eint n => Ok (Eflt (float_of_Z n))
  | Eflt f => Ok (Eflt f)
  | Ecpx _ _ => Exit UnsupportedConversion
  end.

Fixpoint convert_all (l : list elem) : res (list elem) :=
  match l with
  | [] => Ok []
  | x :: l' => y ← to_float x; r ← convert_all l'; Ok (y :: r)
  end.

Definition routines : externals := {|
  changetype_out_is := fun t input out =>
    a ← convert_all (array input);
    Ok (input, set_array out a)
|}.

(** A heap array of one dimension. *)
Definition vector (t : gal_type) (a : list elem) : gal_data_t := {|
  array := a; type := t; ndim := 1; dsize := [Z.of_nat (length a)];
  size := Z.of_nat (length a); mmapped := false; mmapname := None;
  anyblank := false; wcs := None
|}.

(** [0.75] as a [double]. *)
Definition three_quarters : spec_float :=
  S754_finite false 6755399441055744 (-53).

(** A record of parameters of Statistics as [ui.c] initialises it. *)
Definition unset : StatUI.statisticsparams := {|
  StatUI.sigclipmultip := Flt.NAN; StatUI.sigclipparam := Flt.NAN;
  StatUI.quantmin := Flt.NAN; StatUI.quantmax := Flt.NAN
|}.

(** An image of two pixels, the first of which is blank. *)
Definition two_pixels : Segmentation.noisechiselparams := {|
  Segmentation.s0 := 1; Segmentation.s1 := 2;
  Segmentation.img := [Flt.NAN; Flt.one];
  Segmentation.conv := [Flt.NAN; Flt.half];
  Segmentation.olab := [0; 0]; Segmentation.numblank := 1;
  Segmentation.wcs := None; Segmentation.segmentationname := None;
  Segmentation.numclumps := 0; Segmentation.b0f1 := 1
|}.

(** A mapped array of two by two [float]s. *)
Definition mapped_image : gal_data_t := {|
  array := zeros GAL_DATA_TYPE_FLOAT 4; type := GAL_DATA_TYPE_FLOAT;
  ndim := 2; dsize := [2; 2]; size := 4; mmapped := true;
  mmapname := Some "./.gnuastro/mmap_a1B2c3"; anyblank := false;
  wcs := None
|}.

End Sample.

(** ** Notions that the further properties use *)

Module Terms.
Import Data Spec.

(** Every C type of the platform takes at least one byte. *)
Definition sized (p : platform) : Prop :=
  0 < sizeof_short p ∧ 0 < sizeof_int p ∧ 0 < sizeof_long p
  ∧ 0 < sizeof_LONGLONG p ∧ 0 < sizeof_pointer p
  ∧ 0 < sizeof_float p ∧ 0 < sizeof_double p.

(** The value that [gal_data_blank_to_value] writes for [value]: [value]
    itself, but for the [long] type, whose initialiser reads [value]
    through an [int32_t] pointer. *)
Definition written (t : gal_type) (value : elem) : elem :=
  match t with
  | GAL_DATA_TYPE_LONG => read_int32 value
  | _ => value
  end.

(** The width of the elements that the pointer of the case of [t] steps
    over in [gal_data_blank_to_value]. *)
Definition step_width (p : platform) (t : gal_type) : Z :=
  match t with
  | GAL_DATA_TYPE_STRING => sizeof_pointer p
  | GAL_DATA_TYPE_USHORT | GAL_DATA_TYPE_SHORT => sizeof_short p
  | GAL_DATA_TYPE_UINT | GAL_DATA_TYPE_INT => sizeof_int p
  | GAL_DATA_TYPE_ULONG | GAL_DATA_TYPE_LONG => sizeof_long p
  | GAL_DATA_TYPE_LONGLONG => sizeof_LONGLONG p
  | GAL_DATA_TYPE_FLOAT => sizeof_float p
  | GAL_DATA_TYPE_DOUBLE => sizeof_double p
  | GAL_DATA_TYPE_COMPLEX => sizeof_gsl_complex_float p
  | GAL_DATA_TYPE_DCOMPLEX => sizeof_gsl_complex p
  | _ => 1
  end.

(** The number of elements of [w] bytes that start before the byte [n] of
    a buffer: [n / w], rounded up. *)
Definition reached (w n : Z) : nat := Z.to_nat ((n - 1) / w + 1).

(** The test that the case of [t] applies to an element. *)
Definition blank_test (B : blank_values) (t : gal_type) : elem → res bool :=
  match t with
  | GAL_DATA_TYPE_UCHAR => is_int_blank (GAL_DATA_BLANK_UCHAR B)
  | GAL_DATA_TYPE_CHAR | GAL_DATA_TYPE_LOGICAL =>
      is_int_blank (GAL_DATA_BLANK_CHAR B)
  | GAL_DATA_TYPE_STRING => is_int_blank (GAL_DATA_BLANK_STRING B)
  | GAL_DATA_TYPE_USHORT => is_int_blank (GAL_DATA_BLANK_USHORT B)
  | GAL_DATA_TYPE_SHORT => is_int_blank (GAL_DATA_BLANK_SHORT B)
  | GAL_DATA_TYPE_UINT => is_int_blank (GAL_DATA_BLANK_UINT B)
  | GAL_DATA_TYPE_INT => is_int_blank (GAL_DATA_BLANK_INT B)
  | GAL_DATA_TYPE_ULONG => is_int_blank (GAL_DATA_BLANK_ULONG B)
  | GAL_DATA_TYPE_LONG => is_int_blank (GAL_DATA_BLANK_LONG B)
  | GAL_DATA_TYPE_LONGLONG => is_int_blank (GAL_DATA_BLANK_LONGLONG B)
  | GAL_DATA_TYPE_FLOAT =>
      is_float_blank GAL_DATA_BLANK_FLOAT GAL_DATA_BLANK_FLOAT
  | GAL_DATA_TYPE_DOUBLE =>
      is_float_blank GAL_DATA_BLANK_DOUBLE GAL_DATA_BLANK_FLOAT
  | GAL_DATA_TYPE_COMPLEX =>
      is_complex_blank GAL_DATA_BLANK_FLOAT GAL_DATA_BLANK_FLOAT
  | GAL_DATA_TYPE_DCOMPLEX =>
      is_complex_blank GAL_DATA_BLANK_DOUBLE GAL_DATA_BLANK_FLOAT
  | _ => λ _, Undefined
  end.

(** An element of the C type of the kind. *)
Definition of_kind (t : gal_type) (x : elem) : bool :=
  match x with
  | Eint _ =>
      scalar t
      && negb (bool_decide (t = GAL_DATA_TYPE_FLOAT
                            ∨ t = GAL_DATA_TYPE_DOUBLE))
  | Eflt _ =>
      bool_decide (t = GAL_DATA_TYPE_FLOAT ∨ t = GAL_DATA_TYPE_DOUBLE)
  | Ecpx _ _ =>
      bool_decide (t = GAL_DATA_TYPE_COMPLEX ∨ t = GAL_DATA_TYPE_DCOMPLEX)
  end.

(** A complex element whose two parts are NaNs becomes [v], any other
    element stays. *)
Definition unblanked_complex (v x : elem) : elem :=
  match x with
  | Ecpx re im => if Flt.isnan re && Flt.isnan im then v else x
  | _ => x
  end.

(** [value] fits an [int32_t]. *)
Definition fits_int32 (n : Z) : Prop := - 2 ^ 31 ≤ n < 2 ^ 31.

(** What a call of [gal_data_apply_mask] leaves of the target: every
    field but the elements and the flag, the number of elements, and the
    flag when it was set. *)
Definition kept (input d : gal_data_t) : Prop :=
  type d = type input ∧ ndim d = ndim input ∧ dsize d = dsize input
  ∧ size d = size input ∧ mmapped d = mmapped input
  ∧ mmapname d = mmapname input ∧ wcs d = wcs input
  ∧ length (array d) = length (array input)
  ∧ (anyblank input = true → anyblank d = true).

(** A list of numbers without a NaN. *)
Definition no_nan (nums : list spec_float) : Prop :=
  Forall (λ x, Flt.isnan x = false) nums.

(** The options of the command line that are printed in one row, read
    one after the other: each call of [ui_add_to_print_in_row] has no
    argument and a line number that is not -1. *)
Fixpoint add_all
    (add_to_ill : list StatUIChecks.print_key → StatUIChecks.print_key
                  → list StatUIChecks.print_key)
    (keys : list StatUIChecks.print_key) (p : StatUIChecks.statisticsparams)
    : StatUIChecks.ended StatUIChecks.statisticsparams :=
  match keys with
  | [] => StatUIChecks.Returns p
  | k :: keys' =>
      p ← StatUIChecks.ui_add_to_print_in_row add_to_ill k None false p;
      add_all add_to_ill keys' p
  end.

End Terms.

(** ** More sample values *)

Module Instances.
Import Data.

(** A record of Statistics with no file, no option and no data set. *)
Definition nothing_given : StatUIChecks.statisticsparams := {|
  StatUIChecks.numbers := Sample.unset;
  StatUIChecks.inputname := None; StatUIChecks.column := None;
  StatUIChecks.hdu := None;
  StatUIChecks.lessthan := Flt.NAN; StatUIChecks.greaterequal := Flt.NAN;
  StatUIChecks.histogram := false; StatUIChecks.cumulative := false;
  StatUIChecks.asciihist := false; StatUIChecks.asciicfp := false;
  StatUIChecks.numbins := 0; StatUIChecks.numasciibins := 0;
  StatUIChecks.asciiheight := 0; StatUIChecks.toprint := [];
  StatUIChecks.isfits := false;
  StatUIChecks.hdu_type := StatUIChecks.IMAGE_HDU;
  StatUIChecks.input := 100; StatUIChecks.sorted := 0
|}.

(** The same record once [--quantrange=0.75] has been read and with both
    bounds of the range of values at one. *)
Definition both_ranges : StatUIChecks.statisticsparams := {|
  StatUIChecks.numbers :=
    StatUI.set_quantmin Sample.unset Sample.three_quarters;
  StatUIChecks.inputname := None; StatUIChecks.column := None;
  StatUIChecks.hdu := None;
  StatUIChecks.lessthan := Flt.one; StatUIChecks.greaterequal := Flt.one;
  StatUIChecks.histogram := false; StatUIChecks.cumulative := false;
  StatUIChecks.asciihist := false; StatUIChecks.asciicfp := false;
  StatUIChecks.numbins := 0; StatUIChecks.numasciibins := 0;
  StatUIChecks.asciiheight := 0; StatUIChecks.toprint := [];
  StatUIChecks.isfits := false;
  StatUIChecks.hdu_type := StatUIChecks.IMAGE_HDU;
  StatUIChecks.input := 100; StatUIChecks.sorted := 0
|}.

(** A table in a FITS file, with its extension and a column. *)
Definition table_column : StatUIChecks.statisticsparams := {|
  StatUIChecks.numbers := Sample.unset;
  StatUIChecks.inputname := Some "catalog.fits"%string;
  StatUIChecks.column := Some "MAG"%string;
  StatUIChecks.hdu := Some "1"%string;
  StatUIChecks.lessthan := Flt.NAN; StatUIChecks.greaterequal := Flt.NAN;
  StatUIChecks.histogram := false; StatUIChecks.cumulative := false;
  StatUIChecks.asciihist := false; StatUIChecks.asciicfp := false;
  StatUIChecks.numbins := 0; StatUIChecks.numasciibins := 0;
  StatUIChecks.asciiheight := 0; StatUIChecks.toprint := [];
  StatUIChecks.isfits := false;
  StatUIChecks.hdu_type := StatUIChecks.IMAGE_HDU;
  StatUIChecks.input := 100; StatUIChecks.sorted := 0
|}.

(** An image whose size is given as zero by five, with two pixels in the
    buffer of the convolved image. *)
Definition no_pixels : Segmentation.noisechiselparams := {|
  Segmentation.s0 := 0; Segmentation.s1 := 5;
  Segmentation.img := [Flt.one; Flt.one];
  Segmentation.conv := [Flt.NAN; Flt.NAN];
  Segmentation.olab := [0; 0]; Segmentation.numblank := 1;
  Segmentation.wcs := None; Segmentation.segmentationname := None;
  Segmentation.numclumps := 0; Segmentation.b0f1 := 1
|}.

End Instances.

(* ===================================================================== *)
(** * Part II: the properties                                             *)
(* ===================================================================== *)

(** ** Loops *)

Section Loops.
Context {S : Type}.
Implicit Types (body : S → res S) (cond : S → bool).

(** A body that leaves the state as it is, under a condition that holds
    of it, never ends. *)
Lemma do_while_stuck body cond s :
  body s = Ok s → cond s = true → ∀ fuel, do_while fuel body cond s = None.
Proof.
  intros Hb Hc fuel. induction fuel as [|fuel IH]; [done|].
  simpl. by rewrite Hb, Hc.
Qed.

(** One turn of the loop. *)
Lemma do_while_step body cond s s' fuel :
  body s = Ok s' → cond s' = true →
  do_while (Datatypes.S fuel) body cond s = do_while fuel body cond s'.
Proof. intros Hb Hc. simpl. by rewrite Hb, Hc. Qed.

Lemma do_while_last body cond s s' fuel :
  body s = Ok s' → cond s' = false →
  do_while (Datatypes.S fuel) body cond s = Some (Ok s').
Proof. intros Hb Hc. simpl. by rewrite Hb, Hc. Qed.

End Loops.

(** A loop that visits the indices [0 .. length l - 1] in turn and at
  each writes an element computed from the one found there. *)
Section Pointwise.
Context {A : Type}.
Variable body : nat * list A → res (nat * list A).
Variable g : nat → A → A.
Variable l : list A.
Hypothesis body_at : ∀ i a x,
  (i < length l)%nat → length a = length l → a !! i = Some x →
  body (i, a) = Ok (S i, <[i:=g i x]> a).

Lemma partly_start : partly g l 0 l.
Proof. split; [done|]. intros j. case_decide; [lia|done]. Qed.

Lemma partly_next i a x :
  partly g l i a → l !! i = Some x → partly g l (S i) (<[i:=g i x]> a).
Proof.
  intros [Hlen Hat] Hx. split; [by rewrite length_insert|].
  intros j. destruct (decide (j = i)) as [->|Hne].
  - rewrite list_lookup_insert_eq.
    + case_decide; [|lia]. by rewrite Hx.
    + rewrite Hlen. by eapply lookup_lt_Some.
  - rewrite list_lookup_insert_ne by done. rewrite Hat.
    repeat case_decide; try done; lia.
Qed.

Lemma partly_end a : partly g l (length l) a → a = imap g l.
Proof.
  intros [Hlen Hat]. apply list_eq. intros j.
  rewrite Hat, list_lookup_imap. case_decide as Hj; [done|].
  rewrite (lookup_ge_None_2 l j) by lia. done.
Qed.

Lemma do_while_pointwise_from k : ∀ i a fuel,
  (i + S k = length l)%nat → partly g l i a → (k < fuel)%nat →
  do_while fuel body (before (Z.of_nat (length l))) (i, a)
  = Some (Ok (length l, imap g l)).
Proof.
  induction k as [|k IH]; intros i a fuel Hi Hp Hf.
  - destruct fuel as [|fuel]; [lia|].
    destruct (lookup_lt_is_Some_2 l i) as [x Hx]; [lia|].
    assert (a !! i = Some x) as Ha.
    { destruct Hp as [_ ->]. case_decide; [lia|done]. }
    rewrite (do_while_last _ _ _ (S i, <[i:=g i x]> a)).
    + assert (<[i:=g i x]> a = imap g l) as ->.
      { apply partly_end. replace (length l) with (S i) by lia.
        by apply partly_next. }
      by replace (length l) with (S i) by lia.
    + apply body_at; [lia|apply Hp|done].
    + unfold before. simpl. apply bool_decide_eq_false. lia.
  - destruct fuel as [|fuel]; [lia|].
    destruct (lookup_lt_is_Some_2 l i) as [x Hx]; [lia|].
    assert (a !! i = Some x) as Ha.
    { destruct Hp as [_ ->]. case_decide; [lia|done]. }
    rewrite (do_while_step _ _ _ (S i, <[i:=g i x]> a)).
    + apply IH; [lia| |lia]. by apply partly_next.
    + apply body_at; [lia|apply Hp|done].
    + unfold before. simpl. apply bool_decide_eq_true. lia.
Qed.

Lemma do_while_pointwise fuel :
  (1 ≤ length l)%nat → (length l ≤ fuel)%nat →
  do_while fuel body (before (Z.of_nat (length l))) (O, l)
  = Some (Ok (length l, imap g l)).
Proof.
  intros Hl Hf. apply (do_while_pointwise_from (length l - 1)); [lia| |lia].
  apply partly_start.
Qed.
End Pointwise.

(** A loop that visits the indices [0 .. m - 1] of a buffer in turn, where
    [m] is at most its length, and stops there. *)
Section Prefix.
Context {A : Type}.
Variable body : nat * list A → res (nat * list A).
Variable cond : nat * list A → bool.
Variable g : nat → A → A.
Variable l : list A.
Variable m : nat.
Hypothesis body_at : ∀ i a x,
  (i < m)%nat → l !! i = Some x → a !! i = Some x →
  body (i, a) = Ok (S i, <[i:=g i x]> a).
Hypothesis cond_in : ∀ i a, (1 ≤ i < m)%nat → cond (i, a) = true.
Hypothesis cond_out : ∀ a, cond (m, a) = false.
Hypothesis m_in : (1 ≤ m ≤ length l)%nat.

Lemma prefix_next i a x :
  (i < m)%nat → partly (λ j y, if decide (j < m)%nat then g j y else y) l i a →
  l !! i = Some x →
  partly (λ j y, if decide (j < m)%nat then g j y else y) l (S i)
    (<[i:=g i x]> a).
Proof.
  intros Hi Hp Hx.
  pose proof (partly_next (λ j y, if decide (j < m)%nat then g j y else y)
                l i a x Hp Hx) as Hn.
  simpl in Hn. by rewrite decide_True in Hn.
Qed.

Lemma prefix_end a :
  partly (λ j y, if decide (j < m)%nat then g j y else y) l m a →
  a = imap (λ j y, if decide (j < m)%nat then g j y else y) l.
Proof.
  intros [Hlen Hat]. apply list_eq. intros j.
  rewrite Hat, list_lookup_imap. case_decide as Hj; [done|].
  by destruct (l !! j).
Qed.

Lemma do_while_prefix_from k : ∀ i a fuel,
  (i + S k = m)%nat →
  partly (λ j y, if decide (j < m)%nat then g j y else y) l i a →
  (k < fuel)%nat →
  do_while fuel body cond (i, a)
  = Some (Ok (m, imap (λ j y, if decide (j < m)%nat then g j y else y) l)).
Proof.
  induction k as [|k IH]; intros i a fuel Hi Hp Hf.
  - destruct fuel as [|fuel]; [lia|].
    destruct (lookup_lt_is_Some_2 l i) as [x Hx]; [lia|].
    assert (a !! i = Some x) as Ha.
    { destruct Hp as [_ ->]. case_decide; [lia|done]. }
    rewrite (do_while_last _ _ _ (S i, <[i:=g i x]> a)).
    + assert (<[i:=g i x]> a
              = imap (λ j y, if decide (j < m)%nat then g j y else y) l)
        as ->.
      { apply prefix_end.
        pose proof (prefix_next i a x ltac:(lia) Hp Hx) as Hn.
        by replace (S i) with m in Hn by lia. }
      by replace (S i) with m by lia.
    + apply body_at; [lia|done..].
    + replace (S i) with m by lia. apply cond_out.
  - destruct fuel as [|fuel]; [lia|].
    destruct (lookup_lt_is_Some_2 l i) as [x Hx]; [lia|].
    assert (a !! i = Some x) as Ha.
    { destruct Hp as [_ ->]. case_decide; [lia|done]. }
    rewrite (do_while_step _ _ _ (S i, <[i:=g i x]> a)).
    + apply IH; [lia| |lia]. apply prefix_next; [lia|done..].
    + apply body_at; [lia|done..].
    + apply cond_in. lia.
Qed.

Lemma do_while_prefix fuel :
  (m ≤ fuel)%nat →
  do_while fuel body cond (O, l)
  = Some (Ok (m, imap (λ j y, if decide (j < m)%nat then g j y else y) l)).
Proof.
  intros Hf. apply (do_while_prefix_from (m - 1)); [lia| |lia].
  apply partly_start.
Qed.
End Prefix.

(** What every turn of a loop keeps holds of the state it ends in. *)
Section Invariant.
Context {S : Type}.
Variable body : S → res S.
Variable cond : S → bool.
Variable I : S → Prop.
Hypothesis body_keeps : ∀ s s', I s → body s = Ok s' → I s'.

Lemma do_while_invariant : ∀ fuel s s',
  I s → do_while fuel body cond s = Some (Ok s') → I s'.
Proof.
  induction fuel as [|fuel IH]; intros s s' Hs; simpl; [done|].
  destruct (body s) as [s1| |] eqn:Hb; [|done..].
  pose proof (body_keeps s s1 Hs Hb) as H1.
  destruct (cond s1); [by apply IH|]. by intros [= <-].
Qed.
End Invariant.

Module DataFacts.
Import Data Spec.

(** [gal_data_sizeof] *)

Lemma width_assumption_broken_cases (p : platform) (t : gal_type) :
  width_assumption_broken p t ↔
    match t with
    | GAL_DATA_TYPE_FLOAT | GAL_DATA_TYPE_COMPLEX => sizeof_float p ≠ 4
    | GAL_DATA_TYPE_DOUBLE | GAL_DATA_TYPE_DCOMPLEX => sizeof_double p ≠ 8
    | _ => False
    end.
Proof.
  unfold width_assumption_broken, of_floats, of_doubles.
  rewrite !bool_decide_eq_true. destruct t; intuition congruence.
Qed.

Lemma sizeof_unsupported (p : platform) (t : gal_type) :
  gal_data_sizeof p t = Exit UnsupportedKind ↔ in_catalog t = false.
Proof. destruct t; simpl; repeat case_decide; intuition congruence. Qed.

Lemma sizeof_guard (p : platform) (t : gal_type) :
  gal_data_sizeof p t = Exit PlatformAssumptionViolated
  ↔ width_assumption_broken p t.
Proof.
  rewrite width_assumption_broken_cases.
  destruct t; simpl; repeat case_decide; intuition congruence.
Qed.

Lemma sizeof_width (p : platform) (t : gal_type) :
  in_catalog t = true → ¬ width_assumption_broken p t →
  gal_data_sizeof p t = Ok (width p t).
Proof.
  rewrite width_assumption_broken_cases.
  destruct t; simpl; intros Hc Hw; try done; repeat case_decide;
    try tauto; f_equal;
    unfold sizeof_gsl_complex_float, sizeof_gsl_complex; lia.
Qed.

(** C9.  [gal_data_sizeof] ends with the unsupported-kind error exactly
    for the values outside the catalog and with the platform error exactly
    when the kind is made of [float]s (of [double]s) and the [float] (the
    [double]) of the host is not 4 (8) bytes wide; for every other kind of
    the catalog it returns the width of the kind, which on the usual
    64-bit host is the number listed. *)
Theorem gal_data_sizeof_catalog (p : platform) (t : gal_type) :
  (gal_data_sizeof p t = Exit UnsupportedKind ↔ in_catalog t = false)
  ∧ (gal_data_sizeof p t = Exit PlatformAssumptionViolated
     ↔ width_assumption_broken p t)
  ∧ (in_catalog t = true → ¬ width_assumption_broken p t →
     gal_data_sizeof p t = Ok (width p t))
  ∧ (in_catalog t = true →
     gal_data_sizeof lp64 t
     = Ok (match t with
           | GAL_DATA_TYPE_UCHAR | GAL_DATA_TYPE_CHAR
           | GAL_DATA_TYPE_LOGICAL => 1
           | GAL_DATA_TYPE_USHORT | GAL_DATA_TYPE_SHORT => 2
           | GAL_DATA_TYPE_UINT | GAL_DATA_TYPE_INT
           | GAL_DATA_TYPE_FLOAT => 4
           | GAL_DATA_TYPE_DCOMPLEX => 16
           | _ => 8
           end)).
Proof.
  split_and!.
  - apply sizeof_unsupported.
  - apply sizeof_guard.
  - apply sizeof_width.
  - by destruct t.
Qed.

Lemma gal_data_sizeof_catalog_witness :
  gal_data_sizeof lp64 GAL_DATA_TYPE_DCOMPLEX = Ok 16.
Proof.
  destruct (gal_data_sizeof_catalog lp64 GAL_DATA_TYPE_DCOMPLEX)
    as (_ & _ & Hwidth & _).
  apply Hwidth.
  - reflexivity.
  - intros [[_ H]|[_ H]]; apply H; reflexivity.
Defined.

(** [gal_data_dsize_is_different] *)

Lemma dsize_scan_result (first second : list Z) (n : nat) : ∀ i,
  length first = (i + n)%nat → length second = (i + n)%nat →
  (dsize_scan first second i n = Ok 0 ∨ dsize_scan first second i n = Ok 1)
  ∧ (dsize_scan first second i n = Ok 0 ↔ drop i first = drop i second).
Proof.
  induction n as [|n IH]; intros i H1 H2.
  - simpl. split; [by left|]. split; [|done]. intros _.
    rewrite !drop_ge by lia. done.
  - destruct (lookup_lt_is_Some_2 first i) as [a Ha]; [lia|].
    destruct (lookup_lt_is_Some_2 second i) as [b Hb]; [lia|].
    rewrite (drop_S _ _ _ Ha), (drop_S _ _ _ Hb).
    simpl. unfold load. rewrite Ha, Hb. simpl.
    case_decide as Hab.
    + split; [by right|]. split; [done|]. intros [=]. done.
    + subst b.
      destruct (IH (S i)) as [Hor Hiff]; [lia..|].
      split; [done|]. rewrite Hiff. split; [by intros ->|by intros [=]].
Qed.

Lemma dsize_is_different_0 (a b : gal_data_t) :
  shaped a → shaped b →
  (gal_data_dsize_is_different a b = Ok 0
   ↔ ndim a = ndim b ∧ dsize a = dsize b).
Proof.
  unfold shaped, gal_data_dsize_is_different. intros Ha Hb.
  case_decide as Hn.
  - split; [done|]. intros [? _]. done.
  - destruct (dsize_scan_result (dsize a) (dsize b) (ndim a) 0) as [_ ->];
      [simpl; lia..|].
    rewrite !drop_0. tauto.
Qed.

Lemma dsize_is_different_1 (a b : gal_data_t) :
  shaped a → shaped b →
  (gal_data_dsize_is_different a b = Ok 1
   ↔ ndim a ≠ ndim b ∨ dsize a ≠ dsize b).
Proof.
  intros Ha Hb. pose proof (dsize_is_different_0 a b Ha Hb) as H0.
  unfold shaped, gal_data_dsize_is_different in *.
  case_decide as Hn.
  - tauto.
  - destruct (dsize_scan_result (dsize a) (dsize b) (ndim a) 0) as [[E|E] _];
      [simpl; lia..| |]; rewrite E in *.
    + split; [done|]. intros [?|Hd]; [done|].
      destruct H0 as [H0 _]. by destruct (H0 eq_refl).
    + split; [|done]. intros _. right. intros Hd.
      assert (Ok 1 = Ok 0 :> res Z) as [=]. apply H0. done.
Qed.

(** C8.  On records whose [dsize] has [ndim] entries, [shapesMatch] (the
    function [gal_data_dsize_is_different] returning 0) holds exactly when
    the two records have the same number of dimensions and the same
    extents in the same order; and [gal_data_apply_mask] called on a
    target and a mask that differ in either ends with [ShapeMismatch],
    the target being as it was given. *)
Theorem shapes_match_or_mask_refused (a b : gal_data_t) :
  shaped a → shaped b →
  (shapesMatch a b ↔ ndim a = ndim b ∧ dsize a = dsize b)
  ∧ (ndim a ≠ ndim b ∨ dsize a ≠ dsize b →
     ∀ B X h fuel,
       gal_data_apply_mask B X h fuel a b = Some (Exited ShapeMismatch a)).
Proof.
  intros Ha Hb. split; [by apply dsize_is_different_0|].
  intros Hne B X h fuel. unfold gal_data_apply_mask.
  case_decide; [done|].
  apply (dsize_is_different_1 a b Ha Hb) in Hne as ->.
  by case_decide.
Qed.

Lemma shapes_match_or_mask_refused_witness :
  let target := Sample.vector GAL_DATA_TYPE_UCHAR [Eint 1; Eint 2] in
  let mask := Sample.vector GAL_DATA_TYPE_FLOAT
                [Eflt Flt.zero; Eflt Flt.one; Eflt Flt.zero] in
  gal_data_apply_mask Sample.blanks Sample.routines (Sample.generous lp64)
    3 target mask
  = Some (Exited ShapeMismatch target).
Proof.
  intros target mask.
  apply (shapes_match_or_mask_refused target mask).
  - reflexivity.
  - reflexivity.
  - right. simpl. intros [=].
Defined.

(** [gal_data_alloc] *)

Lemma to_size_t_mul_l (p : platform) (a d : Z) :
  to_size_t p (to_size_t p a * d) = to_size_t p (a * d).
Proof.
  unfold to_size_t. destruct (decide (size_t_modulus p = 0)) as [->|Hm].
  - by rewrite !Z.mod_0_r.
  - by rewrite Z.mul_mod_idemp_l.
Qed.

Lemma to_size_t_small (p : platform) (z : Z) :
  0 ≤ z < size_t_modulus p → to_size_t p z = z.
Proof. intros Hz. unfold to_size_t. by apply Z.mod_small. Qed.

(** What the loop of [gal_data_alloc] computes from the index [i] on. *)
Lemma dsize_fill_spec (p : platform) (ds : list Z) (n : nat) :
  ∀ i acc, length ds = (i + n)%nat →
    (0 ∈ drop i ds → dsize_fill p true ds i n acc = Exit InvalidShape)
    ∧ (0 ∉ drop i ds →
       dsize_fill p true ds i n acc
       = Ok (match n with
             | O => acc.1
             | S _ => to_size_t p (acc.1 * product (drop i ds))
             end, acc.2 ++ drop i ds)).
Proof.
  induction n as [|n IH]; intros i acc Hlen.
  - rewrite drop_ge by lia. simpl. split.
    + by intros ?%elem_of_nil.
    + intros _. rewrite app_nil_r. by destruct acc.
  - destruct (lookup_lt_is_Some_2 ds i) as [d Hd]; [lia|].
    rewrite (drop_S _ _ _ Hd). simpl. unfold load. rewrite Hd. simpl.
    destruct (IH (S i) (to_size_t p (acc.1 * d), acc.2 ++ [d]))
      as [IHz IHnz]; [lia|].
    case_decide as Hz.
    + split; [done|]. intros Hn. exfalso. apply Hn. subst d. left.
    + split.
      * intros [?|Hin]%elem_of_cons; [done|]. by apply IHz.
      * intros Hn. rewrite IHnz.
        2:{ intros Hin. apply Hn. by right. }
        simpl. rewrite <- app_assoc. simpl. f_equal. f_equal.
        destruct n as [|n].
        -- rewrite drop_ge by lia. unfold product. simpl.
           f_equal. lia.
        -- rewrite to_size_t_mul_l. unfold product. simpl.
           f_equal. lia.
Qed.

Lemma dsize_fill_whole (p : platform) (ds : list Z) :
  (0 ∈ ds →
   dsize_fill p true ds 0 (length ds) (1, []) = Exit InvalidShape)
  ∧ (0 ∉ ds →
     dsize_fill p true ds 0 (length ds) (1, []) = Ok (count p ds, ds)).
Proof.
  destruct (dsize_fill_spec p ds (length ds) 0 (1, [])) as [Hz Hnz];
    [done|].
  rewrite drop_0 in Hz, Hnz. split; [done|].
  intros Hn. rewrite (Hnz Hn). simpl. f_equal. f_equal.
  destruct ds as [|d ds]; [done|]. simpl. f_equal. lia.
Qed.

(** The loop when the block of the extents is a null pointer: it ends
    at its first turn, with the error of a zero extent or at the
    write. *)
Lemma dsize_fill_null (p : platform) (ds : list Z) (i n : nat)
    (acc : Z * list Z) :
  dsize_fill p false ds i n acc
  = match n with
    | O => Ok acc
    | S _ =>
        d ← load ds i;
        if decide (d = 0) then Exit InvalidShape else Undefined
    end.
Proof. by destruct n. Qed.

Lemma dsize_fill_returns (p : platform) (block : bool) (ds : list Z)
    (r : Z * list Z) :
  dsize_fill p block ds 0 (length ds) (1, []) = Ok r →
  (0 ∉ ds) ∧ r = (count p ds, ds) ∧ (block = true ∨ ds = []).
Proof.
  destruct block.
  - destruct (dsize_fill_whole p ds) as [Hz Hnz].
    destruct (decide (0 ∈ ds)) as [Hin|Hout].
    + by rewrite (Hz Hin).
    + rewrite (Hnz Hout). intros [= <-]. split_and!; [done..|by left].
  - rewrite dsize_fill_null. destruct ds as [|d ds]; simpl.
    + intros [= <-]. split_and!; [by intros ?%elem_of_nil|done|by right].
    + unfold load. simpl. by case_decide.
Qed.

Lemma dsize_fill_held (h : host) (ds : list Z) :
  holds_record h (length ds) → 0 ∉ ds →
  dsize_fill (plat h)
    (heap_dsize h
       (to_size_t (plat h) (Z.of_nat (length ds) * sizeof_long (plat h))))
    ds 0 (length ds) (1, [])
  = Ok (count (plat h) ds, ds).
Proof.
  intros [_ [Hn | ->]] Hnz.
  - by destruct ds.
  - by apply dsize_fill_whole.
Qed.

Lemma dsize_fill_zero (h : host) (ds : list Z) :
  holds_record h (length ds) → 0 ∈ ds →
  dsize_fill (plat h)
    (heap_dsize h
       (to_size_t (plat h) (Z.of_nat (length ds) * sizeof_long (plat h))))
    ds 0 (length ds) (1, [])
  = Exit InvalidShape.
Proof.
  intros [_ [Hn | ->]] Hz.
  - destruct ds; [|done]. by apply elem_of_nil in Hz.
  - by apply dsize_fill_whole.
Qed.

Lemma count_modulo (p : platform) (ds : list Z) :
  count p ds mod size_t_modulus p = product ds mod size_t_modulus p.
Proof.
  destruct ds as [|d ds]; [done|]. unfold count, to_size_t.
  destruct (decide (size_t_modulus p = 0)) as [->|Hm].
  - by rewrite !Z.mod_0_r.
  - by rewrite Z.mod_mod.
Qed.

Lemma count_exact (p : platform) (ds : list Z) :
  0 ≤ product ds < size_t_modulus p → count p ds = product ds.
Proof.
  intros Hp. destruct ds as [|d ds]; [done|]. by apply to_size_t_small.
Qed.

(** With a [size_t] of at least one byte, the count is the product
    reduced to a [size_t], also for no dimension. *)
Lemma count_reduced (p : platform) (ds : list Z) :
  0 < sizeof_size_t p → count p ds = product ds mod size_t_modulus p.
Proof.
  intros Hw. destruct ds as [|d ds]; [|done].
  unfold count, product, size_t_modulus. simpl.
  symmetry. apply Z.mod_small. split; [lia|].
  apply Z.pow_gt_1; lia.
Qed.

(** The buffer is the only thing that can be refused once the extents
    are accepted. *)
Lemma gal_data_mmap_granted (h : host) (d : gal_data_t) :
  grants h (type d) (size d) false true →
  ∃ f, gal_data_mmap h d
       = Ok {| array := zeros (type d) (size d); type := type d;
               ndim := ndim d; dsize := dsize d; size := size d;
               mmapped := true; mmapname := Some f;
               anyblank := anyblank d; wcs := wcs d |}.
Proof.
  intros (Hc & Hw & Hdir & f & Hf & Hseek & Hwrite & Hclose).
  exists f. unfold gal_data_mmap, gal_checkset_mkdir.
  rewrite (sizeof_width _ _ Hc Hw). simpl.
  by rewrite Hdir, Hf, Hseek, Hwrite, Hclose.
Qed.

Lemma alloc_array_granted (h : host) (t : gal_type) (n : Z) (clear : bool) :
  grants h t n clear false →
  ∃ a, (if clear then gal_data_calloc_array h t n
        else gal_data_malloc_array h t n) = Ok a.
Proof.
  intros (Hc & Hw & Hheap).
  unfold gal_data_calloc_array, gal_data_malloc_array.
  rewrite (sizeof_width _ _ Hc Hw). simpl.
  destruct clear; rewrite Hheap; eauto.
Qed.

(** What a record that [gal_data_alloc] returns looks like. *)
Lemma gal_data_alloc_returns (h : host) (t : gal_type) (ds : list Z)
    (clear map : bool) (out : gal_data_t) :
  gal_data_alloc h t (length ds) ds clear map = Ok out →
  (0 ∉ ds)
  ∧ type out = t ∧ ndim out = length ds ∧ dsize out = ds
  ∧ size out = count (plat h) ds
  ∧ mmapped out = map ∧ anyblank out = false ∧ wcs out = None.
Proof.
  unfold gal_data_alloc.
  destruct (heap_record h); simpl; [|done].
  destruct (dsize_fill _ _ _ _ _ _) as [r| |] eqn:Hfill; simpl; [|done..].
  apply dsize_fill_returns in Hfill as (Hnz & -> & _).
  destruct map.
  - unfold gal_data_mmap. simpl.
    destruct (gal_data_sizeof _ _); simpl; [|done..].
    destruct (gal_checkset_mkdir _ _); simpl; [|done..].
    destruct (fs_mkstemp _ _); [|done].
    repeat (case_match; [done|]). by intros [= <-].
  - destruct (if clear then _ else _); simpl; [|done..].
    by intros [= <-].
Qed.

Lemma gal_data_alloc_granted (h : host) (t : gal_type) (ds : list Z)
    (clear map : bool) :
  holds_record h (length ds) →
  0 ∉ ds → grants h t (count (plat h) ds) clear map →
  ∃ out, gal_data_alloc h t (length ds) ds clear map = Ok out.
Proof.
  intros Hr Hnz Hg. unfold gal_data_alloc.
  rewrite (proj1 Hr). simpl.
  rewrite (dsize_fill_held h ds Hr Hnz). simpl.
  destruct map.
  - destruct (gal_data_mmap_granted h
      {| array := []; type := t; ndim := length ds; dsize := ds;
         size := count (plat h) ds; mmapped := false; mmapname := None;
         anyblank := false; wcs := None |}) as [f ->]; [|eauto].
    simpl. destruct Hg as (? & ? & ? & f & ?). split_and!; eauto.
  - destruct (alloc_array_granted h t _ clear Hg) as [a ->]. simpl. eauto.
Qed.

(** C4, as amended.  On a host whose [size_t] has at least one byte and
    that grants the record and the block of its extents, for every kind
    and list of extents: [gal_data_alloc] ends with [InvalidShape] when
    an extent is zero; a record that it returns has a count equal to the
    product of the extents reduced modulo [2^(8 * sizeof (size_t))],
    hence equal to the product when the product is below that modulus,
    has [anyblank] false and no [wcs]; and with positive extents it does
    return a record, with that count, when the host grants the buffer of
    that many elements. *)
Theorem gal_data_alloc_count (h : host) (t : gal_type) (ds : list Z)
    (clear map : bool) :
  0 < sizeof_size_t (plat h) →
  holds_record h (length ds) →
  (0 ∈ ds → gal_data_alloc h t (length ds) ds clear map = Exit InvalidShape)
  ∧ (∀ out, gal_data_alloc h t (length ds) ds clear map = Ok out →
       size out = product ds mod size_t_modulus (plat h)
       ∧ (0 ≤ product ds < size_t_modulus (plat h) →
          size out = product ds)
       ∧ anyblank out = false ∧ wcs out = None)
  ∧ (Forall (λ d, 0 < d) ds →
     grants h t (product ds mod size_t_modulus (plat h)) clear map →
     ∃ out, gal_data_alloc h t (length ds) ds clear map = Ok out
            ∧ size out = product ds mod size_t_modulus (plat h)).
Proof.
  intros Hw Hr. split_and!.
  - intros Hz. unfold gal_data_alloc. rewrite (proj1 Hr). simpl.
    by rewrite (dsize_fill_zero h ds Hr Hz).
  - intros out (_ & _ & _ & _ & -> & _ & Hb & Hwcs)%gal_data_alloc_returns.
    split_and!; [by apply count_reduced|apply count_exact|done..].
  - intros Hpos Hg. rewrite <- (count_reduced _ ds Hw) in *.
    destruct (gal_data_alloc_granted h t ds clear map Hr) as [out Hout];
      [|done|].
    + intros Hz. rewrite Forall_forall in Hpos. apply Hpos in Hz. lia.
    + exists out. split; [done|].
      by apply gal_data_alloc_returns in Hout as (_ & _ & _ & _ & -> & _).
Qed.

Lemma generous_grants (t : gal_type) (n : Z) (clear map : bool) :
  in_catalog t = true →
  grants (Sample.generous lp64) t n clear map.
Proof.
  intros Hc. split_and!; [done| |].
  - rewrite width_assumption_broken_cases. simpl. destruct t; tauto.
  - destruct map, clear; simpl; eauto 10.
Qed.

Lemma generous_holds_record (n : nat) :
  holds_record (Sample.generous lp64) n.
Proof. split; [done|by right]. Qed.

Lemma gal_data_alloc_count_witness :
  ∃ out, gal_data_alloc (Sample.generous lp64) GAL_DATA_TYPE_FLOAT
           2 [3; 4] true false = Ok out
         ∧ size out = 12 ∧ anyblank out = false ∧ wcs out = None.
Proof.
  destruct (gal_data_alloc_count (Sample.generous lp64)
              GAL_DATA_TYPE_FLOAT [3; 4] true false) as (_ & Hret & Hgr).
  - simpl. lia.
  - apply generous_holds_record.
  - destruct Hgr as (out & Hout & Hsize).
    + repeat constructor.
    + by apply generous_grants.
    + exists out. destruct (Hret out Hout) as (_ & _ & Hb & Hw).
      split_and!; [done| |done..]. rewrite Hsize. reflexivity.
Defined.

(** On the usual 64-bit host the extents [2^32] and [2^32 + 1] are
    positive and accepted, and the count of the array that is returned is
    [2^32]: the product, [2^64 + 2^32], does not fit a [size_t]. *)
Lemma gal_data_alloc_count_overflows :
  ∃ out, gal_data_alloc (Sample.generous lp64) GAL_DATA_TYPE_UCHAR
           2 [4294967296; 4294967297] false false = Ok out
         ∧ Forall (λ d, 0 < d) [4294967296; 4294967297]
         ∧ size out = 4294967296
         ∧ product [4294967296; 4294967297] = 18446744078004518912
         ∧ size out ≠ product [4294967296; 4294967297].
Proof.
  destruct (gal_data_alloc_granted (Sample.generous lp64)
              GAL_DATA_TYPE_UCHAR [4294967296; 4294967297] false false)
    as [out Hout].
  - apply generous_holds_record.
  - rewrite !elem_of_cons, elem_of_nil. lia.
  - by apply generous_grants.
  - exists out. split; [done|].
    apply gal_data_alloc_returns in Hout as (_ & _ & _ & _ & -> & _).
    split_and!; [repeat constructor|reflexivity..|by vm_compute].
Qed.

(** [gal_data_free] *)

Lemma gal_data_free_never_unmaps (d : gal_data_t) (p : pointer) :
  munmap p ∉ gal_data_free d.
Proof.
  unfold gal_data_free. rewrite !elem_of_app.
  destruct (wcs d), (mmapped d);
    rewrite ?elem_of_cons, ?elem_of_nil; intuition congruence.
Qed.

Lemma gal_data_free_mapped (d : gal_data_t) :
  mmapped d = true →
  remove (mmapname d) ∈ gal_data_free d
  ∧ free P_mmapname ∈ gal_data_free d
  ∧ free P_array ∉ gal_data_free d.
Proof.
  intros Hm. unfold gal_data_free. rewrite Hm, !elem_of_app.
  destruct (wcs d); rewrite ?elem_of_cons, ?elem_of_nil;
    intuition congruence.
Qed.

Lemma gal_data_free_heap (d : gal_data_t) :
  mmapped d = false →
  free P_array ∈ gal_data_free d
  ∧ ∀ name, remove name ∉ gal_data_free d.
Proof.
  intros Hm. unfold gal_data_free. rewrite Hm. split.
  - rewrite !elem_of_app, !elem_of_cons. tauto.
  - intros name. rewrite !elem_of_app.
    destruct (wcs d); rewrite ?elem_of_cons, ?elem_of_nil;
      intuition congruence.
Qed.

(** C5.  Freeing the mapped array [Sample.mapped_image] makes these four
    calls and no other: the backing file is removed and the name is
    freed, but the buffer is never unmapped. *)
Theorem gal_data_free_mapped_keeps_mapping :
  let d := Sample.mapped_image in
  gal_data_free d
  = [free P_dsize; remove (Some "./.gnuastro/mmap_a1B2c3");
     free P_mmapname; free P_data]
  ∧ munmap P_array ∉ gal_data_free d.
Proof.
  intros d. split; [reflexivity|]. apply gal_data_free_never_unmaps.
Qed.


(** [gal_data_copy_to_new_type] *)

Lemma copy_to_new_type_alloc (X : externals) (h : host)
    (input : gal_data_t) (newtype : gal_type)
    (r : gal_data_t * gal_data_t) :
  gal_data_copy_to_new_type X h input newtype = Ok r →
  ∃ out, gal_data_alloc h newtype (ndim input) (dsize input) false
           (mmapped input) = Ok out
         ∧ changetype_out_is X newtype input out = Ok r.
Proof.
  unfold gal_data_copy_to_new_type.
  destruct (gal_data_alloc _ _ _ _ _ _) as [out| |]; simpl; [|done..].
  intros Hr. exists out. split; [done|]. by destruct newtype.
Qed.

Lemma copy_to_new_type_returns (X : externals) (h : host)
    (input input' out : gal_data_t) (newtype : gal_type) :
  fills_out_only X → shaped input →
  gal_data_copy_to_new_type X h input newtype = Ok (input', out) →
  ndim out = ndim input ∧ dsize out = dsize input
  ∧ type out = newtype ∧ mmapped out = mmapped input
  ∧ anyblank out = false ∧ wcs out = None
  ∧ input' = input.
Proof.
  intros HX Hs (out0 & Ha & Hc)%copy_to_new_type_alloc.
  apply HX in Hc as [-> ->]. rewrite <- Hs in Ha.
  apply gal_data_alloc_returns in Ha as (_ & ? & ? & ? & _ & ? & ? & ?).
  simpl. split_and!; congruence.
Qed.

(** C7.  When the conversion routines fill the buffer of the output and
    touch nothing else, every call of [gal_data_copy_to_new_type] that
    returns leaves the input as it was and returns a record with the
    number of dimensions, the extents and the backend of the input, the
    requested type, [anyblank] false and no [wcs], whatever those of the
    input are; and for a numeric destination type the call does return
    when no extent is zero, the host grants the record and the buffer
    and the routine accepts the input. *)
Theorem gal_data_copy_to_new_type_fresh (X : externals) (h : host)
    (input : gal_data_t) (newtype : gal_type) :
  fills_out_only X → shaped input →
  numeric_target newtype = true →
  (∀ input' out,
     gal_data_copy_to_new_type X h input newtype = Ok (input', out) →
     ndim out = ndim input ∧ dsize out = dsize input
     ∧ type out = newtype ∧ mmapped out = mmapped input
     ∧ anyblank out = false ∧ wcs out = None
     ∧ input' = input)
  ∧ ((0 ∉ dsize input) →
     holds_record h (ndim input) →
     grants h newtype (count (plat h) (dsize input)) false (mmapped input) →
     accepts X newtype input →
     ∃ out, gal_data_copy_to_new_type X h input newtype = Ok (input, out)).
Proof.
  intros HX Hs Ht. split.
  - intros input' out. by apply copy_to_new_type_returns.
  - intros Hnz Hrec Hg Hacc. rewrite <- Hs in Hrec.
    destruct (gal_data_alloc_granted h newtype (dsize input) false
                (mmapped input) Hrec Hnz Hg) as [out0 Ha].
    rewrite Hs in Ha. destruct (Hacc out0) as [[input' out] Hr].
    assert (gal_data_copy_to_new_type X h input newtype = Ok (input', out))
      as Hcopy.
    { unfold gal_data_copy_to_new_type. rewrite Ha. simpl.
      by destruct newtype. }
    exists out. rewrite Hcopy.
    by apply copy_to_new_type_returns in Hcopy as (_ & _ & _ & _ & _ & _ & ->).
Qed.

Lemma routines_fill_out_only : fills_out_only Sample.routines.
Proof.
  intros t input out input' out'. simpl.
  destruct (Sample.convert_all _); simpl; [|done..]. by intros [= <- <-].
Qed.

Lemma gal_data_copy_to_new_type_fresh_witness :
  let input := Sample.vector GAL_DATA_TYPE_INT [Eint 7; Eint 0; Eint (-1)] in
  ∃ out, gal_data_copy_to_new_type Sample.routines (Sample.generous lp64)
           input GAL_DATA_TYPE_FLOAT = Ok (input, out)
         ∧ type out = GAL_DATA_TYPE_FLOAT ∧ dsize out = [3]
         ∧ anyblank out = false ∧ wcs out = None.
Proof.
  intros input.
  destruct (gal_data_copy_to_new_type_fresh Sample.routines
              (Sample.generous lp64) input GAL_DATA_TYPE_FLOAT)
    as [Hret Hruns].
  - apply routines_fill_out_only.
  - reflexivity.
  - reflexivity.
  - destruct Hruns as [out Hout].
    + simpl. rewrite elem_of_cons, elem_of_nil. lia.
    + apply generous_holds_record.
    + by apply generous_grants.
    + intros out. simpl. eauto.
    + exists out. split; [exact Hout|].
      destruct (Hret input out Hout) as (_ & Hd & Ht & _ & Hb & Hw & _).
      by split_and!.
Defined.

(** [gal_data_apply_mask] *)

Lemma floats_lookup (mpt : list elem) (i : nat) :
  floats mpt → (i < length mpt)%nat → ∃ m, mpt !! i = Some (Eflt m).
Proof.
  intros Hf Hi. destruct (lookup_lt_is_Some_2 mpt i Hi) as [x Hx].
  destruct (proj1 (Forall_lookup _ _) Hf i x Hx) as [m ->]. eauto.
Qed.

Lemma mask_scan_at (mpt : list elem) (i : nat) (hb : bool) :
  floats mpt → (i < length mpt)%nat →
  mask_scan mpt (i, hb) = Ok (S i, masked mpt i || hb).
Proof.
  intros Hf Hi. destruct (floats_lookup mpt i Hf Hi) as [m Hm].
  unfold mask_scan, load_float, load, masked. simpl. rewrite Hm. simpl.
  by destruct (Flt.ne m Flt.zero).
Qed.

Lemma do_while_mask_scan (mpt : list elem) (n k : nat) :
  floats mpt → (n ≤ length mpt)%nat →
  ∀ i hb fuel, (i + S k = n)%nat → (k < fuel)%nat →
    do_while fuel (mask_scan mpt) (before (Z.of_nat n)) (i, hb)
    = Some (Ok (n, existsb (masked mpt) (seq i (S k)) || hb)).
Proof.
  intros Hf Hn. induction k as [|k IH]; intros i hb fuel Hi Hfuel.
  - destruct fuel as [|fuel]; [lia|].
    rewrite (do_while_last _ _ _ (S i, masked mpt i || hb)).
    + simpl. rewrite orb_false_r. do 3 f_equal. lia.
    + apply mask_scan_at; [done|lia].
    + apply bool_decide_eq_false. simpl. lia.
  - destruct fuel as [|fuel]; [lia|].
    rewrite (do_while_step _ _ _ (S i, masked mpt i || hb)).
    + rewrite IH by lia. do 3 f_equal.
      change (seq i (S (S k))) with (i :: seq (S i) (S k)).
      simpl. by destruct (masked mpt i), (masked mpt (S i)), hb;
        rewrite ?orb_true_r.
    + apply mask_scan_at; [done|lia].
    + apply bool_decide_eq_true. simpl. lia.
Qed.

Lemma any_masked_true (mpt : list elem) (n : nat) :
  any_masked mpt n = true ↔ ∃ i, (i < n)%nat ∧ masked mpt i = true.
Proof.
  unfold any_masked. rewrite existsb_exists. split.
  - intros (i & Hi%in_seq & Hm). exists i. split; [lia|done].
  - intros (i & Hi & Hm). exists i. split; [|done]. apply in_seq. lia.
Qed.

(** The bodies of the second loop write, at each index, an element that
    depends on the mask and on the element found there. *)
Lemma mask_write_at (blank : elem) (mpt a : list elem) (i : nat) (x : elem) :
  floats mpt → (i < length mpt)%nat → a !! i = Some x →
  mask_write blank mpt (i, a)
  = Ok (S i, <[i:=if masked mpt i then blank else x]> a).
Proof.
  intros Hf Hi Hx. destruct (floats_lookup mpt i Hf Hi) as [m Hm].
  unfold mask_write, load_float, load, store, masked, Flt.ne.
  simpl. rewrite Hm. simpl.
  pose proof (lookup_lt_Some _ _ _ Hx) as Hlt.
  unfold Flt.eq. destruct (SFeqb m Flt.zero); simpl; rewrite ?Hx; simpl;
    by case_decide.
Qed.

Lemma mask_write_complex_at (blank : spec_float) (mpt a : list elem)
    (i : nat) (x : elem) :
  floats mpt → (i < length mpt)%nat → a !! i = Some x →
  mask_write_complex blank mpt (i, a)
  = Ok (S i, <[i:=if masked mpt i then x else Ecpx blank blank]> a).
Proof.
  intros Hf Hi Hx. destruct (floats_lookup mpt i Hf Hi) as [m Hm].
  unfold mask_write_complex, load_float, load, store, masked, Flt.ne.
  simpl. rewrite Hm. simpl.
  pose proof (lookup_lt_Some _ _ _ Hx) as Hlt.
  unfold Flt.eq. destruct (SFeqb m Flt.zero); simpl.
  - by case_decide.
  - by rewrite list_insert_id.
Qed.

Lemma mask_switch_at (B : blank_values) (t : gal_type) (mpt : list elem) :
  in_catalog t = true → floats mpt →
  ∃ body, mask_switch B t mpt = Ok body
          ∧ ∀ i a x, (i < length mpt)%nat → a !! i = Some x →
              body (i, a) = Ok (S i, <[i:=left_by B t mpt i x]> a).
Proof.
  intros Hc Hf. unfold left_by.
  destruct t; try done; simpl; eexists; (split; [reflexivity|]);
    intros i a x Hi Hx;
    by (apply mask_write_at || apply mask_write_complex_at).
Qed.

(** [gal_data_apply_mask] on records of one shape, once the mask is a
    buffer of [float]s. *)
Lemma gal_data_apply_mask_returns (B : blank_values) (X : externals)
    (h : host) (fuel : nat) (input mask converted : gal_data_t) :
  shaped input → shaped mask →
  ndim input = ndim mask → dsize input = dsize mask →
  mask_as_float X h mask = Ok converted →
  floats (array converted) →
  length (array converted) = length (array input) →
  size input = Z.of_nat (length (array input)) →
  (1 ≤ length (array input) ≤ fuel)%nat →
  in_catalog (type input) = true →
  gal_data_apply_mask B X h fuel input mask
  = Some (Returned
      (if any_masked (array converted) (length (array input))
       then set_array (set_anyblank input true)
              (imap (left_by B (type input) (array converted))
                 (array input))
       else input)).
Proof.
  intros Hsi Hsm Hnd Hds Hconv Hfl Hlen Hsize Hn Hcat.
  unfold gal_data_apply_mask. case_decide; [done|].
  rewrite (proj2 (dsize_is_different_0 input mask Hsi Hsm)) by done.
  case_decide; [done|]. rewrite Hconv, Hsize.
  rewrite (do_while_mask_scan (array converted) (length (array input))
             (length (array input) - 1) Hfl ltac:(lia) 0%nat false fuel
             ltac:(lia) ltac:(lia)).
  rewrite orb_false_r.
  replace (S (length (array input) - 1)) with (length (array input)) by lia.
  fold (any_masked (array converted) (length (array input))).
  destruct (any_masked _ _); [|done].
  destruct (mask_switch_at B (type input) (array converted) Hcat Hfl)
    as (body & -> & Hbody).
  rewrite (do_while_pointwise body
             (left_by B (type input) (array converted))); [done| |lia..].
  intros i a x Hi _ Hx. apply Hbody; [lia|done].
Qed.

(** On the scalar kinds the masked elements, and only they, become the
    blank of the kind. *)
Lemma gal_data_apply_mask_scalar (B : blank_values) (X : externals)
    (h : host) (fuel : nat) (input mask converted : gal_data_t) :
  shaped input → shaped mask →
  ndim input = ndim mask → dsize input = dsize mask →
  mask_as_float X h mask = Ok converted →
  floats (array converted) →
  length (array converted) = length (array input) →
  size input = Z.of_nat (length (array input)) →
  (1 ≤ length (array input) ≤ fuel)%nat →
  scalar (type input) = true →
  ∃ input',
    gal_data_apply_mask B X h fuel input mask = Some (Returned input')
    ∧ (∀ i x, array input !! i = Some x →
         array input' !! i
         = Some (if masked (array converted) i
                 then sentinel B (type input) else x))
    ∧ anyblank input'
      = any_masked (array converted) (length (array input))
        || anyblank input
    ∧ (any_masked (array converted) (length (array input)) = false →
       input' = input).
Proof.
  intros Hsi Hsm Hnd Hds Hconv Hfl Hlen Hsize Hn Hsc.
  assert (in_catalog (type input) = true) as Hcat.
  { unfold scalar in Hsc. by apply andb_true_iff in Hsc as [-> _]. }
  eexists. split.
  { by apply (gal_data_apply_mask_returns _ _ _ _ _ _ converted). }
  destruct (any_masked _ _) eqn:Hany; simpl.
  - split_and!; [|done..]. intros i x Hx.
    rewrite list_lookup_imap, Hx. simpl. unfold left_by. by rewrite Hsc.
  - split_and!; [|done..]. intros i x Hx. rewrite Hx.
    destruct (masked (array converted) i) eqn:Hm; [|done].
    assert (any_masked (array converted) (length (array input)) = true)
      as Habs; [|congruence].
    apply any_masked_true. exists i. split; [|done].
    by eapply lookup_lt_Some.
Qed.

(** On the two complex kinds, once some element of the mask is not zero,
    the elements whose mask is zero become the blank and the masked ones
    stay. *)
Lemma gal_data_apply_mask_complex (B : blank_values) (X : externals)
    (h : host) (fuel : nat) (input mask converted : gal_data_t) :
  shaped input → shaped mask →
  ndim input = ndim mask → dsize input = dsize mask →
  mask_as_float X h mask = Ok converted →
  floats (array converted) →
  length (array converted) = length (array input) →
  size input = Z.of_nat (length (array input)) →
  (1 ≤ length (array input) ≤ fuel)%nat →
  type input = GAL_DATA_TYPE_COMPLEX ∨ type input = GAL_DATA_TYPE_DCOMPLEX →
  any_masked (array converted) (length (array input)) = true →
  ∃ input',
    gal_data_apply_mask B X h fuel input mask = Some (Returned input')
    ∧ ∀ i x, array input !! i = Some x →
        array input' !! i
        = Some (if masked (array converted) i
                then x else sentinel B (type input)).
Proof.
  intros Hsi Hsm Hnd Hds Hconv Hfl Hlen Hsize Hn Ht Hany.
  assert (in_catalog (type input) = true ∧ scalar (type input) = false)
    as [Hcat Hsc] by (by destruct Ht as [Ht|Ht]; rewrite Ht).
  eexists. split.
  { by apply (gal_data_apply_mask_returns _ _ _ _ _ _ converted). }
  rewrite Hany. simpl. intros i x Hx.
  rewrite list_lookup_imap, Hx. simpl. unfold left_by. by rewrite Hsc.
Qed.

(** C1.  On a target of the single precision complex type with the mask
    [0, 1], [gal_data_apply_mask] writes the blank over the first
    element, whose mask is zero, and leaves the second, whose mask is not
    zero, as it was. *)
Theorem gal_data_apply_mask_complex_inverted :
  let one := Sample.float_of_Z 1 in
  let two := Sample.float_of_Z 2 in
  let target := Sample.vector GAL_DATA_TYPE_COMPLEX
                  [Ecpx one two; Ecpx two one] in
  let mask := Sample.vector GAL_DATA_TYPE_FLOAT
                [Eflt Flt.zero; Eflt one] in
  gal_data_apply_mask Sample.blanks Sample.routines
    (Sample.generous lp64) 2 target mask
  = Some (Returned
      (set_array (set_anyblank target true)
         [Ecpx Flt.NAN Flt.NAN; Ecpx two one])).
Proof. reflexivity. Qed.

(** [gal_data_blank_to_value] *)

Lemma replace_step_stays (test : elem → res bool) (v x : elem)
    (i : nat) (a : list elem) :
  a !! i = Some x → test x = Ok false → replace_step test v (i, a) = Ok (i, a).
Proof.
  intros Hx Ht. unfold replace_step, load. simpl. rewrite Hx. simpl.
  by rewrite Ht.
Qed.

Lemma replace_loop_hangs (test : elem → res bool) (v x : elem) (w S : Z)
    (i : nat) (a : list elem) :
  a !! i = Some x → test x = Ok false → Z.of_nat i * w < S →
  ∀ fuel, do_while fuel (replace_step test v) (before_byte w S) (i, a) = None.
Proof.
  intros Hx Ht Hi. apply do_while_stuck.
  - by apply (replace_step_stays _ _ x).
  - by apply bool_decide_eq_true.
Qed.

(** C2.  On the array of one [unsigned char] of value 5, which is not
    the blank, [gal_data_blank_to_value] never ends: whatever the fuel,
    the loop is still running when it is used up. *)
Theorem gal_data_blank_to_value_hangs (fuel : nat) :
  gal_data_blank_to_value Sample.blanks lp64 fuel
    (Sample.vector GAL_DATA_TYPE_UCHAR [Eint 5]) (Eint 0)
  = None.
Proof.
  unfold gal_data_blank_to_value. simpl.
  by rewrite (replace_loop_hangs _ _ (Eint 5)).
Qed.

Lemma gal_data_blank_to_value_stops_at_byte_count :
  gal_data_blank_to_value Sample.blanks lp64 3
    (Sample.vector GAL_DATA_TYPE_FLOAT [Eflt Flt.NAN; Eflt Flt.NAN])
    (Eflt Flt.zero)
  = Some (Ok (Sample.vector GAL_DATA_TYPE_FLOAT
                [Eflt Flt.zero; Eflt Flt.NAN])).
Proof. reflexivity. Qed.

End DataFacts.

(** ** lib/data.c: further properties *)

Module DataMore.
Import Data Spec Terms DataFacts.

(** *** gal_data_alloc_blank *)

Lemma alloc_blank_returns (B : blank_values) (h : host) (t : gal_type)
    (b : elem) :
  gal_data_alloc_blank B h t = Ok b → in_catalog t = true ∧ b = sentinel B t.
Proof.
  unfold gal_data_alloc_blank.
  destruct (gal_data_malloc_array h t 1); simpl; [|done..].
  destruct t; simpl; try done; by intros [= <-].
Qed.

(** X1.  [gal_data_alloc_blank] never returns for the bit type or for a
    value that names no type; whenever it returns, the element it has
    written is the blank of the type; and it does return it when the
    type is of the catalog and the host grants a block of one element. *)
Theorem gal_data_alloc_blank_sentinel (B : blank_values) (h : host)
    (t : gal_type) :
  (in_catalog t = false → ∀ b, gal_data_alloc_blank B h t ≠ Ok b)
  ∧ (∀ b, gal_data_alloc_blank B h t = Ok b → b = sentinel B t)
  ∧ (grants h t 1 false false →
     gal_data_alloc_blank B h t = Ok (sentinel B t)).
Proof.
  split_and!.
  - intros Hc b Hb. apply alloc_blank_returns in Hb as [Hin _]. congruence.
  - intros b Hb. by apply alloc_blank_returns in Hb as [_ ->].
  - intros Hg. destruct (alloc_array_granted h t 1 false Hg) as [a Ha].
    unfold gal_data_alloc_blank. simpl in Ha. rewrite Ha. simpl.
    destruct Hg as (Hc & _). by destruct t.
Qed.

Lemma gal_data_alloc_blank_sentinel_witness :
  gal_data_alloc_blank Sample.blanks (Sample.generous lp64)
    GAL_DATA_TYPE_USHORT
  = Ok (Eint 65535).
Proof.
  apply (gal_data_alloc_blank_sentinel Sample.blanks (Sample.generous lp64)
           GAL_DATA_TYPE_USHORT).
  by apply generous_grants.
Defined.

(** *** gal_data_blank_to_value *)

Lemma replace_step_blank (test : elem → res bool) (v x : elem) (i : nat)
    (a : list elem) :
  a !! i = Some x → test x = Ok true →
  replace_step test v (i, a) = Ok (S i, <[i:=v]> a).
Proof.
  intros Hx Ht. pose proof (lookup_lt_Some _ _ _ Hx) as Hlt.
  unfold replace_step, load, store. simpl. rewrite Hx. simpl. rewrite Ht.
  simpl. by case_decide.
Qed.

Lemma replace_step_complex_at (test : elem → res bool) (v x : elem)
    (b : bool) (i : nat) (a : list elem) :
  a !! i = Some x → test x = Ok b →
  replace_step_complex test v (i, a)
  = Ok (S i, <[i:=if b then v else x]> a).
Proof.
  intros Hx Ht. pose proof (lookup_lt_Some _ _ _ Hx) as Hlt.
  unfold replace_step_complex, load, store. simpl. rewrite Hx. simpl.
  rewrite Ht. simpl. destruct b; simpl.
  - by case_decide.
  - by rewrite list_insert_id.
Qed.

Lemma sized_lp64 : sized lp64.
Proof. unfold sized. simpl. lia. Qed.

Lemma step_width_positive (p : platform) (t : gal_type) :
  sized p → 0 < step_width p t.
Proof.
  intros (Hs & Hi & Hl & HL & Hp & Hf & Hd).
  destruct t; simpl; unfold sizeof_gsl_complex_float, sizeof_gsl_complex;
    lia.
Qed.

Lemma reached_bounds (w n : Z) :
  0 < w → 0 < n →
  (1 ≤ reached w n)%nat
  ∧ Z.of_nat (reached w n) ≤ n
  ∧ (∀ i, (i < reached w n)%nat → Z.of_nat i * w < n)
  ∧ ¬ Z.of_nat (reached w n) * w < n.
Proof.
  intros Hw Hn. unfold reached.
  pose proof (Z.mul_div_le (n - 1) w Hw) as Hlo.
  pose proof (Z.mul_succ_div_gt (n - 1) w Hw) as Hhi.
  assert (0 ≤ (n - 1) / w) as Hq by (apply Z.div_pos; lia).
  split_and!.
  - lia.
  - rewrite Z2Nat.id by lia. nia.
  - intros i Hi. nia.
  - rewrite Z2Nat.id by lia. nia.
Qed.

(** The switch of [gal_data_blank_to_value], for a type of the catalog:
    one loop, with the test, the value and the width of the case. *)
Lemma blank_to_value_loop (B : blank_values) (p : platform) (fuel : nat)
    (data : gal_data_t) (value : elem) :
  in_catalog (type data) = true →
  gal_data_blank_to_value B p fuel data value
  = r ← do_while fuel
          (if scalar (type data)
           then replace_step (blank_test B (type data))
                  (written (type data) value)
           else replace_step_complex (blank_test B (type data)) value)
          (before_byte (step_width p (type data)) (size data))
          (O, array data);
    Some (s ← r; Ok (set_array data s.2)).
Proof.
  intros Hc. unfold gal_data_blank_to_value. by destruct (type data).
Qed.

Lemma blank_test_sentinel (B : blank_values) (t : gal_type) :
  in_catalog t = true → blank_test B t (sentinel B t) = Ok true.
Proof.
  intros Hc. destruct t; try done; simpl; by rewrite bool_decide_eq_true_2.
Qed.

Lemma blank_test_other (B : blank_values) (t : gal_type) (x : elem) :
  scalar t = true → of_kind t x = true → x ≠ sentinel B t →
  blank_test B t x = Ok false.
Proof.
  intros Hs Hk Hx.
  destruct t; try done; destruct x as [n|f|re im]; try done; simpl in *.
  all: try (rewrite bool_decide_eq_false_2; [done|congruence]).
  all: by destruct f.
Qed.

Lemma blank_test_complex (B : blank_values) (t : gal_type) (x v : elem) :
  t = GAL_DATA_TYPE_COMPLEX ∨ t = GAL_DATA_TYPE_DCOMPLEX →
  of_kind t x = true →
  ∃ b, blank_test B t x = Ok b
       ∧ (if b then v else x) = unblanked_complex v x.
Proof.
  intros [-> | ->] Hk; destruct x as [n|f|re im]; try done; simpl;
    eexists; (split; [reflexivity|]); by destruct (_ && _).
Qed.

(** The loop of a scalar case that meets a first element that is not
    blank stays on it. *)
Lemma replace_loop_hangs_from (test : elem → res bool) (v x : elem)
    (w n : Z) (l : list elem) (k : nat) :
  l !! k = Some x → test x = Ok false →
  (∀ j y, (j < k)%nat → l !! j = Some y → test y = Ok true) →
  Z.of_nat k * w < n → 0 < w →
  ∀ d i a, (i + d = k)%nat → partly (λ _ _, v) l i a →
    ∀ fuel,
      do_while fuel (replace_step test v) (before_byte w n) (i, a) = None.
Proof.
  intros Hx Ht Hblank Hk Hw. induction d as [|d IH]; intros i a Hi Hp fuel.
  - assert (i = k) as -> by lia.
    apply (replace_loop_hangs _ _ x); [|done..].
    destruct Hp as [_ ->]. case_decide; [lia|done].
  - destruct fuel as [|fuel]; [done|].
    destruct (lookup_lt_is_Some_2 l i) as [y Hy].
    { apply lookup_lt_Some in Hx. lia. }
    assert (a !! i = Some y) as Ha.
    { destruct Hp as [_ ->]. case_decide; [lia|done]. }
    rewrite (do_while_step _ _ _ (S i, <[i:=v]> a)).
    + apply IH; [lia|]. by apply (partly_next (λ _ _, v) l i a y).
    + apply (replace_step_blank _ _ y); [done|]. apply (Hblank i); [lia|done].
    + apply bool_decide_eq_true. simpl. nia.
Qed.

(** The loop of a scalar case over an array whose elements within
    reach of the end pointer all pass the test. *)
Lemma replace_loop_run (test : elem → res bool) (v : elem) (w n : Z)
    (l : list elem) (fuel : nat) :
  0 < w → n = Z.of_nat (length l) → (1 ≤ length l)%nat →
  (∀ i x, (i < reached w n)%nat → l !! i = Some x → test x = Ok true) →
  (reached w n ≤ fuel)%nat →
  do_while fuel (replace_step test v) (before_byte w n) (O, l)
  = Some (Ok (reached w n,
              imap (λ i x, if decide (i < reached w n)%nat then v else x)
                l)).
Proof.
  intros Hw Hsize Hn Hblank Hfuel.
  destruct (reached_bounds w n) as (Hm1 & Hmn & Hin & Hout); [done|lia|].
  apply (do_while_prefix _ _ (λ _ _, v) l (reached w n)); [| | |lia|done].
  - intros i a x Hi Hl Ha. apply (replace_step_blank _ _ x); [done|].
    by apply (Hblank i).
  - intros i a Hi. apply bool_decide_eq_true. simpl. apply Hin. lia.
  - intros a. by apply bool_decide_eq_false.
Qed.

(** X2.  The blank that [gal_data_alloc_blank] makes for a type is found
    by [gal_data_blank_to_value] in an array of that type that holds it
    alone: the call returns after one turn with the replacement value in
    its place (as read through an [int32_t] pointer for the [long]
    type). *)
Theorem blank_then_replace_round_trip (B : blank_values) (h : host)
    (p : platform) (t : gal_type) (blank value : elem) (fuel : nat) :
  sized p →
  gal_data_alloc_blank B h t = Ok blank →
  gal_data_blank_to_value B p (S fuel) (Sample.vector t [blank]) value
  = Some (Ok (Sample.vector t [written t value])).
Proof.
  intros (Hs & Hi & Hl & HL & Hp & Hf & Hd) Hb.
  apply alloc_blank_returns in Hb as [Hc ->].
  unfold gal_data_blank_to_value, Sample.vector.
  destruct t; try done;
    cbn -[do_while replace_step replace_step_complex before_byte read_int32].
  all: erewrite do_while_last;
    [
    |first [ eapply replace_step_blank;
               [reflexivity|simpl; by rewrite ?bool_decide_eq_true_2]
           | by eapply (replace_step_complex_at _ _ _ true) ]
    |apply bool_decide_eq_false; simpl;
     unfold sizeof_gsl_complex_float, sizeof_gsl_complex; lia].
  all: reflexivity.
Qed.

Lemma blank_then_replace_round_trip_witness :
  gal_data_blank_to_value Sample.blanks lp64 1
    (Sample.vector GAL_DATA_TYPE_INT [Eint (-2147483648)]) (Eint 7)
  = Some (Ok (Sample.vector GAL_DATA_TYPE_INT [Eint 7])).
Proof.
  apply (blank_then_replace_round_trip Sample.blanks (Sample.generous lp64)
           lp64 GAL_DATA_TYPE_INT (Eint (-2147483648)) (Eint 7) 0).
  - apply sized_lp64.
  - reflexivity.
Defined.

(** X3.  For a type of one number (or address) per element, an array of
    [size] elements, at least one, whose first [ceil (size / width)]
    elements are all blank: [gal_data_blank_to_value] returns, these
    elements hold the replacement value and every later element is as it
    was, blank or not.  The end pointer of each case is [size] bytes, not
    [size] elements, after the start. *)
Theorem gal_data_blank_to_value_replaces_reached (B : blank_values)
    (p : platform) (fuel : nat) (data : gal_data_t) (value : elem) :
  scalar (type data) = true → sized p →
  size data = Z.of_nat (length (array data)) →
  (1 ≤ length (array data))%nat →
  (∀ i x, (i < reached (step_width p (type data)) (size data))%nat →
     array data !! i = Some x → x = sentinel B (type data)) →
  (reached (step_width p (type data)) (size data) ≤ fuel)%nat →
  gal_data_blank_to_value B p fuel data value
  = Some (Ok (set_array data
                (imap (λ i x,
                         if decide (i < reached (step_width p (type data))
                                          (size data))%nat
                         then written (type data) value else x)
                   (array data)))).
Proof.
  intros Hs Hp Hsize Hn Hblank Hfuel.
  assert (in_catalog (type data) = true) as Hc.
  { unfold scalar in Hs. by apply andb_true_iff in Hs as [-> _]. }
  rewrite blank_to_value_loop by done. rewrite Hs.
  rewrite replace_loop_run;
    [done|by apply step_width_positive|done|done| |done].
  intros i x Hi Hx. rewrite (Hblank i x Hi Hx).
  by apply blank_test_sentinel.
Qed.

Lemma gal_data_blank_to_value_replaces_reached_witness :
  gal_data_blank_to_value Sample.blanks lp64 2
    (Sample.vector GAL_DATA_TYPE_USHORT
       [Eint 65535; Eint 65535; Eint 7; Eint 65535])
    (Eint 0)
  = Some (Ok (Sample.vector GAL_DATA_TYPE_USHORT
                [Eint 0; Eint 0; Eint 7; Eint 65535])).
Proof.
  apply (gal_data_blank_to_value_replaces_reached Sample.blanks lp64 2
           (Sample.vector GAL_DATA_TYPE_USHORT
              [Eint 65535; Eint 65535; Eint 7; Eint 65535])
           (Eint 0)).
  - reflexivity.
  - apply sized_lp64.
  - reflexivity.
  - simpl. lia.
  - intros [|[|i]] x Hi; simpl; [congruence..|].
    vm_compute in Hi. lia.
  - vm_compute. lia.
Defined.

(** X4.  For a type of one number (or address) per element, an array
    with an element that is not the blank among the first
    [ceil (size / width)], all elements before it being blank:
    [gal_data_blank_to_value] never returns, whatever the fuel.  The
    pointer advances only where it finds a blank. *)
Theorem gal_data_blank_to_value_stuck_at_first_other (B : blank_values)
    (p : platform) (data : gal_data_t) (value : elem) (k : nat)
    (x : elem) :
  scalar (type data) = true → sized p →
  size data = Z.of_nat (length (array data)) →
  (k < reached (step_width p (type data)) (size data))%nat →
  array data !! k = Some x →
  of_kind (type data) x = true → x ≠ sentinel B (type data) →
  (∀ j y, (j < k)%nat → array data !! j = Some y →
     y = sentinel B (type data)) →
  ∀ fuel, gal_data_blank_to_value B p fuel data value = None.
Proof.
  intros Hs Hp Hsize Hk Hx Hkind Hne Hblank fuel.
  assert (in_catalog (type data) = true) as Hc.
  { unfold scalar in Hs. by apply andb_true_iff in Hs as [-> _]. }
  pose proof (lookup_lt_Some _ _ _ Hx) as Hlen.
  destruct (reached_bounds (step_width p (type data)) (size data))
    as (Hm1 & Hmn & Hin & Hout);
    [by apply step_width_positive|lia|].
  rewrite blank_to_value_loop by done. rewrite Hs.
  rewrite (replace_loop_hangs_from (blank_test B (type data))
             (written (type data) value) x
             (step_width p (type data)) (size data) (array data) k Hx
             (blank_test_other B (type data) x Hs Hkind Hne)) with (d := k);
    [done| | | | |].
  - intros j y Hj Hy. rewrite (Hblank j y Hj Hy).
    by apply blank_test_sentinel.
  - by apply Hin.
  - by apply step_width_positive.
  - done.
  - apply partly_start.
Qed.

Lemma gal_data_blank_to_value_stuck_at_first_other_witness :
  gal_data_blank_to_value Sample.blanks lp64 1000
    (Sample.vector GAL_DATA_TYPE_UCHAR [Eint 255; Eint 5; Eint 255])
    (Eint 0)
  = None.
Proof.
  apply (gal_data_blank_to_value_stuck_at_first_other Sample.blanks lp64
           (Sample.vector GAL_DATA_TYPE_UCHAR [Eint 255; Eint 5; Eint 255])
           (Eint 0) 1 (Eint 5)).
  - reflexivity.
  - apply sized_lp64.
  - reflexivity.
  - vm_compute. lia.
  - reflexivity.
  - reflexivity.
  - discriminate.
  - intros [|j] y Hj; simpl; [congruence|lia].
Defined.

(** C6.  For an array of [float]s or of [double]s, of [size] elements, at
    least one: the blank of the type is a NaN, which does not equal
    itself, and [gal_data_blank_to_value] finds it nonetheless: when the
    elements within reach of the end pointer are all set to the blank,
    the call returns and each of them holds the replacement value.  The
    test is [isnan] and nothing else: an element within reach that is not
    a NaN, the elements before it being blanks, is not replaced (the loop
    stays on it, whatever the fuel). *)
Theorem float_blank_found_by_isnan (B : blank_values) (p : platform)
    (fuel : nat) (data : gal_data_t) (value : elem) :
  type data = GAL_DATA_TYPE_FLOAT ∨ type data = GAL_DATA_TYPE_DOUBLE →
  sized p →
  size data = Z.of_nat (length (array data)) →
  (1 ≤ length (array data))%nat →
  (reached (step_width p (type data)) (size data) ≤ fuel)%nat →
  sentinel B (type data) = Eflt Flt.NAN
  ∧ Flt.eq Flt.NAN Flt.NAN = false
  ∧ ((∀ i x, (i < reached (step_width p (type data)) (size data))%nat →
        array data !! i = Some x → x = sentinel B (type data)) →
     gal_data_blank_to_value B p fuel data value
     = Some (Ok (set_array data
                   (imap (λ i x,
                            if decide
                                 (i < reached (step_width p (type data))
                                        (size data))%nat
                            then value else x)
                      (array data)))))
  ∧ (∀ k f,
       (k < reached (step_width p (type data)) (size data))%nat →
       array data !! k = Some (Eflt f) → Flt.isnan f = false →
       (∀ j y, (j < k)%nat → array data !! j = Some y →
          y = sentinel B (type data)) →
       ∀ fuel', gal_data_blank_to_value B p fuel' data value = None).
Proof.
  intros Ht Hp Hsize Hn Hfuel.
  assert (in_catalog (type data) = true ∧ scalar (type data) = true
          ∧ written (type data) value = value
          ∧ sentinel B (type data) = Eflt Flt.NAN) as (Hc & Hs & Hv & Hb)
    by (by destruct Ht as [-> | ->]).
  split_and!; [done|done| |].
  - intros Hblank. rewrite blank_to_value_loop by done. rewrite Hs, Hv.
    rewrite replace_loop_run;
      [done|by apply step_width_positive|done|done| |done].
    intros i x Hi Hx. rewrite (Hblank i x Hi Hx).
    by apply blank_test_sentinel.
  - intros k f Hk Hx Hnan Hblank fuel'.
    pose proof (lookup_lt_Some _ _ _ Hx) as Hlen.
    destruct (reached_bounds (step_width p (type data)) (size data))
      as (Hm1 & Hmn & Hin & Hout);
      [by apply step_width_positive|lia|].
    assert (blank_test B (type data) (Eflt f) = Ok false) as Htest.
    { apply blank_test_other; [done| |].
      - by destruct Ht as [-> | ->].
      - rewrite Hb. intros [= ->]. done. }
    rewrite blank_to_value_loop by done. rewrite Hs.
    rewrite (replace_loop_hangs_from (blank_test B (type data))
               (written (type data) value) (Eflt f)
               (step_width p (type data)) (size data) (array data) k Hx
               Htest) with (d := k);
      [done| | | | |].
    + intros j y Hj Hy. rewrite (Hblank j y Hj Hy).
      by apply blank_test_sentinel.
    + by apply Hin.
    + by apply step_width_positive.
    + done.
    + apply partly_start.
Qed.

Lemma float_blank_found_by_isnan_witness :
  gal_data_blank_to_value Sample.blanks lp64 1
    (Sample.vector GAL_DATA_TYPE_DOUBLE [Eflt GAL_DATA_BLANK_DOUBLE])
    (Eflt Flt.one)
  = Some (Ok (Sample.vector GAL_DATA_TYPE_DOUBLE [Eflt Flt.one])).
Proof.
  destruct (float_blank_found_by_isnan Sample.blanks lp64 1
              (Sample.vector GAL_DATA_TYPE_DOUBLE
                 [Eflt GAL_DATA_BLANK_DOUBLE])
              (Eflt Flt.one)) as (_ & _ & Hfound & _).
  - by right.
  - apply sized_lp64.
  - reflexivity.
  - simpl. lia.
  - vm_compute. lia.
  - apply Hfound.
    intros [|i] x Hi; simpl; [congruence|]. vm_compute in Hi. lia.
Defined.

(** X5.  For the two complex types, with an array of [size] elements, at
    least one, [gal_data_blank_to_value] returns for every content: of
    the first [ceil (size / width)] elements those whose two parts are
    NaNs hold the replacement value, every other element is as it was.
    The loops of these two cases advance in their condition. *)
Theorem gal_data_blank_to_value_complex (B : blank_values) (p : platform)
    (fuel : nat) (data : gal_data_t) (value : elem) :
  type data = GAL_DATA_TYPE_COMPLEX ∨ type data = GAL_DATA_TYPE_DCOMPLEX →
  sized p →
  size data = Z.of_nat (length (array data)) →
  (1 ≤ length (array data))%nat →
  Forall (λ x, of_kind (type data) x = true) (array data) →
  (reached (step_width p (type data)) (size data) ≤ fuel)%nat →
  gal_data_blank_to_value B p fuel data value
  = Some (Ok (set_array data
                (imap (λ i x,
                         if decide (i < reached (step_width p (type data))
                                          (size data))%nat
                         then unblanked_complex value x else x)
                   (array data)))).
Proof.
  intros Ht Hp Hsize Hn Hkind Hfuel.
  assert (in_catalog (type data) = true ∧ scalar (type data) = false)
    as [Hc Hs] by (by destruct Ht as [-> | ->]).
  destruct (reached_bounds (step_width p (type data)) (size data))
    as (Hm1 & Hmn & Hin & Hout);
    [by apply step_width_positive|lia|].
  rewrite blank_to_value_loop by done. rewrite Hs.
  rewrite (do_while_prefix _ _ (λ _ x, unblanked_complex value x)
             (array data)
             (reached (step_width p (type data)) (size data)));
    [done| | | |lia|done].
  - intros i a x Hi Hl Ha.
    destruct (blank_test_complex B (type data) x value Ht) as (b & Hb & <-).
    { by apply (proj1 (Forall_lookup _ _) Hkind i x). }
    by apply replace_step_complex_at.
  - intros i a Hi. apply bool_decide_eq_true. simpl. apply Hin. lia.
  - intros a. by apply bool_decide_eq_false.
Qed.

Lemma gal_data_blank_to_value_complex_witness :
  gal_data_blank_to_value Sample.blanks lp64 1
    (Sample.vector GAL_DATA_TYPE_COMPLEX
       [Ecpx Flt.NAN Flt.NAN; Ecpx Flt.NAN Flt.NAN])
    (Ecpx Flt.zero Flt.one)
  = Some (Ok (Sample.vector GAL_DATA_TYPE_COMPLEX
                [Ecpx Flt.zero Flt.one; Ecpx Flt.NAN Flt.NAN])).
Proof.
  apply (gal_data_blank_to_value_complex Sample.blanks lp64 1
           (Sample.vector GAL_DATA_TYPE_COMPLEX
              [Ecpx Flt.NAN Flt.NAN; Ecpx Flt.NAN Flt.NAN])
           (Ecpx Flt.zero Flt.one)).
  - by left.
  - apply sized_lp64.
  - reflexivity.
  - simpl. lia.
  - by repeat constructor.
  - vm_compute. lia.
Defined.

Lemma read_int32_fits (n : Z) :
  read_int32 (Eint n) = Eint n ↔ fits_int32 n.
Proof.
  unfold read_int32, fits_int32. split.
  - intros [= Hn]. pose proof (Z.mod_pos_bound (n + 2 ^ 31) (2 ^ 32)). lia.
  - intros Hn. f_equal. rewrite Z.mod_small; lia.
Qed.

(** X6.  For the [long] type the replacement value is read through an
    [int32_t] pointer: where [gal_data_blank_to_value] returns, the first
    element holds the low 32 bits of the value, as a signed number, and
    it holds the value itself exactly when the value fits 32 bits. *)
Theorem long_replacement_read_as_int32 (B : blank_values) (p : platform)
    (fuel : nat) (data : gal_data_t) (n : Z) :
  type data = GAL_DATA_TYPE_LONG → sized p →
  size data = Z.of_nat (length (array data)) →
  (1 ≤ length (array data))%nat →
  (∀ i x, (i < reached (sizeof_long p) (size data))%nat →
     array data !! i = Some x → x = Eint (GAL_DATA_BLANK_LONG B)) →
  (reached (sizeof_long p) (size data) ≤ fuel)%nat →
  ∃ d,
    gal_data_blank_to_value B p fuel data (Eint n) = Some (Ok d)
    ∧ array d !! 0%nat = Some (Eint ((n + 2 ^ 31) mod 2 ^ 32 - 2 ^ 31))
    ∧ (array d !! 0%nat = Some (Eint n) ↔ fits_int32 n).
Proof.
  intros Ht Hp Hsize Hn Hblank Hfuel.
  rewrite blank_to_value_loop by (by rewrite Ht). rewrite Ht. simpl.
  rewrite replace_loop_run; [|apply Hp|done|done| |done].
  - eexists. split; [reflexivity|]. simpl.
    destruct (reached_bounds (sizeof_long p) (size data))
      as (Hm1 & _); [apply Hp|lia|].
    destruct (array data) as [|x l] eqn:Ha; [simpl in Hn; lia|]. simpl.
    rewrite decide_True by lia. split; [done|].
    rewrite <- read_int32_fits. simpl. split; congruence.
  - intros i x Hi Hx. rewrite (Hblank i x Hi Hx). simpl.
    by rewrite bool_decide_eq_true_2.
Qed.

Lemma long_replacement_read_as_int32_witness :
  ∃ d,
    gal_data_blank_to_value Sample.blanks lp64 1
      (Sample.vector GAL_DATA_TYPE_LONG [Eint (-2147483648)])
      (Eint 4294967301)
    = Some (Ok d)
    ∧ array d !! 0%nat = Some (Eint 5).
Proof.
  destruct (long_replacement_read_as_int32 Sample.blanks lp64 1
              (Sample.vector GAL_DATA_TYPE_LONG [Eint (-2147483648)])
              4294967301) as (d & Hd & H0 & _).
  - reflexivity.
  - apply sized_lp64.
  - reflexivity.
  - simpl. lia.
  - intros [|i] x Hi; simpl; [congruence|]. vm_compute in Hi. lia.
  - vm_compute. lia.
  - exists d. split; [exact Hd|exact H0].
Defined.

(** *** gal_data_apply_mask *)

Lemma store_length {A : Type} (l l' : list A) (i : nat) (x : A) :
  store l i x = Ok l' → length l' = length l.
Proof.
  unfold store. case_decide; [|done]. intros [= <-].
  by rewrite length_insert.
Qed.

Lemma mask_write_length (blank : elem) (mpt : list elem)
    (s s' : nat * list elem) :
  mask_write blank mpt s = Ok s' → length s'.2 = length s.2.
Proof.
  unfold mask_write. destruct (load_float mpt s.1); simpl; [|done..].
  destruct (if Flt.eq a Flt.zero then load s.2 s.1 else Ok blank);
    simpl; [|done..].
  destruct (store s.2 s.1 a0) eqn:Hst; simpl; [|done..].
  intros [= <-]. by apply store_length in Hst.
Qed.

Lemma mask_write_complex_length (blank : spec_float) (mpt : list elem)
    (s s' : nat * list elem) :
  mask_write_complex blank mpt s = Ok s' → length s'.2 = length s.2.
Proof.
  unfold mask_write_complex. destruct (load_float mpt s.1); simpl; [|done..].
  destruct (Flt.eq a Flt.zero).
  - destruct (store s.2 s.1 _) eqn:Hst; simpl; [|done..].
    intros [= <-]. by apply store_length in Hst.
  - simpl. by intros [= <-].
Qed.

Lemma mask_switch_length (B : blank_values) (t : gal_type)
    (mpt : list elem) (body : nat * list elem → res (nat * list elem)) :
  mask_switch B t mpt = Ok body →
  ∀ s s', body s = Ok s' → length s'.2 = length s.2.
Proof.
  intros Hb s s'.
  destruct t; simpl in Hb; try done; injection Hb as <-;
    first [apply mask_write_length | apply mask_write_complex_length].
Qed.

Lemma kept_refl (input : gal_data_t) : kept input input.
Proof. by unfold kept. Qed.

(** X7.  Whatever the target, the mask, the routines, the host and the
    fuel, a call of [gal_data_apply_mask] that ends, by returning or by a
    fatal error, leaves the target with its type, its shape, its size,
    its mapping, its coordinates and its number of elements; its flag of
    blanks, once set, stays set. *)
Theorem gal_data_apply_mask_frame (B : blank_values) (X : externals)
    (h : host) (fuel : nat) (input mask : gal_data_t) (o : outcome) :
  gal_data_apply_mask B X h fuel input mask = Some o →
  match o with
  | Returned d | Exited _ d => kept input d
  | Crashed => True
  end.
Proof.
  unfold gal_data_apply_mask.
  case_decide; [intros [= <-]; apply kept_refl|].
  destruct (gal_data_dsize_is_different input mask);
    [|intros [= <-]; apply kept_refl|by intros [= <-]].
  case_decide; [intros [= <-]; apply kept_refl|].
  destruct (mask_as_float X h mask) as [converted| |];
    [|intros [= <-]; apply kept_refl|by intros [= <-]].
  destruct (do_while fuel (mask_scan _) _ _) as [[[m hb]| |]|];
    [|intros [= <-]; apply kept_refl|by intros [= <-]|done].
  destruct hb; [|intros [= <-]; apply kept_refl].
  assert (kept input (set_anyblank input true)) as Hk by done.
  destruct (mask_switch B (type input) (array converted)) as [body| |] eqn:Hsw;
    [|by intros [= <-]|by intros [= <-]].
  destruct (do_while fuel body _ _) as [[[i arr]| |]|] eqn:Hloop;
    [|by intros [= <-]|by intros [= <-]|done].
  intros [= <-].
  pose proof (do_while_invariant body _
                (λ s, length s.2 = length (array input))
                ltac:(intros s s' Hs Hb; simpl;
                      by rewrite (mask_switch_length _ _ _ _ Hsw s s' Hb))
                fuel (O, array input) (i, arr) eq_refl Hloop) as Hlen.
  by unfold kept.
Qed.

Lemma gal_data_apply_mask_frame_witness :
  let target := Sample.vector GAL_DATA_TYPE_UCHAR [Eint 1; Eint 2] in
  let mask := Sample.vector GAL_DATA_TYPE_FLOAT
                [Eflt Flt.zero; Eflt Flt.one] in
  kept target (set_array (set_anyblank target true) [Eint 1; Eint 255]).
Proof.
  intros target mask.
  exact (gal_data_apply_mask_frame Sample.blanks Sample.routines
           (Sample.generous lp64) 2 target mask (Returned _) eq_refl).
Defined.

Lemma left_by_idempotent (B : blank_values) (t : gal_type)
    (mpt : list elem) (i : nat) (x : elem) :
  left_by B t mpt i (left_by B t mpt i x) = left_by B t mpt i x.
Proof. unfold left_by. by destruct (scalar t), (masked mpt i). Qed.

(** X8.  Under the conditions in which [gal_data_apply_mask] returns
    (matching shapes, a mask that converts to as many [float]s as the
    target has elements, enough fuel), masking the result again with the
    same mask changes nothing: the second call returns the record that
    the first returned.  This holds for the complex types too, whose test
    is the inverse of that of the other types. *)
Theorem gal_data_apply_mask_idempotent (B : blank_values) (X : externals)
    (h : host) (fuel : nat) (input mask converted : gal_data_t) :
  shaped input → shaped mask →
  ndim input = ndim mask → dsize input = dsize mask →
  mask_as_float X h mask = Ok converted →
  floats (array converted) →
  length (array converted) = length (array input) →
  size input = Z.of_nat (length (array input)) →
  (1 ≤ length (array input) ≤ fuel)%nat →
  in_catalog (type input) = true →
  ∃ d,
    gal_data_apply_mask B X h fuel input mask = Some (Returned d)
    ∧ gal_data_apply_mask B X h fuel d mask = Some (Returned d).
Proof.
  intros Hsi Hsm Hn Hd Hc Hf Hl Hsz Hfuel Hcat.
  rewrite (gal_data_apply_mask_returns B X h fuel input mask converted)
    by done.
  eexists. split; [done|].
  destruct (any_masked (array converted) (length (array input))) eqn:Hany.
  - set (d := set_array (set_anyblank input true) _).
    assert (length (array d) = length (array input)) as Hlen
      by (simpl; by rewrite length_imap).
    rewrite (gal_data_apply_mask_returns B X h fuel d mask converted);
      rewrite ?Hlen; try done.
    rewrite Hany. f_equal. f_equal. unfold d, set_array, set_anyblank. simpl.
    f_equal. apply list_eq. intros i. rewrite !list_lookup_imap.
    destruct (array input !! i); simpl; [|done].
    by rewrite left_by_idempotent.
  - rewrite (gal_data_apply_mask_returns B X h fuel input mask converted)
      by done.
    by rewrite Hany.
Qed.
Lemma gal_data_apply_mask_idempotent_witness :
  let target := Sample.vector GAL_DATA_TYPE_UCHAR [Eint 1; Eint 2] in
  let mask := Sample.vector GAL_DATA_TYPE_FLOAT
                [Eflt Flt.zero; Eflt Flt.one] in
  ∃ d,
    gal_data_apply_mask Sample.blanks Sample.routines (Sample.generous lp64)
      2 target mask = Some (Returned d)
    ∧ gal_data_apply_mask Sample.blanks Sample.routines
        (Sample.generous lp64) 2 d mask = Some (Returned d).
Proof.
  intros target mask.
  apply (gal_data_apply_mask_idempotent Sample.blanks Sample.routines
           (Sample.generous lp64) 2 target mask mask); try reflexivity.
  - repeat constructor; by eexists.
  - simpl. lia.
Defined.

(** *** gal_data_alloc *)

(** The loop of [gal_data_alloc] reads the [n] extents from [i] on and
    no other. *)
Lemma dsize_fill_take (p : platform) (block : bool) (ds : list Z)
    (n : nat) :
  ∀ i acc, (i + n ≤ length ds)%nat →
    dsize_fill p block ds i n acc
    = dsize_fill p block (take (i + n) ds) i n acc.
Proof.
  induction n as [|n IH]; intros i acc Hlen; [done|].
  simpl. unfold load. rewrite lookup_take_lt by lia.
  destruct (ds !! i) as [d|]; simpl; [|done].
  case_decide; [done|]. destruct block; [|done].
  rewrite IH by lia. by replace (S i + n)%nat with (i + S n)%nat by lia.
Qed.

Lemma dsize_fill_beyond (p : platform) (block : bool) (ds : list Z)
    (n : nat) :
  ∀ i acc, (i ≤ length ds < i + n)%nat → 0 ∉ ds →
    dsize_fill p block ds i n acc = Undefined.
Proof.
  induction n as [|n IH]; intros i acc Hlen H0; [lia|].
  simpl. unfold load.
  destruct (ds !! i) as [d|] eqn:Hd; simpl; [|done].
  case_decide as Hz.
  - subst d. destruct H0. by eapply list_elem_of_lookup_2.
  - destruct block; [|done].
    apply IH; [|done]. apply lookup_lt_Some in Hd. lia.
Qed.

(** X9.  [gal_data_alloc] reads the first [ndim] extents of the list it
    is given and no other: with a longer list the call is the call on
    its first [ndim] entries, so that a zero among the others is not
    refused; with a shorter list that holds no zero, once the record is
    allocated, the loop reads past the end of the list (or writes
    through a null block before it gets there). *)
Theorem gal_data_alloc_reads_ndim_extents (h : host) (t : gal_type)
    (n : nat) (ds : list Z) (clear map : bool) :
  ((n ≤ length ds)%nat →
   gal_data_alloc h t n ds clear map
   = gal_data_alloc h t n (take n ds) clear map)
  ∧ ((length ds < n)%nat → 0 ∉ ds → heap_record h = true →
     gal_data_alloc h t n ds clear map = Undefined).
Proof.
  split.
  - intros Hn. unfold gal_data_alloc.
    by rewrite (dsize_fill_take _ _ ds n 0 _ Hn).
  - intros Hn H0 Hrec. unfold gal_data_alloc. rewrite Hrec. simpl.
    rewrite dsize_fill_beyond; [done|lia|done].
Qed.

Lemma gal_data_alloc_reads_ndim_extents_witness :
  gal_data_alloc (Sample.generous lp64) GAL_DATA_TYPE_FLOAT 1 [3; 0]
    true false
  = gal_data_alloc (Sample.generous lp64) GAL_DATA_TYPE_FLOAT 1 [3]
      true false.
Proof.
  apply (gal_data_alloc_reads_ndim_extents (Sample.generous lp64)
           GAL_DATA_TYPE_FLOAT 1 [3; 0] true false).
  simpl. lia.
Defined.

Lemma sizeof_returns (p : platform) (t : gal_type) (w : Z) :
  gal_data_sizeof p t = Ok w →
  in_catalog t = true ∧ ¬ width_assumption_broken p t ∧ w = width p t.
Proof.
  intros Hw.
  assert (in_catalog t = true) as Hc.
  { destruct (in_catalog t) eqn:E; [done|].
    apply (sizeof_unsupported p) in E. congruence. }
  assert (¬ width_assumption_broken p t) as Hb.
  { intros Hb. apply (sizeof_guard p) in Hb. congruence. }
  split_and!; [done..|].
  rewrite (sizeof_width p t Hc Hb) in Hw. congruence.
Qed.

Lemma gal_data_mmap_returns (h : host) (d d' : gal_data_t) :
  gal_data_mmap h d = Ok d' →
  grants h (type d) (size d) false true
  ∧ d' = {| array := zeros (type d) (size d); type := type d;
            ndim := ndim d; dsize := dsize d; size := size d;
            mmapped := true;
            mmapname := fs_mkstemp h "./.gnuastro/mmap_XXXXXX";
            anyblank := anyblank d; wcs := wcs d |}.
Proof.
  unfold gal_data_mmap, grants.
  destruct (gal_data_sizeof (plat h) (type d)) as [w| |] eqn:Hw; [|done..].
  apply sizeof_returns in Hw as (Hc & Hb & ->). simpl.
  unfold gal_checkset_mkdir.
  destruct (fs_mkdir h ".gnuastro"); [|done]. simpl.
  destruct (fs_mkstemp h _) as [f|]; [|done].
  destruct (fs_lseek h f _) eqn:Hl; [|done].
  destruct (fs_write h f) eqn:Hwr; [|done].
  destruct (fs_close h f) eqn:Hcl; [|done]. simpl.
  intros [= <-]. split; [|done].
  split_and!; [done..|]. by exists f.
Qed.

Lemma alloc_array_returns (h : host) (t : gal_type) (n : Z) (clear : bool)
    (a : list elem) :
  (if clear then gal_data_calloc_array h t n
   else gal_data_malloc_array h t n) = Ok a →
  grants h t n clear false
  ∧ a = if clear then zeros t n else heap_garbage h t n.
Proof.
  unfold gal_data_calloc_array, gal_data_malloc_array, grants.
  destruct clear;
    (destruct (gal_data_sizeof (plat h) t) as [w| |] eqn:Hw; [|done..]);
    apply sizeof_returns in Hw as (Hc & Hb & ->); simpl.
  - destruct (heap_calloc h n _) eqn:Hh; [|done]. by intros [= <-].
  - destruct (heap_malloc h _) eqn:Hh; [|done]. by intros [= <-].
Qed.

(** The record that [gal_data_alloc] returns. *)
Lemma gal_data_alloc_record (h : host) (t : gal_type) (ds : list Z)
    (clear map : bool) (out : gal_data_t) :
  gal_data_alloc h t (length ds) ds clear map = Ok out →
  holds_record h (length ds)
  ∧ (0 ∉ ds)
  ∧ grants h t (count (plat h) ds) clear map
  ∧ out = {| array := if map || clear then zeros t (count (plat h) ds)
                      else heap_garbage h t (count (plat h) ds);
             type := t; ndim := length ds; dsize := ds;
             size := count (plat h) ds; mmapped := map;
             mmapname := if map
                         then fs_mkstemp h "./.gnuastro/mmap_XXXXXX"
                         else None;
             anyblank := false; wcs := None |}.
Proof.
  unfold gal_data_alloc.
  destruct (heap_record h) eqn:Hrec; simpl; [|done].
  destruct (dsize_fill _ _ _ _ _ _) as [r| |] eqn:Hfill; simpl; [|done..].
  apply dsize_fill_returns in Hfill as (Hout & -> & Hblock).
  assert (holds_record h (length ds)) as Hheld.
  { split; [done|]. destruct Hblock as [Hb | ->]; [by right|by left]. }
  destruct map.
  - intros Hm. apply gal_data_mmap_returns in Hm as [Hg ->]. simpl in *.
    split_and!; [done|done|exact Hg|done].
  - destruct (if clear then _ else _) as [a| |] eqn:Ha; [|done..]. simpl.
    intros [= <-]. apply alloc_array_returns in Ha as [Hg ->].
    split_and!; [done..|]. by destruct clear.
Qed.

(** X10.  [gal_data_alloc], called with as many extents as dimensions,
    returns exactly when the host grants the record and, if there is a
    dimension, the block of the extents, no extent is zero, and the host
    grants the buffer: the type is of the catalog, the width check of
    the floating point types passes, and the allocation (or each step of
    the mapping) succeeds for the count that the multiplication in
    [size_t] gives. *)
Theorem gal_data_alloc_returns_iff (h : host) (t : gal_type) (ds : list Z)
    (clear map : bool) :
  (∃ out, gal_data_alloc h t (length ds) ds clear map = Ok out)
  ↔ holds_record h (length ds) ∧ (0 ∉ ds)
    ∧ grants h t (count (plat h) ds) clear map.
Proof.
  split.
  - intros [out Ho].
    by apply gal_data_alloc_record in Ho as (? & ? & ? & _).
  - intros (Hr & H0 & Hg). by apply gal_data_alloc_granted.
Qed.

Lemma gal_data_alloc_returns_iff_witness :
  ∃ out,
    gal_data_alloc (Sample.generous lp64) GAL_DATA_TYPE_FLOAT 2 [3; 4]
      true false = Ok out.
Proof.
  apply (gal_data_alloc_returns_iff (Sample.generous lp64)
           GAL_DATA_TYPE_FLOAT [3; 4] true false).
  split_and!.
  - apply generous_holds_record.
  - rewrite !elem_of_cons, elem_of_nil. lia.
  - by apply generous_grants.
Defined.

(** What follows the loop of [gal_data_alloc]: the mapping or the
    allocation of the buffer never reads outside a buffer, and each of
    its errors has one cause. *)
Lemma alloc_buffer_errors (h : host) (t : gal_type) (n : nat)
    (ds : list Z) (sz : Z) (clear map : bool) :
  let out := {| array := []; type := t; ndim := n; dsize := ds;
                size := sz; mmapped := false; mmapname := None;
                anyblank := false; wcs := None |} in
  let call :=
    if map then gal_data_mmap h out
    else a ← (if clear then gal_data_calloc_array h t sz
              else gal_data_malloc_array h t sz);
         Ok {| array := a; type := t; ndim := n; dsize := ds;
               size := sz; mmapped := false; mmapname := None;
               anyblank := false; wcs := None |} in
  call ≠ Undefined
  ∧ ∀ e, call = Exit e →
      match e with
      | UnsupportedKind => in_catalog t = false
      | PlatformAssumptionViolated => width_assumption_broken (plat h) t
      | OutOfMemory => map = false
      | StorageBackendFailure => map = true
      | _ => False
      end.
Proof.
  intros out call. unfold call, out.
  unfold gal_data_mmap, gal_data_calloc_array, gal_data_malloc_array,
    gal_checkset_mkdir. simpl.
  destruct (gal_data_sizeof (plat h) t) as [w| |] eqn:Hw.
  - simpl. destruct map.
    + destruct (fs_mkdir h _); simpl; [|split; [done|by intros e [= <-]]].
      destruct (fs_mkstemp h _) as [f|]; [|split; [done|by intros e [= <-]]].
      destruct (fs_lseek h f _); simpl; [|split; [done|by intros e [= <-]]].
      destruct (fs_write h f); simpl; [|split; [done|by intros e [= <-]]].
      destruct (fs_close h f); simpl; [|split; [done|by intros e [= <-]]].
      done.
    + destruct clear; simpl.
      * destruct (heap_calloc h _ _); simpl; [done|].
        split; [done|by intros e [= <-]].
      * destruct (heap_malloc h _); simpl; [done|].
        split; [done|by intros e [= <-]].
  - assert (e = UnsupportedKind ∧ in_catalog t = false
            ∨ e = PlatformAssumptionViolated
              ∧ width_assumption_broken (plat h) t) as He.
    { destruct e; try (by destruct t; simpl in Hw; repeat case_decide).
      - left. split; [done|]. exact (proj1 (sizeof_unsupported _ _) Hw).
      - right. split; [done|]. exact (proj1 (sizeof_guard _ _) Hw). }
    destruct map, clear; simpl; (split; [done|]); intros e' [= <-];
      by destruct He as [[-> ?] | [-> ?]].
  - by destruct t; simpl in Hw; repeat case_decide.
Qed.

(** X11.  The ways in which [gal_data_alloc], called with as many
    extents as dimensions, does not return.  A record that the host
    refuses ends the process at once, before the extents are looked at
    and with or without mapping.  The call writes through a null pointer
    exactly when the record is granted, the block of the extents is not,
    and the first extent is not zero.  Of the fatal errors, the shape
    error is that of a zero extent; the two errors of the type are those
    of [gal_data_sizeof] and memory exhaustion without mapping or a
    failure of the storage with it are those of the buffer, all four
    raised only once the record is held and no extent is zero; no other
    error is raised. *)
Theorem gal_data_alloc_errors (h : host) (t : gal_type) (ds : list Z)
    (clear map : bool) :
  (heap_record h = false →
   gal_data_alloc h t (length ds) ds clear map = Exit OutOfMemory)
  ∧ (gal_data_alloc h t (length ds) ds clear map = Undefined
     ↔ heap_record h = true ∧ ¬ holds_record h (length ds)
       ∧ ∃ d rest, ds = d :: rest ∧ d ≠ 0)
  ∧ ∀ e, gal_data_alloc h t (length ds) ds clear map = Exit e →
      match e with
      | InvalidShape => heap_record h = true ∧ 0 ∈ ds
      | UnsupportedKind =>
          holds_record h (length ds) ∧ (0 ∉ ds) ∧ in_catalog t = false
      | PlatformAssumptionViolated =>
          holds_record h (length ds) ∧ (0 ∉ ds)
          ∧ width_assumption_broken (plat h) t
      | OutOfMemory =>
          heap_record h = false
          ∨ (holds_record h (length ds) ∧ (0 ∉ ds) ∧ map = false)
      | StorageBackendFailure =>
          holds_record h (length ds) ∧ (0 ∉ ds) ∧ map = true
      | _ => False
      end.
Proof.
  unfold gal_data_alloc.
  destruct (heap_record h) eqn:Hrec; simpl.
  2:{ split_and!; [done| |].
      - split; [done|]. by intros (? & _).
      - intros e [= <-]. by left. }
  split; [done|].
  destruct (heap_dsize h _) eqn:Hblock.
  - assert (holds_record h (length ds)) as Hheld by (split; [done|by right]).
    destruct (dsize_fill_whole (plat h) ds) as [Hz Hnz].
    destruct (decide (0 ∈ ds)) as [Hin|Hout].
    + rewrite (Hz Hin). simpl. split.
      * split; [done|]. by intros (_ & ? & _).
      * by intros e [= <-].
    + rewrite (Hnz Hout). simpl.
      destruct (alloc_buffer_errors h t (length ds) ds (count (plat h) ds)
                  clear map) as [Hu He].
      simpl in Hu, He. split.
      * split; [done|]. by intros (_ & ? & _).
      * intros e Hexit. specialize (He e Hexit).
        destruct e; try done; split_and?; try done. by right.
  - rewrite dsize_fill_null. destruct ds as [|d rest]; simpl.
    + assert (holds_record h 0) as Hheld by (split; [done|by left]).
      destruct (alloc_buffer_errors h t 0 [] 1 clear map) as [Hu He].
      simpl in Hu, He. split.
      * split; [done|]. by intros (_ & ? & _).
      * intros e Hexit. specialize (He e Hexit).
        assert (0 ∉ @nil Z) as Hout by (by intros ?%elem_of_nil).
        destruct e; try done; split_and?; try done. by right.
    + assert (¬ holds_record h (length (d :: rest))) as Hnot.
      { intros [_ [Hn | Hb]]; [done|]. by rewrite Hblock in Hb. }
      unfold load. simpl. case_decide as Hd.
      * split.
        -- split; [done|]. intros (_ & _ & d' & rest' & [= <- <-] & Hne).
           done.
        -- intros e [= <-]. split; [done|]. subst d. left.
      * split; [|done]. split; [|done]. intros _.
        split_and!; [done..|]. by exists d, rest.
Qed.

Lemma gal_data_alloc_errors_witness :
  gal_data_alloc
    {| plat := lp64; heap_record := true; heap_dsize := λ _, false;
       heap_malloc := λ _, true; heap_calloc := λ _ _, true;
       heap_garbage := zeros; fs_mkdir := λ _, true;
       fs_mkstemp := λ _, None; fs_lseek := λ _ _, true;
       fs_write := λ _, true; fs_close := λ _, true |}
    GAL_DATA_TYPE_UCHAR 1 [2] false false
  = Undefined.
Proof.
  apply (gal_data_alloc_errors
           {| plat := lp64; heap_record := true; heap_dsize := λ _, false;
              heap_malloc := λ _, true; heap_calloc := λ _ _, true;
              heap_garbage := zeros; fs_mkdir := λ _, true;
              fs_mkstemp := λ _, None; fs_lseek := λ _ _, true;
              fs_write := λ _, true; fs_close := λ _, true |}
           GAL_DATA_TYPE_UCHAR [2] false false).
  split_and!.
  - reflexivity.
  - intros [_ [Hn | Hb]]; discriminate.
  - by exists 2, [].
Defined.

(** X12.  What [gal_data_free] does with a record that [gal_data_alloc]
    has just returned: for a heap array it frees the extents, the buffer
    and the record; for a mapped array it frees the extents, removes the
    file that [mkstemp] named, frees the name and the record. *)
Theorem gal_data_alloc_then_free (h : host) (t : gal_type) (ds : list Z)
    (clear map : bool) (out : gal_data_t) :
  gal_data_alloc h t (length ds) ds clear map = Ok out →
  gal_data_free out
  = if map
    then [free P_dsize; remove (fs_mkstemp h "./.gnuastro/mmap_XXXXXX");
          free P_mmapname; free P_data]
    else [free P_dsize; free P_array; free P_data].
Proof.
  intros Ho. apply gal_data_alloc_record in Ho as (_ & _ & _ & ->).
  unfold gal_data_free. simpl. by destruct map.
Qed.

Lemma gal_data_alloc_then_free_witness :
  ∃ out,
    gal_data_alloc (Sample.generous lp64) GAL_DATA_TYPE_FLOAT 2 [2; 2]
      false true = Ok out
    ∧ gal_data_free out
      = [free P_dsize; remove (Some "./.gnuastro/mmap_a1B2c3"%string);
         free P_mmapname; free P_data].
Proof.
  eexists. split; [reflexivity|].
  apply (gal_data_alloc_then_free (Sample.generous lp64) GAL_DATA_TYPE_FLOAT
           [2; 2] false true).
  reflexivity.
Defined.

(** *** gal_data_copy_to_new_type, gal_data_dsize_is_different *)

(** X14.  [gal_data_copy_to_new_type] on an input with a zero extent,
    on a host that grants the record of the output, ends with the shape
    error for every destination type; and for a destination that is none
    of the eleven integer and floating point types (the bit, logical,
    string and complex types, and every value that names no type) it
    never returns: once the output has been allocated the call ends with
    the error of an unsupported type. *)
Theorem gal_data_copy_to_new_type_refuses (X : externals) (h : host)
    (input : gal_data_t) (newtype : gal_type) :
  shaped input →
  (0 ∈ dsize input → holds_record h (ndim input) →
   gal_data_copy_to_new_type X h input newtype = Exit InvalidShape)
  ∧ (numeric_target newtype = false →
     (∀ r, gal_data_copy_to_new_type X h input newtype ≠ Ok r)
     ∧ (0 ∉ dsize input → holds_record h (ndim input) →
        grants h newtype (count (plat h) (dsize input)) false
          (mmapped input) →
        gal_data_copy_to_new_type X h input newtype
        = Exit UnsupportedKind)).
Proof.
  intros Hs. unfold shaped in Hs. unfold gal_data_copy_to_new_type.
  rewrite <- Hs. split; [|intros Hn; split].
  - intros H0 Hrec. unfold gal_data_alloc. rewrite (proj1 Hrec). simpl.
    by rewrite (dsize_fill_zero h (dsize input) Hrec H0).
  - intros r.
    destruct (gal_data_alloc _ _ _ _ _ _); simpl; [|done..].
    by destruct newtype.
  - intros H0 Hrec Hg.
    destruct (gal_data_alloc_granted h newtype (dsize input) false
                (mmapped input) Hrec H0 Hg) as [out ->]. simpl.
    by destruct newtype.
Qed.

Lemma gal_data_copy_to_new_type_refuses_witness :
  gal_data_copy_to_new_type Sample.routines (Sample.generous lp64)
    (Sample.vector GAL_DATA_TYPE_FLOAT [Eflt Flt.one; Eflt Flt.zero])
    GAL_DATA_TYPE_COMPLEX
  = Exit UnsupportedKind.
Proof.
  apply (gal_data_copy_to_new_type_refuses Sample.routines
           (Sample.generous lp64)
           (Sample.vector GAL_DATA_TYPE_FLOAT [Eflt Flt.one; Eflt Flt.zero])
           GAL_DATA_TYPE_COMPLEX).
  - reflexivity.
  - reflexivity.
  - simpl. rewrite !elem_of_cons, elem_of_nil. lia.
  - apply generous_holds_record.
  - by apply generous_grants.
Defined.

(** X15.  On records whose list of extents has [ndim] entries, "the
    shapes do not differ" ([gal_data_dsize_is_different] returns 0) is an
    equivalence: it holds of a record and itself, in both directions, and
    through a third record. *)
Theorem shapes_match_equivalence (a b c : gal_data_t) :
  shaped a → shaped b → shaped c →
  shapesMatch a a
  ∧ (shapesMatch a b → shapesMatch b a)
  ∧ (shapesMatch a b → shapesMatch b c → shapesMatch a c).
Proof.
  intros Ha Hb Hc. unfold shapesMatch.
  rewrite !dsize_is_different_0 by done.
  intuition congruence.
Qed.
Lemma shapes_match_equivalence_witness :
  shapesMatch (Sample.vector GAL_DATA_TYPE_UCHAR [Eint 1; Eint 2])
    (Sample.vector GAL_DATA_TYPE_FLOAT [Eflt Flt.zero; Eflt Flt.one]).
Proof.
  destruct (shapes_match_equivalence
              (Sample.vector GAL_DATA_TYPE_FLOAT [Eflt Flt.zero; Eflt Flt.one])
              (Sample.vector GAL_DATA_TYPE_UCHAR [Eint 1; Eint 2])
              (Sample.vector GAL_DATA_TYPE_UCHAR [Eint 1; Eint 2]))
    as (_ & Hsym & _); [reflexivity..|].
  apply Hsym. reflexivity.
Defined.

End DataMore.

(** ** src/noisechisel/segmentation.c *)

Module SegmentationFacts.
Import Segmentation Spec.

Lemma nan_to_max_at (a : list spec_float) (i : nat) (x : spec_float) :
  a !! i = Some x → nan_to_max (i, a) = Ok (S i, <[i:=unblanked x]> a).
Proof.
  intros Hx. pose proof (lookup_lt_Some _ _ _ Hx) as Hlt.
  unfold nan_to_max, load, store, unblanked. simpl. rewrite Hx. simpl.
  destruct (Flt.isnan x); simpl.
  - by case_decide.
  - by rewrite list_insert_id.
Qed.

Lemma imap_const_fmap {A B : Type} (f : A → B) (l : list A) :
  imap (λ _, f) l = f <$> l.
Proof.
  apply list_eq. intros i. by rewrite list_lookup_imap, list_lookup_fmap.
Qed.

(** C10.  When the convolved image has [s0 * s1] pixels, at least one,
    and the fuel covers them, [segmentation] reaches [clumpsngrid] and the
    record it passes holds a convolved image of the same length in which,
    if [numblank] is not zero, every NaN has become [FLT_MAX] and every
    other pixel is as it was, and which, if [numblank] is zero, is the
    convolved image as it was. *)
Theorem segmentation_unblanks_conv (pl : Data.platform) (fuel : nat)
    (clumpsngrid : noisechiselparams → noisechiselparams)
    (p : noisechiselparams) :
  Data.to_size_t pl (s0 p * s1 p) = Z.of_nat (length (conv p)) →
  (1 ≤ length (conv p) ≤ fuel)%nat →
  ∃ steps p',
    segmentation pl fuel clumpsngrid p = Some (Ok (steps, clumpsngrid p'))
    ∧ length (conv p') = length (conv p)
    ∧ (numblank p ≠ 0 →
       ∀ i x, conv p !! i = Some x →
         conv p' !! i = Some (if Flt.isnan x then Flt.FLT_MAX else x))
    ∧ (numblank p = 0 → conv p' = conv p).
Proof.
  intros Hsize Hn. unfold segmentation. simpl.
  case_decide as Hb.
  - rewrite Hsize.
    rewrite (do_while_pointwise nan_to_max (λ _, unblanked) (conv p));
      [|by intros i a x _ _; apply nan_to_max_at|lia..].
    simpl. eexists _, _. split; [reflexivity|]. simpl.
    rewrite imap_const_fmap. split_and!.
    + by rewrite length_fmap.
    + intros _ i x Hx. by rewrite list_lookup_fmap, Hx.
    + done.
  - simpl. eexists _, _. split; [reflexivity|]. simpl. split_and!; done.
Qed.

Lemma segmentation_unblanks_conv_witness :
  ∃ steps p',
    segmentation Data.lp64 2 id
      {| s0 := 1; s1 := 2; img := [Flt.NAN; Flt.one];
         conv := [Flt.NAN; Flt.half]; olab := [0; 0]; numblank := 1;
         wcs := None; segmentationname := None; numclumps := 0;
         b0f1 := 1 |}
    = Some (Ok (steps, p'))
    ∧ conv p' = [Flt.FLT_MAX; Flt.half].
Proof.
  destruct (segmentation_unblanks_conv Data.lp64 2 id Sample.two_pixels)
    as (steps & p' & Hrun & Hlen & Hnan & _).
  - reflexivity.
  - simpl. lia.
  - exists steps, p'. split; [exact Hrun|].
    simpl in Hlen, Hnan.
    assert (numblank_ne : (1 ≠ 0)) by lia.
    pose proof (Hnan numblank_ne 0%nat Flt.NAN eq_refl) as H0.
    pose proof (Hnan numblank_ne 1%nat Flt.half eq_refl) as H1.
    destruct (conv p') as [|a [|b [|c l]]]; simpl in *; try lia.
    by injection H0 as ->; injection H1 as ->.
Defined.

End SegmentationFacts.

(** ** src/noisechisel/segmentation.c: further properties *)

Module SegmentationMore.
Import Segmentation Spec SegmentationFacts.

Lemma unblanked_not_nan (x : spec_float) : Flt.isnan (unblanked x) = false.
Proof. unfold unblanked. by destruct (Flt.isnan x) eqn:E. Qed.

(** The record that [segmentation] passes on, when the loop has run over
    the whole convolved image. *)
Lemma segmentation_runs (pl : Data.platform) (fuel : nat)
    (clumpsngrid : noisechiselparams → noisechiselparams)
    (p : noisechiselparams) :
  Data.to_size_t pl (s0 p * s1 p) = Z.of_nat (length (conv p)) →
  (1 ≤ length (conv p) ≤ fuel)%nat →
  ∃ steps,
    segmentation pl fuel clumpsngrid p
    = Some (Ok (steps,
                clumpsngrid
                  (set_b0f1
                     (set_conv (set_numclumps p 1)
                        (if decide (numblank p ≠ 0)
                         then unblanked <$> conv p else conv p)) 0))).
Proof.
  intros Hsize Hn. unfold segmentation. simpl.
  case_decide as Hb.
  - rewrite Hsize.
    rewrite (do_while_pointwise nan_to_max (λ _, unblanked) (conv p));
      [|by intros i a x _ _; apply nan_to_max_at|lia..].
    simpl. rewrite imap_const_fmap. by eexists.
  - simpl. by eexists.
Qed.

(** X16.  When blank pixels are counted ([numblank] is not zero) and
    the convolved image has [s0 * s1] pixels, at least one, the record
    that [segmentation] passes to [clumpsngrid] holds no NaN in its
    convolved image; [numclumps] is 1 and [b0f1] is 0 there, and the
    input image, the labels, the sizes, the count of blank pixels, the
    coordinates and the name of the steps file are as they were. *)
Theorem segmentation_passes_no_nan (pl : Data.platform) (fuel : nat)
    (clumpsngrid : noisechiselparams → noisechiselparams)
    (p : noisechiselparams) :
  Data.to_size_t pl (s0 p * s1 p) = Z.of_nat (length (conv p)) →
  (1 ≤ length (conv p) ≤ fuel)%nat →
  numblank p ≠ 0 →
  ∃ steps p',
    segmentation pl fuel clumpsngrid p = Some (Ok (steps, clumpsngrid p'))
    ∧ Forall (λ x, Flt.isnan x = false) (conv p')
    ∧ numclumps p' = 1 ∧ b0f1 p' = 0
    ∧ img p' = img p ∧ olab p' = olab p
    ∧ s0 p' = s0 p ∧ s1 p' = s1 p ∧ numblank p' = numblank p
    ∧ wcs p' = wcs p ∧ segmentationname p' = segmentationname p.
Proof.
  intros Hsize Hn Hb.
  destruct (segmentation_runs pl fuel clumpsngrid p Hsize Hn) as [steps ->].
  eexists _, _. split; [reflexivity|]. simpl. split_and!; try done.
  case_decide; [|done]. apply Forall_fmap, Forall_forall.
  intros x _. apply unblanked_not_nan.
Qed.

Lemma segmentation_passes_no_nan_witness :
  ∃ steps p',
    segmentation Data.lp64 2 id Sample.two_pixels = Some (Ok (steps, p'))
    ∧ Forall (λ x, Flt.isnan x = false) (conv p').
Proof.
  destruct (segmentation_passes_no_nan Data.lp64 2 id Sample.two_pixels)
    as (steps & p' & Hrun & Hnan & _).
  - reflexivity.
  - simpl. lia.
  - simpl. lia.
  - exists steps, p'. split; [exact Hrun|exact Hnan].
Defined.

(** X17.  The loop of [segmentation] is a [do ... while]: when blank
    pixels are counted and [s0 * s1] is 0 or 1, the first element of the
    buffer of the convolved image is read, and replaced if it is a NaN,
    before the size is looked at; the other elements stay, and with an
    empty buffer the read is outside it. *)
Theorem segmentation_visits_first_pixel (pl : Data.platform) (fuel : nat)
    (clumpsngrid : noisechiselparams → noisechiselparams)
    (p : noisechiselparams) :
  numblank p ≠ 0 →
  Data.to_size_t pl (s0 p * s1 p) ≤ 1 →
  (1 ≤ fuel)%nat →
  match conv p with
  | [] => segmentation pl fuel clumpsngrid p = Some Undefined
  | x :: rest =>
      ∃ steps p',
        segmentation pl fuel clumpsngrid p
        = Some (Ok (steps, clumpsngrid p'))
        ∧ conv p' = unblanked x :: rest
  end.
Proof.
  intros Hb Hsize Hfuel. unfold segmentation. simpl.
  case_decide; [|done].
  destruct fuel as [|fuel]; [lia|].
  destruct (conv p) as [|x rest] eqn:Hc.
  - done.
  - rewrite (do_while_last _ _ _ (1%nat, <[0%nat:=unblanked x]> (x :: rest))).
    + simpl. by eexists _, _.
    + by apply nan_to_max_at.
    + apply bool_decide_eq_false. simpl. lia.
Qed.
Lemma segmentation_visits_first_pixel_witness :
  ∃ steps p',
    segmentation Data.lp64 1 id Instances.no_pixels
    = Some (Ok (steps, p'))
    ∧ conv p' = [Flt.FLT_MAX; Flt.NAN].
Proof.
  destruct (segmentation_visits_first_pixel Data.lp64 1 id
              Instances.no_pixels) as (steps & p' & Hrun & Hconv).
  - simpl. lia.
  - vm_compute. discriminate.
  - lia.
  - exists steps, p'. split; [exact Hrun|exact Hconv].
Defined.

End SegmentationMore.

(** ** bin/statistics/ui.c *)

Module StatUIFacts.
Import StatUI Spec.

Lemma not_below_zero (x : spec_float) :
  Flt.le Flt.zero x = true → Flt.lt x Flt.zero = false.
Proof. by destruct x as [[]|[]| |[] m e]. Qed.

Lemma not_above_one (x : spec_float) :
  Flt.le x Flt.one = true → Flt.gt x Flt.one = false.
Proof.
  destruct x as [[]|[]| |[] m e]; try done.
  unfold Flt.le, Flt.gt, Flt.one, SFleb, SFltb, SFcompare.
  rewrite (Z.compare_antisym e (-52)).
  destruct (e ?= -52); unfold CompOpp; try done.
  pose proof (Pos.compare_cont_antisym m 4503599627370496 Eq) as Hanti.
  change (CompOpp Eq) with Eq in Hanti. rewrite <- Hanti.
  by destruct (Pos.compare_cont Eq m _).
Qed.

Lemma in_range (x : spec_float) : between_0_and_1 x → outside_0_1 x = false.
Proof.
  intros [H0 H1]. unfold outside_0_1.
  by rewrite (not_below_zero x H0), (not_above_one x H1).
Qed.

(** The upper quantile is never left outside the range: it starts as a
    NaN and a call that stores another value checks it before it
    returns. *)
Lemma quantmax_stays_in_range (ceil : spec_float → spec_float)
    (key : option_key) (minus1 : bool) (nums : list spec_float)
    (p p' : statisticsparams) (r : returned) :
  outside_0_1 (quantmax p) = false →
  ui_parse_numbers ceil key minus1 nums p = Done p' r →
  outside_0_1 (quantmax p') = false.
Proof.
  intros Hp. unfold ui_parse_numbers. destruct minus1.
  - destruct key; [by intros [= <- _]| |done].
    by destruct (Flt.isnan (quantmax p)); intros [= <- _].
  - destruct key as [| |other]; [| |done].
    + unfold case_sigmaclip, fatal_if.
      destruct (bool_decide (length nums ≠ 2%nat)); simpl; [done|].
      destruct (Flt.le (number nums 0) Flt.zero); simpl; [done|].
      destruct (Flt.le (number nums 1) Flt.zero); simpl; [done|].
      destruct (Flt.ge (number nums 1) Flt.one && _); simpl; [done|].
      by intros [= <- _].
    + unfold case_qrange, fatal_if.
      destruct (bool_decide (length nums ≠ 1%nat)
                && bool_decide (length nums ≠ 2%nat)); simpl; [done|].
      destruct (decide (length nums = 2%nat)); simpl.
      * fold (outside_0_1 (number nums 0)) (outside_0_1 (number nums 1)).
        destruct (outside_0_1 (number nums 0)); simpl; [done|].
        destruct (outside_0_1 (number nums 1)) eqn:Hout; simpl.
        -- by destruct (number nums 1).
        -- rewrite andb_false_r. simpl. by intros [= <- _].
      * fold (outside_0_1 (number nums 0)) (outside_0_1 (quantmax p)).
        rewrite Hp, andb_false_r.
        destruct (outside_0_1 (number nums 0)); simpl; [done|].
        by intros [= <- _].
Qed.

Lemma quantmax_starts_in_range : outside_0_1 (quantmax Sample.unset) = false.
Proof. reflexivity. Qed.

(** No run of the switch ends with the message of the check that
    follows the [break]. *)
Lemma case_qrange_never_over_half (nums : list spec_float)
    (p : statisticsparams) :
  case_qrange nums p ≠ Fail QrangeOneValueOverHalf.
Proof.
  unfold case_qrange, fatal_if. simpl.
  repeat (case_match; simpl; try done).
Qed.

Lemma case_sigmaclip_never_over_half (ceil : spec_float → spec_float)
    (nums : list spec_float) (p : statisticsparams) :
  case_sigmaclip ceil nums p ≠ Fail QrangeOneValueOverHalf.
Proof.
  unfold case_sigmaclip, fatal_if. simpl.
  repeat (case_match; simpl; try done).
Qed.

(** C3.  No call of [ui_parse_numbers] ends with the message of the check
    that follows the [break] of the quantile range case; and for one
    number [q] between 0 and 1, the upper quantile being as the calls
    leave it (unset, or not outside the range), the call returns with
    [quantmin] set to [q], also when [q] is above one half. *)
Theorem qrange_half_check_is_dead (ceil : spec_float → spec_float)
    (key : option_key) (minus1 : bool) (nums : list spec_float)
    (p0 p : statisticsparams) (q : spec_float) :
  between_0_and_1 q →
  outside_0_1 (quantmax p) = false →
  ui_parse_numbers ceil key minus1 nums p0 ≠ Failed QrangeOneValueOverHalf
  ∧ ui_parse_numbers ceil ARGS_OPTION_KEY_QRANGE false [q] p
    = Done (set_quantmin p q) NULL.
Proof.
  intros Hq Hmax. split.
  - unfold ui_parse_numbers. destruct minus1.
    + destruct key; [done|by destruct (Flt.isnan (quantmax p0))|done].
    + destruct key as [| |other].
      * pose proof (case_sigmaclip_never_over_half ceil nums p0).
        destruct (case_sigmaclip _ _ _); congruence.
      * pose proof (case_qrange_never_over_half nums p0).
        destruct (case_qrange _ _); congruence.
      * done.
  - unfold ui_parse_numbers, case_qrange, fatal_if. simpl.
    unfold number. simpl. fold (outside_0_1 q).
    fold (outside_0_1 (quantmax p)).
    by rewrite (in_range q Hq), Hmax, andb_false_r.
Qed.

Lemma qrange_half_check_is_dead_witness :
  let p := Sample.unset in
  let q := Sample.three_quarters in
  Flt.gt q Flt.half = true
  ∧ ui_parse_numbers id ARGS_OPTION_KEY_QRANGE false [q] p
    = Done (set_quantmin p q) NULL.
Proof.
  intros p q. split; [reflexivity|].
  apply (qrange_half_check_is_dead id ARGS_OPTION_KEY_QRANGE false [] p p q).
  - split; reflexivity.
  - reflexivity.
Defined.

End StatUIFacts.

(** ** bin/statistics/ui.c: further properties of ui_parse_numbers *)

Module StatUIMore.
Import StatUI Spec Terms StatUIFacts.

Lemma qrange_two (ceil : spec_float → spec_float) (q1 q2 : spec_float)
    (p : statisticsparams) :
  outside_0_1 q1 = false → outside_0_1 q2 = false →
  ui_parse_numbers ceil ARGS_OPTION_KEY_QRANGE false [q1; q2] p
  = Done (set_quantmax (set_quantmin p q1) q2) NULL.
Proof.
  intros H1 H2. unfold ui_parse_numbers, case_qrange, fatal_if. simpl.
  unfold number. simpl. fold (outside_0_1 q1) (outside_0_1 q2).
  by rewrite H1, H2, andb_false_r.
Qed.

Lemma qrange_one (ceil : spec_float → spec_float) (q : spec_float)
    (p : statisticsparams) :
  outside_0_1 q = false → outside_0_1 (quantmax p) = false →
  ui_parse_numbers ceil ARGS_OPTION_KEY_QRANGE false [q] p
  = Done (set_quantmin p q) NULL.
Proof.
  intros H1 H2. unfold ui_parse_numbers, case_qrange, fatal_if. simpl.
  unfold number. simpl. fold (outside_0_1 q) (outside_0_1 (quantmax p)).
  by rewrite H1, H2, andb_false_r.
Qed.

(** X18.  The quantile range takes its two numbers in any order: for
    [q1] and [q2] between 0 and 1, both [q1,q2] and [q2,q1] are accepted
    and stored as the lower and the upper quantile in the order given;
    no statement compares the two. *)
Theorem qrange_order_unchecked (ceil : spec_float → spec_float)
    (q1 q2 : spec_float) (p : statisticsparams) :
  between_0_and_1 q1 → between_0_and_1 q2 →
  ui_parse_numbers ceil ARGS_OPTION_KEY_QRANGE false [q1; q2] p
  = Done (set_quantmax (set_quantmin p q1) q2) NULL
  ∧ ui_parse_numbers ceil ARGS_OPTION_KEY_QRANGE false [q2; q1] p
    = Done (set_quantmax (set_quantmin p q2) q1) NULL.
Proof.
  intros H1 H2. split; apply qrange_two; by apply in_range.
Qed.

Lemma qrange_order_unchecked_witness :
  let p := Sample.unset in
  ui_parse_numbers id ARGS_OPTION_KEY_QRANGE false
    [Sample.three_quarters; Flt.half] p
  = Done (set_quantmax (set_quantmin p Sample.three_quarters) Flt.half) NULL.
Proof.
  intros p.
  apply (qrange_order_unchecked id Sample.three_quarters Flt.half p);
    split; reflexivity.
Defined.

(** X19.  A quantile range given with two numbers and then again with
    one: the second call stores its number as the lower quantile and
    keeps the upper quantile of the first call. *)
Theorem qrange_keeps_earlier_upper (ceil : spec_float → spec_float)
    (q1 q2 q : spec_float) (p : statisticsparams) :
  between_0_and_1 q1 → between_0_and_1 q2 → between_0_and_1 q →
  ∃ p1 p2,
    ui_parse_numbers ceil ARGS_OPTION_KEY_QRANGE false [q1; q2] p
    = Done p1 NULL
    ∧ ui_parse_numbers ceil ARGS_OPTION_KEY_QRANGE false [q] p1
      = Done p2 NULL
    ∧ quantmin p2 = q ∧ quantmax p2 = q2.
Proof.
  intros H1 H2 H. eexists _, _. split_and!.
  - apply qrange_two; by apply in_range.
  - apply qrange_one; by apply in_range.
  - done.
  - done.
Qed.

Lemma qrange_keeps_earlier_upper_witness :
  ∃ p1 p2,
    ui_parse_numbers id ARGS_OPTION_KEY_QRANGE false
      [Flt.zero; Flt.half] Sample.unset = Done p1 NULL
    ∧ ui_parse_numbers id ARGS_OPTION_KEY_QRANGE false
        [Sample.three_quarters] p1 = Done p2 NULL
    ∧ quantmin p2 = Sample.three_quarters ∧ quantmax p2 = Flt.half.
Proof.
  apply (qrange_keeps_earlier_upper id Flt.zero Flt.half
           Sample.three_quarters Sample.unset); split; reflexivity.
Defined.

(** X20.  Reading and then printing: when the upper quantile is unset
    before the call and the list holds no NaN, a call that reads the
    list for the sigma-clipping or the quantile range option and returns
    is followed, on the record it leaves, by a printing call (line number
    -1) that gives the same numbers back: one with the format of one
    number, two with the format of two. *)
Theorem parse_then_print (ceil : spec_float → spec_float)
    (key : option_key) (nums nums' : list spec_float)
    (p p' : statisticsparams) (r : returned) :
  Flt.isnan (quantmax p) = true → no_nan nums →
  ui_parse_numbers ceil key false nums p = Done p' r →
  ui_parse_numbers ceil key true nums' p'
  = Done p' (Str (if decide (length nums = 1%nat) then "%g" else "%g,%g")
               nums).
Proof.
  intros Hmax Hnan. unfold ui_parse_numbers.
  destruct key as [| |other]; [| |done].
  - unfold case_sigmaclip, fatal_if.
    destruct nums as [|m [|k [|x nums]]]; try done. simpl.
    unfold number. simpl.
    destruct (Flt.le m Flt.zero); simpl; [done|].
    destruct (Flt.le k Flt.zero); simpl; [done|].
    destruct (Flt.ge k Flt.one && _); simpl; [done|].
    by intros [= <- _].
  - unfold case_qrange, fatal_if.
    destruct nums as [|q1 [|q2 [|x nums]]]; try done; simpl;
      unfold number; simpl.
    + rewrite Hmax. simpl. rewrite orb_false_r.
      destruct (Flt.lt q1 Flt.zero || Flt.gt q1 Flt.one); simpl; [done|].
      intros [= <- _]. simpl. by rewrite Hmax.
    + apply Forall_cons in Hnan as [_ Hnan].
      apply Forall_cons in Hnan as [Hq2 _]. rewrite Hq2. simpl.
      destruct (_ || _); simpl; [done|].
      intros [= <- _]. simpl. by rewrite Hq2.
Qed.

Lemma parse_then_print_witness :
  ∃ p',
    ui_parse_numbers id ARGS_OPTION_KEY_QRANGE false
      [Sample.three_quarters] Sample.unset = Done p' NULL
    ∧ ui_parse_numbers id ARGS_OPTION_KEY_QRANGE true [] p'
      = Done p' (Str "%g" [Sample.three_quarters]).
Proof.
  eexists. split; [reflexivity|].
  apply (parse_then_print id ARGS_OPTION_KEY_QRANGE [Sample.three_quarters]
           [] Sample.unset _ NULL).
  - reflexivity.
  - by repeat constructor.
  - reflexivity.
Defined.

(** X21.  The sigma-clipping option is accepted exactly for a list of
    two numbers [m] and [k] such that neither [m <= 0] nor [k <= 0] holds
    and, if [k >= 1], [ceil (k)] equals [k]; the record then holds the
    two numbers and the call returns the null pointer.  (A NaN satisfies
    none of the three comparisons.) *)
Theorem sigmaclip_accepted_iff (ceil : spec_float → spec_float)
    (nums : list spec_float) (p p' : statisticsparams) (r : returned) :
  ui_parse_numbers ceil ARGS_OPTION_KEY_SIGMACLIP false nums p = Done p' r
  ↔ ∃ m k,
      nums = [m; k] ∧ p' = set_sigclip p m k ∧ r = NULL
      ∧ Flt.le m Flt.zero = false ∧ Flt.le k Flt.zero = false
      ∧ (Flt.ge k Flt.one = true → Flt.eq (ceil k) k = true).
Proof.
  unfold ui_parse_numbers, case_sigmaclip, fatal_if, Flt.ne.
  destruct nums as [|m [|k [|x nums]]]; simpl;
    try (split; [done|by intros (? & ? & ? & _)]).
  unfold number. simpl. split.
  - destruct (Flt.le m Flt.zero) eqn:Hm; simpl; [done|].
    destruct (Flt.le k Flt.zero) eqn:Hk; simpl; [done|].
    destruct (Flt.ge k Flt.one) eqn:Hg; simpl.
    + destruct (SFeqb (ceil k) k) eqn:E; simpl; [|done].
      intros [= <- <-]. exists m, k. split_and!; try done.
    + intros [= <- <-]. exists m, k. split_and!; try done. congruence.
  - intros (m' & k' & [= <- <-] & -> & -> & Hm & Hk & Hc).
    rewrite Hm. simpl. rewrite Hk. simpl.
    destruct (Flt.ge k Flt.one); simpl; [|done].
    unfold Flt.eq in Hc. by rewrite Hc.
Qed.

Lemma sigmaclip_accepted_iff_witness :
  ui_parse_numbers id ARGS_OPTION_KEY_SIGMACLIP false [Flt.one; Flt.half]
    Sample.unset
  = Done (set_sigclip Sample.unset Flt.one Flt.half) NULL.
Proof.
  apply (sigmaclip_accepted_iff id [Flt.one; Flt.half] Sample.unset
           (set_sigclip Sample.unset Flt.one Flt.half) NULL).
  exists Flt.one, Flt.half. by split_and!.
Defined.

(** X22.  What a call of [ui_parse_numbers] that returns leaves alone:
    a printing call changes no field and returns a string, a reading call
    returns the null pointer; the sigma-clipping option never changes the
    quantiles, the quantile range never changes the sigma-clipping
    fields, a list of one number never changes the upper quantile; and
    no call returns for a key other than these two. *)
Theorem ui_parse_numbers_frame (ceil : spec_float → spec_float)
    (key : option_key) (minus1 : bool) (nums : list spec_float)
    (p p' : statisticsparams) (r : returned) :
  ui_parse_numbers ceil key minus1 nums p = Done p' r →
  (minus1 = true → p' = p ∧ r ≠ NULL)
  ∧ (minus1 = false → r = NULL)
  ∧ (key = ARGS_OPTION_KEY_SIGMACLIP →
     quantmin p' = quantmin p ∧ quantmax p' = quantmax p)
  ∧ (key = ARGS_OPTION_KEY_QRANGE →
     sigclipmultip p' = sigclipmultip p ∧ sigclipparam p' = sigclipparam p)
  ∧ (length nums = 1%nat → quantmax p' = quantmax p)
  ∧ ∀ other, key ≠ ARGS_OPTION_KEY_OTHER other.
Proof.
  unfold ui_parse_numbers. destruct minus1.
  - destruct key; [by intros [= <- <-]| |done].
    by destruct (Flt.isnan (quantmax p)); intros [= <- <-].
  - destruct key as [| |other]; [| |done].
    + unfold case_sigmaclip, fatal_if.
      destruct (bool_decide (length nums ≠ 2%nat)) eqn:Hl; simpl; [done|].
      destruct (Flt.le (number nums 0) Flt.zero); simpl; [done|].
      destruct (Flt.le (number nums 1) Flt.zero); simpl; [done|].
      destruct (Flt.ge (number nums 1) Flt.one && _); simpl; [done|].
      by intros [= <- <-].
    + unfold case_qrange, fatal_if.
      destruct (bool_decide (length nums ≠ 1%nat)
                && bool_decide (length nums ≠ 2%nat)); simpl; [done|].
      destruct (decide (length nums = 2%nat)) as [Hl|Hl]; simpl.
      * destruct (_ || _); simpl; [done|].
        intros [= <- <-]. simpl. split_and!; try done. intros. lia.
      * destruct (_ || _); simpl; [done|].
        by intros [= <- <-].
Qed.

Lemma ui_parse_numbers_frame_witness :
  let p' := set_sigclip Sample.unset Flt.one Flt.half in
  quantmin p' = quantmin Sample.unset ∧ quantmax p' = quantmax Sample.unset.
Proof.
  intros p'.
  destruct (ui_parse_numbers_frame id ARGS_OPTION_KEY_SIGMACLIP false
              [Flt.one; Flt.half] Sample.unset p' NULL)
    as (_ & _ & Hq & _).
  - reflexivity.
  - by apply Hq.
Defined.

End StatUIMore.

(** ** bin/statistics/ui.c: the option callbacks, the checks and the
    release *)

Module StatUIChecksFacts.
Import Spec Terms StatUIChecks.

Lemma char_at_first (c : Ascii.ascii) (s : string) :
  char_at (String c s) 0 = Returns c.
Proof. done. Qed.

(** X23.  Once [parse_opt] has taken an argument as the input file, no
    later argument replaces it: the call for a second argument ends the
    process, with the message that only one argument should be given or,
    if the argument starts with an equal sign, with the message about
    that sign. *)
Theorem parse_opt_second_argument_refused
    (set_from_key :
       Z → option string → statisticsparams → ended statisticsparams)
    (first : string) (second : option string) (p p1 : statisticsparams) :
  parse_opt set_from_key ARGP_KEY_ARG (Some first) p = Returns p1 →
  inputname p1 = Some first
  ∧ ∃ e, parse_opt set_from_key ARGP_KEY_ARG second p1 = Exits e
         ∧ (e = OnlyOneArgument ∨ e = EqualSignMisused).
Proof.
  unfold parse_opt, fatal_when.
  assert (∀ s, ∃ c, char_at s 0 = Returns c) as Hc.
  { intros [|c s]; by eexists. }
  destruct (Hc first) as [c ->]. simpl.
  case_bool_decide; [done|]. simpl.
  destruct (inputname p); [done|]. intros [= <-]. simpl. split; [done|].
  destruct second as [s|]; simpl.
  - destruct (Hc s) as [c' ->]. simpl.
    case_bool_decide; simpl; eexists; (split; [reflexivity|]); tauto.
  - eexists. split; [reflexivity|]. tauto.
Qed.

Lemma parse_opt_second_argument_refused_witness :
  ∃ e,
    parse_opt (λ _ _ p, Returns p) ARGP_KEY_ARG (Some "b.fits"%string)
      (set_inputname Instances.nothing_given (Some "a.fits"%string))
    = Exits e.
Proof.
  destruct (parse_opt_second_argument_refused (λ _ _ p, Returns p)
              "a.fits" (Some "b.fits"%string) Instances.nothing_given
              (set_inputname Instances.nothing_given (Some "a.fits"%string)))
    as (_ & e & He & _).
  - reflexivity.
  - exists e. exact He.
Defined.

(** X24.  What [ui_add_to_print_in_row] makes of a value that is not
    empty, in a call with a line number: a value that starts with [0]
    leaves the list as it is and one that starts with [1] adds the
    option, whatever follows the first character; a value of one
    character other than [0] adds the option; the message that the option
    takes no argument is for values of two characters or more that start
    with neither [0] nor [1]. *)
Theorem print_in_row_reads_first_character
    (add_to_ill : list print_key → print_key → list print_key)
    (key : print_key) (c : Ascii.ascii) (rest : string)
    (p : statisticsparams) :
  let call := ui_add_to_print_in_row add_to_ill key (Some (String c rest))
                false p in
  let added := set_toprint p (add_to_ill (toprint p) key) in
  (c = "0"%char → call = Returns p)
  ∧ (c = "1"%char → call = Returns added)
  ∧ (c ≠ "0"%char → rest = EmptyString → call = Returns added)
  ∧ (c ≠ "0"%char → c ≠ "1"%char →
     ∀ c1 more, rest = String c1 more → c1 ≠ Ascii.zero →
       call = Exits OptionTakesNoArgument).
Proof.
  intros call added. unfold call, added, ui_add_to_print_in_row,
    not_a_switch, switched_off, fatal_when.
  rewrite char_at_first. split_and!.
  - intros ->. simpl. destruct rest as [|c1 more]; simpl; [done|].
    by case_bool_decide.
  - intros ->. simpl. destruct rest as [|c1 more]; simpl; [done|].
    by case_bool_decide.
  - intros Hc ->. simpl. by case_bool_decide.
  - intros H0 H1 c1 more -> Hc1. simpl.
    repeat (case_bool_decide; try done); simpl in *; done.
Qed.

Lemma print_in_row_reads_first_character_witness :
  ui_add_to_print_in_row (λ l k, k :: l) ARGS_OPTION_KEY_MODE
    (Some "2"%string) false Instances.nothing_given
  = Returns (set_toprint Instances.nothing_given [ARGS_OPTION_KEY_MODE]).
Proof.
  destruct (print_in_row_reads_first_character (λ l k, k :: l)
              ARGS_OPTION_KEY_MODE "2"%char EmptyString
              Instances.nothing_given) as (_ & _ & Hone & _).
  by apply Hone.
Defined.

Lemma add_all_toprint
    (add_to_ill : list print_key → print_key → list print_key)
    (keys : list print_key) :
  (∀ l k, add_to_ill l k = k :: l) →
  ∀ p p1, add_all add_to_ill keys p = Returns p1 →
    toprint p1 = rev keys ++ toprint p.
Proof.
  intros Hadd. induction keys as [|k keys IH]; intros p p1; simpl.
  - by intros [= <-].
  - unfold ui_add_to_print_in_row. simpl. intros Hall.
    rewrite (IH _ _ Hall). simpl. by rewrite Hadd, <- app_assoc.
Qed.

Lemma read_check_returns (format_accepted : bool)
    (reverse_ill : list print_key → list print_key)
    (p p' : statisticsparams) :
  ui_read_check_only_options format_accepted reverse_ill p = Returns p' →
  p' = set_toprint p (reverse_ill (toprint p))
  ∧ format_accepted = true
  ∧ negb (Flt.isnan (lessthan p)) && negb (Flt.isnan (greaterequal p))
    && Flt.lt (lessthan p) (greaterequal p) = false
  ∧ (negb (Flt.isnan (lessthan p)) || negb (Flt.isnan (greaterequal p)))
    && negb (Flt.isnan (StatUI.quantmin (numbers p))) = false.
Proof.
  unfold ui_read_check_only_options, fatal_when.
  destruct format_accepted; simpl; [|done].
  destruct (_ && Flt.lt _ _); simpl; [done|].
  destruct (_ && negb (Flt.isnan (StatUI.quantmin _))); simpl; [done|].
  destruct (_ && bool_decide (numbins p = 0)); simpl; [done|].
  destruct (_ && (_ || _)); simpl; [done|].
  by intros [= <-].
Qed.

(** X25.  If [gal_linkedlist_add_to_ill] puts a key at the head of the
    list and [gal_linkedlist_reverse_ill] reverses it, the options to
    print in one row, read one after the other into an empty list, are
    in the list in the order they were given once
    [ui_read_check_only_options] has returned. *)
Theorem one_row_outputs_keep_their_order
    (add_to_ill : list print_key → print_key → list print_key)
    (reverse_ill : list print_key → list print_key)
    (keys : list print_key) (p p1 p2 : statisticsparams) :
  (∀ l k, add_to_ill l k = k :: l) →
  (∀ l, reverse_ill l = rev l) →
  toprint p = [] →
  add_all add_to_ill keys p = Returns p1 →
  ui_read_check_only_options true reverse_ill p1 = Returns p2 →
  toprint p2 = keys.
Proof.
  intros Hadd Hrev Hp Hall Hcheck.
  apply read_check_returns in Hcheck as (-> & _). simpl.
  rewrite Hrev, (add_all_toprint add_to_ill keys Hadd p p1 Hall), Hp.
  by rewrite app_nil_r, rev_involutive.
Qed.

Lemma one_row_outputs_keep_their_order_witness :
  ∃ p1 p2,
    add_all (λ l k, k :: l)
      [ARGS_OPTION_KEY_MEDIAN; ARGS_OPTION_KEY_ROW 3] Instances.nothing_given
    = Returns p1
    ∧ ui_read_check_only_options true (λ l, rev l) p1 = Returns p2
    ∧ toprint p2 = [ARGS_OPTION_KEY_MEDIAN; ARGS_OPTION_KEY_ROW 3].
Proof.
  eexists _, _. split; [reflexivity|]. split; [reflexivity|].
  eapply (one_row_outputs_keep_their_order (λ l k, k :: l) (λ l, rev l)
            [ARGS_OPTION_KEY_MEDIAN; ARGS_OPTION_KEY_ROW 3]
            Instances.nothing_given); [done|done|reflexivity..].
Defined.

Lemma qrange_sets_quantmin (ceil : spec_float → spec_float)
    (nums : list spec_float) (s s' : StatUI.statisticsparams)
    (r : StatUI.returned) :
  StatUI.ui_parse_numbers ceil StatUI.ARGS_OPTION_KEY_QRANGE false nums s
  = StatUI.Done s' r →
  StatUI.quantmin s' = StatUI.number nums 0.
Proof.
  unfold StatUI.ui_parse_numbers, StatUI.case_qrange, StatUI.fatal_if.
  destruct (bool_decide (length nums ≠ 1%nat)
            && bool_decide (length nums ≠ 2%nat)); simpl; [done|].
  destruct (decide (length nums = 2%nat)); simpl;
    (destruct (_ || _); simpl; [done|]); by intros [= <- _].
Qed.

(** X26.  After [ui_parse_numbers] has read a quantile range whose first
    number is not a NaN, [ui_read_check_only_options] does not return if
    a lower or an upper bound of the values is set as well: the two ways
    of giving a range exclude each other. *)
Theorem quantile_range_excludes_value_range
    (ceil : spec_float → spec_float) (nums : list spec_float)
    (s : StatUI.statisticsparams) (r : StatUI.returned)
    (format_accepted : bool)
    (reverse_ill : list print_key → list print_key)
    (p : statisticsparams) :
  StatUI.ui_parse_numbers ceil StatUI.ARGS_OPTION_KEY_QRANGE false nums s
  = StatUI.Done (numbers p) r →
  Flt.isnan (StatUI.number nums 0) = false →
  Flt.isnan (lessthan p) = false ∨ Flt.isnan (greaterequal p) = false →
  ∀ p', ui_read_check_only_options format_accepted reverse_ill p
        ≠ Returns p'.
Proof.
  intros Hparse Hq Hrange p' Hcheck.
  apply read_check_returns in Hcheck as (_ & _ & _ & Hboth).
  rewrite (qrange_sets_quantmin _ _ _ _ _ Hparse), Hq in Hboth.
  destruct Hrange as [Hr | Hr]; rewrite Hr in Hboth; simpl in Hboth;
    [done|].
  by rewrite orb_true_r in Hboth.
Qed.

Lemma quantile_range_excludes_value_range_witness :
  ui_read_check_only_options true (λ l, rev l) Instances.both_ranges
  ≠ Returns Instances.both_ranges.
Proof.
  apply (quantile_range_excludes_value_range id [Sample.three_quarters]
           Sample.unset StatUI.NULL true (λ l, rev l)
           Instances.both_ranges).
  - reflexivity.
  - reflexivity.
  - by left.
Defined.

Lemma lt_irreflexive (x : spec_float) : Flt.lt x x = false.
Proof.
  destruct x as [[]|[]| |[] m e]; try done;
    unfold Flt.lt, SFltb, SFcompare;
    rewrite Z.compare_refl; simpl;
    by rewrite ?Pos.compare_cont_refl.
Qed.

(** X27.  The check of the two bounds of the values refuses an upper
    bound below the lower one only: with equal bounds, a range that holds
    no value, [ui_read_check_only_options] does not end with the message
    that the upper bound must be larger. *)
Theorem equal_bounds_pass_the_range_check (format_accepted : bool)
    (reverse_ill : list print_key → list print_key)
    (p : statisticsparams) :
  lessthan p = greaterequal p →
  ui_read_check_only_options format_accepted reverse_ill p
  ≠ Exits LessThanBelowGreaterEqual.
Proof.
  intros Heq. unfold ui_read_check_only_options, fatal_when.
  rewrite Heq, lt_irreflexive, andb_false_r.
  destruct format_accepted; simpl; [|done].
  repeat (case_match; simpl; try done).
Qed.

Lemma equal_bounds_pass_the_range_check_witness :
  ui_read_check_only_options true (λ l, rev l) Instances.both_ranges
  ≠ Exits LessThanBelowGreaterEqual.
Proof.
  apply (equal_bounds_pass_the_range_check true (λ l, rev l)
           Instances.both_ranges).
  reflexivity.
Defined.

(** X28.  When [ui_check_options_and_arguments] returns, an input file
    was given, the column and the extension are as they were, and: for a
    FITS file an extension was given, its kind is the one recorded, and
    it is an image exactly when no column was given; for any other file
    a column was given and the recorded kind is left as it was. *)
Theorem checked_arguments_fit (is_fits : string → bool)
    (kind_of : string → string → hdu_kind) (p p' : statisticsparams) :
  ui_check_options_and_arguments is_fits kind_of p = Returns p' →
  ∃ file,
    inputname p = Some file
    ∧ isfits p' = is_fits file
    ∧ column p' = column p ∧ hdu p' = hdu p
    ∧ (if isfits p'
       then ∃ h, hdu p = Some h
                 ∧ hdu_type p' = kind_of file h
                 ∧ (hdu_type p' = IMAGE_HDU ↔ column p = None)
       else column p ≠ None ∧ hdu_type p' = hdu_type p).
Proof.
  unfold ui_check_options_and_arguments.
  destruct (inputname p) as [file|]; [|done]. simpl.
  destruct (is_fits file) eqn:Hf.
  - destruct (hdu p) as [h|] eqn:Hh; [|done]. simpl.
    case_decide as Hk; destruct (column p) eqn:Hcol; simpl; try done;
      intros [= <-]; exists file; simpl; rewrite Hf;
      (split_and!; try done); exists h; (split_and!; try done); by split.
  - destruct (column p) eqn:Hcol; simpl; [|done].
    intros [= <-]. exists file. simpl. rewrite Hf. by split_and!.
Qed.

Lemma checked_arguments_fit_witness :
  ∃ p',
    ui_check_options_and_arguments (λ _, true) (λ _ _, OTHER_HDU 2)
      Instances.table_column = Returns p'
    ∧ isfits p' = true ∧ hdu_type p' = OTHER_HDU 2.
Proof.
  eexists. split; [reflexivity|].
  destruct (checked_arguments_fit (λ _, true) (λ _ _, OTHER_HDU 2)
              Instances.table_column _ eq_refl)
    as (file & Hfile & Hfits & _ & _ & Hkind).
  rewrite Hfits in Hkind. destruct Hkind as (h & _ & Hk & _).
  split; [exact Hfits|exact Hk].
Defined.

(** X29.  [ui_make_sorted_if_necessary] computes whether a sorted array
    is necessary and does not use the answer: with no median and no mode
    to print and no sigma-clipping asked, [is_necessary] ends as 0, and
    the copy of an input that is not sorted is made nonetheless. *)
Theorem sorted_copy_made_when_not_needed (is_sorted : address → bool)
    (copy : address → address) (p : statisticsparams) :
  Forall (λ k, ∃ key, k = ARGS_OPTION_KEY_ROW key) (toprint p) →
  Flt.isnan (StatUI.sigclipmultip (numbers p)) = true →
  is_sorted (input p) = false →
  let r := ui_make_sorted_if_necessary is_sorted copy p in
  r.1 = 0 ∧ sorted r.2 = copy (input p) ∧ input r.2 = input p.
Proof.
  intros Hrows Hnan Hs. unfold ui_make_sorted_if_necessary.
  rewrite Hs, Hnan, andb_false_r. simpl. split; [|done].
  induction Hrows as [|k l [key ->] _ IH]; [done|]. done.
Qed.

Lemma sorted_copy_made_when_not_needed_witness :
  let r := ui_make_sorted_if_necessary (λ _, false) (λ a, a + 1)
             Instances.nothing_given in
  r.1 = 0 ∧ sorted r.2 = 101.
Proof.
  intros r.
  destruct (sorted_copy_made_when_not_needed (λ _, false) (λ a, a + 1)
              Instances.nothing_given) as (Hn & Hs & _).
  - constructor.
  - reflexivity.
  - reflexivity.
  - split; [exact Hn|exact Hs].
Defined.

(** X30.  [ui_free_report] releases no data set twice, whether the
    sorted array is the input itself or a copy: the calls it makes are
    pairwise different, the input and the sorted array are both
    released, and the input is released last. *)
Theorem ui_free_report_releases_once (p : statisticsparams) :
  NoDup (ui_free_report p)
  ∧ gal_data_free (input p) ∈ ui_free_report p
  ∧ gal_data_free (sorted p) ∈ ui_free_report p
  ∧ last (ui_free_report p) = Some (gal_data_free (input p)).
Proof.
  unfold ui_free_report. case_decide as Hne; simpl.
  - split_and!; [|rewrite ?elem_of_cons; tauto..|done].
    repeat (apply NoDup_cons; split;
            [rewrite ?elem_of_cons, elem_of_nil; intuition congruence|]).
    apply NoDup_nil_2.
  - assert (sorted p = input p) as ->
      by (by destruct (decide (sorted p = input p))).
    split_and!; [|rewrite ?elem_of_cons; tauto..|done].
    repeat (apply NoDup_cons; split;
            [rewrite ?elem_of_cons, elem_of_nil; intuition congruence|]).
    apply NoDup_nil_2.
Qed.

Lemma ui_free_report_releases_once_witness :
  NoDup (ui_free_report Instances.nothing_given).
Proof.
  exact (proj1 (ui_free_report_releases_once Instances.nothing_given)).
Defined.
End StatUIChecksFacts.
